(** * Catnip: the worktree lifecycle and checkpoint engine

    A shallow embedding of [container/internal/services/claude_monitor.go]
    (the Claude monitor service and its per-worktree checkpoint managers)
    and of the parts of the git service it relies on
    ([cleanupUnusedBranches], [GitAddCommitGetHash], [getWorkspaceDir]),
    together with the properties the specification states about them.

    Go strings are byte sequences: they are modelled by [string], whose
    characters are the 256 byte values.  Maps are [gmap]s.  Wall-clock
    instants are integers counting nanoseconds. *)

From Stdlib Require Import ZArith Ascii String List Bool Lia DecimalString.
From stdpp Require Import gmap strings list fin_maps.

Local Open Scope Z_scope.

(** ** Bytes *)

Definition byte (c : ascii) : Z := Z.of_N (N_of_ascii c).

Definition chr (z : Z) : ascii := ascii_of_N (Z.to_N z).

(** ** Go's [unicode/utf8] package

    [DecodeRuneInString] and [DecodeLastRuneInString], with the tables
    [first] and [acceptRanges] they consult.  An invalid encoding decodes
    as [(RuneError, 1)]. *)

Module utf8.

Definition RuneError : Z := 0xFFFD.
Definition RuneSelf : Z := 0x80.
Definition UTFMax : nat := 4.

Definition maskx : Z := 0x3F.
Definition mask2 : Z := 0x1F.
Definition mask3 : Z := 0x0F.
Definition mask4 : Z := 0x07.

Definition locb : Z := 0x80.
Definition hicb : Z := 0xBF.

Definition xx : Z := 0xF1.
Definition as_ : Z := 0xF0.
Definition s1 : Z := 0x02.
Definition s2 : Z := 0x13.
Definition s3 : Z := 0x03.
Definition s4 : Z := 0x23.
Definition s5 : Z := 0x34.
Definition s6 : Z := 0x04.
Definition s7 : Z := 0x44.

(** The 256-entry table [first], by ranges of the first byte. *)
Definition first (b : Z) : Z :=
  if b <? 0x80 then as_
  else if b <? 0xC2 then xx
  else if b <? 0xE0 then s1
  else if b =? 0xE0 then s2
  else if b <? 0xED then s3
  else if b =? 0xED then s4
  else if b <? 0xF0 then s3
  else if b =? 0xF0 then s5
  else if b <? 0xF4 then s6
  else if b =? 0xF4 then s7
  else xx.

Record acceptRange := { lo : Z; hi : Z }.

Definition acceptRanges (i : Z) : acceptRange :=
  if i =? 0 then {| lo := locb; hi := hicb |}
  else if i =? 1 then {| lo := 0xA0; hi := hicb |}
  else if i =? 2 then {| lo := locb; hi := 0x9F |}
  else if i =? 3 then {| lo := 0x90; hi := hicb |}
  else if i =? 4 then {| lo := locb; hi := 0x8F |}
  else {| lo := 0; hi := 0 |}.

Definition DecodeRuneInString (s : list ascii) : Z * nat :=
  match s with
  | [] => (RuneError, 0%nat)
  | c0 :: t0 =>
    let b0 := byte c0 in
    let x := first b0 in
    if as_ <=? x then
      (* the mask is all ones exactly when x = xx, whose low bit is set *)
      (if Z.testbit x 0 then RuneError else b0, 1%nat)
    else
      let sz := Z.to_nat (Z.land x 7) in
      let accept := acceptRanges (Z.shiftr x 4) in
      if (length s <? sz)%nat then (RuneError, 1%nat)
      else match t0 with
      | [] => (RuneError, 1%nat)
      | c1 :: t1 =>
        let b1 := byte c1 in
        if (b1 <? lo accept) || (hi accept <? b1) then (RuneError, 1%nat)
        else if (sz <=? 2)%nat then
          (Z.lor (Z.shiftl (Z.land b0 mask2) 6) (Z.land b1 maskx), 2%nat)
        else match t1 with
        | [] => (RuneError, 1%nat)
        | c2 :: t2 =>
          let b2 := byte c2 in
          if (b2 <? locb) || (hicb <? b2) then (RuneError, 1%nat)
          else if (sz <=? 3)%nat then
            (Z.lor (Z.lor (Z.shiftl (Z.land b0 mask3) 12)
                          (Z.shiftl (Z.land b1 maskx) 6))
                   (Z.land b2 maskx), 3%nat)
          else match t2 with
          | [] => (RuneError, 1%nat)
          | c3 :: _ =>
            let b3 := byte c3 in
            if (b3 <? locb) || (hicb <? b3) then (RuneError, 1%nat)
            else
              (Z.lor (Z.lor (Z.lor (Z.shiftl (Z.land b0 mask4) 18)
                                   (Z.shiftl (Z.land b1 maskx) 12))
                            (Z.shiftl (Z.land b2 maskx) 6))
                     (Z.land b3 maskx), 4%nat)
          end
        end
      end
  end.

(** [RuneStart b]: [b] is not a continuation byte. *)
Definition RuneStart (b : Z) : bool := negb (Z.land b 0xC0 =? 0x80).

(** The backward scan of [DecodeLastRuneInString]:
    [for start--; start >= lim; start-- { if RuneStart(s[start]) { break } }],
    entered with [start] already decremented.  At most [UTFMax] bytes are
    inspected. *)
Fixpoint scanRuneStart (fuel : nat) (s : list ascii) (lim start : Z) : Z :=
  match fuel with
  | O => start
  | S fuel' =>
    if start <? lim then start
    else match s !! Z.to_nat start with
         | Some c => if RuneStart (byte c) then start
                     else scanRuneStart fuel' s lim (start - 1)
         | None => start
         end
  end.

Definition DecodeLastRuneInString (s : list ascii) : Z * nat :=
  let end_ := Z.of_nat (length s) in
  match last s with
  | None => (RuneError, 0%nat)
  | Some c =>
    let r := byte c in
    if r <? RuneSelf then (r, 1%nat)
    else
      let lim := Z.max (end_ - Z.of_nat UTFMax) 0 in
      let start := scanRuneStart (S UTFMax) s lim (end_ - 1 - 1) in
      let start := Z.max start 0 in
      let '(r, size) := DecodeRuneInString (drop (Z.to_nat start) s) in
      if start + Z.of_nat size =? end_ then (r, size)
      else (RuneError, 1%nat)
  end.

Definition MaxRune : Z := 0x10FFFF.
Definition surrogateMin : Z := 0xD800.
Definition surrogateMax : Z := 0xDFFF.

Definition t2 : Z := 0xC0.
Definition t3 : Z := 0xE0.
Definition t4 : Z := 0xF0.
Definition tx : Z := 0x80.

Definition rune1Max : Z := 0x7F.
Definition rune2Max : Z := 0x7FF.
Definition rune3Max : Z := 0xFFFF.

(** [ValidRune] *)
Definition ValidRune (r : Z) : bool :=
  ((0 <=? r) && (r <? surrogateMin)) || ((surrogateMax <? r) && (r <=? MaxRune)).

(** The conversions [byte(x)] and [uint32(x)] of a rune. *)
Definition toByte (x : Z) : Z := x mod 256.
Definition toUint32 (x : Z) : Z := x mod 2 ^ 32.

(** [AppendRune]: the bytes it appends for the rune [r]. *)
Definition AppendRune (r : Z) : list ascii :=
  let i := toUint32 r in
  if i <=? rune1Max then [chr (toByte r)]
  else if i <=? rune2Max then
    [chr (Z.lor t2 (toByte (Z.shiftr r 6)));
     chr (Z.lor tx (Z.land (toByte r) maskx))]
  else
    let erroneous :=
      (MaxRune <? i) || ((surrogateMin <=? i) && (i <=? surrogateMax)) in
    let r := if erroneous then RuneError else r in
    if erroneous || (i <=? rune3Max) then
      [chr (Z.lor t3 (toByte (Z.shiftr r 12)));
       chr (Z.lor tx (Z.land (toByte (Z.shiftr r 6)) maskx));
       chr (Z.lor tx (Z.land (toByte r) maskx))]
    else
      [chr (Z.lor t4 (toByte (Z.shiftr r 18)));
       chr (Z.lor tx (Z.land (toByte (Z.shiftr r 12)) maskx));
       chr (Z.lor tx (Z.land (toByte (Z.shiftr r 6)) maskx));
       chr (Z.lor tx (Z.land (toByte r) maskx))].

End utf8.

(** ** Go's [unicode.IsSpace] *)

Module unicode.

Definition MaxLatin1 : Z := 0xFF.

(** The [White_Space] range table beyond Latin-1. *)
Definition White_Space (r : Z) : bool :=
  (r =? 0x1680) || ((0x2000 <=? r) && (r <=? 0x200A))
  || ((0x2028 <=? r) && (r <=? 0x2029)) || (r =? 0x202F)
  || (r =? 0x205F) || (r =? 0x3000).

Definition IsSpace (r : Z) : bool :=
  if r <=? MaxLatin1 then
    (r =? 0x09) || (r =? 0x0A) || (r =? 0x0B) || (r =? 0x0C)
    || (r =? 0x0D) || (r =? 0x20) || (r =? 0x85) || (r =? 0xA0)
  else White_Space r.

End unicode.

(** ** Go's [strings] package

    The functions the services call.  [TrimSpace] removes leading and
    trailing white space as [unicode.IsSpace] defines it, runes being
    decoded from the front by [utf8.DecodeRuneInString] and from the back
    by [utf8.DecodeLastRuneInString] (Go's ASCII fast path computes the
    same slice). *)

Module strings.

Definition HasPrefix (s prefix : string) : bool := String.prefix prefix s.

Fixpoint dropString (n : nat) (s : string) : string :=
  match n, s with
  | O, _ => s
  | S n', String _ s' => dropString n' s'
  | S _, EmptyString => EmptyString
  end.

Definition HasSuffix (s suffix : string) : bool :=
  (String.length suffix <=? String.length s)%nat
  && String.eqb (dropString (String.length s - String.length suffix) s) suffix.

Definition TrimPrefix (s prefix : string) : string :=
  if HasPrefix s prefix then dropString (String.length prefix) s else s.

(** [Contains s substr] is [Index(s, substr) >= 0]. *)
Fixpoint Contains (s substr : string) : bool :=
  String.prefix substr s
  || match s with
     | EmptyString => false
     | String _ s' => Contains s' substr
     end.

(** [ReplaceAll s old new] for a non-empty [old]: matches are found
    left to right and do not overlap.  [skip] counts the bytes of the
    current match still to be passed over.  (With an empty [old] Go
    inserts [new] at every rune boundary; no caller here does that, and
    the string is returned as it is.) *)
Fixpoint replaceFrom (skip : nat) (s old new : string) : string :=
  match s with
  | EmptyString => EmptyString
  | String c s' =>
    match skip with
    | S k => replaceFrom k s' old new
    | O =>
      if String.prefix old s
      then new +:+ replaceFrom (String.length old - 1) s' old new
      else String c (replaceFrom O s' old new)
    end
  end.

Definition ReplaceAll (s old new : string) : string :=
  match old with
  | EmptyString => s
  | _ => replaceFrom O s old new
  end.

(** [Index s substr]: the byte index of the first occurrence, or -1. *)
Fixpoint Index (s substr : string) : Z :=
  if String.prefix substr s then 0
  else match s with
       | EmptyString => -1
       | String _ s' =>
         let i := Index s' substr in
         if i <? 0 then -1 else i + 1
       end.

(** [s[:n]] *)
Fixpoint takeString (n : nat) (s : string) : string :=
  match n, s with
  | S n', String c s' => String c (takeString n' s')
  | _, _ => EmptyString
  end.

(** [Split s sep] for a non-empty [sep]; [cur] is the piece being
    read.  (With an empty [sep] Go explodes the string into its UTF-8
    sequences; no caller here does that.) *)
Fixpoint splitFrom (skip : nat) (cur s sep : string) : list string :=
  match s with
  | EmptyString => [cur]
  | String c s' =>
    match skip with
    | S k => splitFrom k cur s' sep
    | O =>
      if String.prefix sep s
      then cur :: splitFrom (String.length sep - 1) EmptyString s' sep
      else splitFrom O (cur +:+ String c EmptyString) s' sep
    end
  end.

Definition Split (s sep : string) : list string :=
  match sep with
  | EmptyString => [s]
  | _ => splitFrom O EmptyString s sep
  end.

(** [TrimLeftFunc]: drop leading runes while [f] holds. *)
Fixpoint trimLeftFrom (f : Z → bool) (skip : nat) (s : list ascii) : list ascii :=
  match s with
  | [] => []
  | _ :: s' =>
    match skip with
    | S k => trimLeftFrom f k s'
    | O =>
      let '(r, size) := utf8.DecodeRuneInString s in
      if f r then trimLeftFrom f (size - 1) s' else s
    end
  end.

Definition TrimLeftFunc (s : list ascii) (f : Z → bool) : list ascii :=
  trimLeftFrom f O s.

(** [TrimRightFunc]: drop trailing runes while [f] holds; each round
    decodes the last rune of what is left. *)
Fixpoint trimRightLoop (fuel : nat) (f : Z → bool) (s : list ascii) : list ascii :=
  match fuel with
  | O => s
  | S fuel' =>
    match s with
    | [] => []
    | _ =>
      let '(r, size) := utf8.DecodeLastRuneInString s in
      if f r then trimRightLoop fuel' f (take (length s - size) s) else s
    end
  end.

Definition TrimRightFunc (s : list ascii) (f : Z → bool) : list ascii :=
  trimRightLoop (length s) f s.

Definition TrimFunc (s : list ascii) (f : Z → bool) : list ascii :=
  TrimRightFunc (TrimLeftFunc s f) f.

Definition TrimSpace (s : string) : string :=
  string_of_list_ascii (TrimFunc (list_ascii_of_string s) unicode.IsSpace).

End strings.

(** ** [cleanTitle] (claude_monitor.go) *)

(** The sparkle glyph U+2733, whose UTF-8 encoding is E2 9C B3. *)
Definition sparkle : string :=
  String (chr 0xE2) (String (chr 0x9C) (String (chr 0xB3) EmptyString)).

Definition cleanTitle (title : string) : string :=
  let cleaned := strings.TrimSpace (strings.ReplaceAll title sparkle "") in
  let cleaned := strings.TrimSpace (strings.TrimPrefix cleaned "*") in
  cleaned.

(** ** Go's [time] package

    An instant is a count of nanoseconds; a [Duration] is a signed 64-bit
    count of nanoseconds, and [Sub] saturates at its bounds. *)

Module time.

Definition Nanosecond : Z := 1.
Definition Second : Z := 1000000000 * Nanosecond.

Definition minDuration : Z := - 2 ^ 63.
Definition maxDuration : Z := 2 ^ 63 - 1.

Definition Add (t d : Z) : Z := t + d.

Definition Before (t u : Z) : bool := t <? u.

Definition Sub (t u : Z) : Z :=
  let d := t - u in
  if d <? minDuration then minDuration
  else if maxDuration <? d then maxDuration
  else d.

End time.

(** ** Errors

    A Go [error] is [None] for Go's nil and [Some msg] otherwise. *)

Definition error : Type := option string.
Definition noError : error := None.

Definition isNil (e : error) : bool :=
  match e with None => true | Some _ => false end.

(** [fmt.Sprintf("%d", n)] *)
Definition itoa (n : Z) : string := NilZero.string_of_int (Z.to_int n).

(** ** The monitor's recent-title table (claude_monitor.go) *)

Record titleEvent := {
  ev_title : string;
  ev_timestamp : Z;
  ev_source : string           (* "log" or "pty" *)
}.

(** The readings of [time.Now()] one call of [handleTitleChange] takes:
    for the eviction cutoff, inside [time.Since], and for the timestamp
    it records. *)
Record clock := {
  now_cutoff : Z;
  now_since : Z;
  now_record : Z
}.

(** A call in which the three readings coincide. *)
Definition instant (t : Z) : clock :=
  {| now_cutoff := t; now_since := t; now_record := t |}.

Definition titleKey (workDir newTitle : string) : string :=
  workDir +:+ ":" +:+ newTitle.

(** Lines 237-243: delete every entry older than the cutoff. *)
Definition evictBefore (cutoff : Z) (recentTitles : gmap string titleEvent)
  : gmap string titleEvent :=
  filter (λ kv, time.Before (ev_timestamp kv.2) cutoff = false) recentTitles.

(** Lines 233-265 of [handleTitleChange]: the section guarded by
    [recentTitlesMutex].  The result is the new table and whether the
    event goes on to the checkpoint manager ([false]: the function has
    returned early). *)
Definition recordTitle (recentTitles : gmap string titleEvent)
    (workDir newTitle source : string) (clk : clock)
  : gmap string titleEvent * bool :=
  let key := titleKey workDir newTitle in
  let cutoff := time.Add (now_cutoff clk) (-5 * time.Second) in
  let recentTitles := evictBefore cutoff recentTitles in
  let duplicate :=
    match recentTitles !! key with
    | Some recent =>
      (String.eqb source "log" && String.eqb (ev_source recent) "log")
      || (String.eqb source "pty"
          && (time.Sub (now_since clk) (ev_timestamp recent) <? 2 * time.Second))
    | None => false
    end in
  if duplicate then (recentTitles, false)
  else (<[key := {| ev_title := newTitle;
                    ev_timestamp := now_record clk;
                    ev_source := source |}]> recentTitles, true).

(** ** Go's [path/filepath] package (Unix) and the process environment *)

Module filepath.

Definition Separator : ascii := "/"%char.

(** The elements of a path between separators. *)
Fixpoint elements (cur : string) (path : string) : list string :=
  match path with
  | EmptyString => [cur]
  | String c rest =>
    if Ascii.eqb c Separator then cur :: elements EmptyString rest
    else elements (cur +:+ String c EmptyString) rest
  end.

(** One round of the loop of [Clean]: [dotdots] counts the leading
    [..] elements that cannot be backtracked over, [out] holds the
    kept elements, last one first. *)
Definition cleanStep (rooted : bool) (st : nat * list string) (e : string)
  : nat * list string :=
  let '(dotdots, out) := st in
  if String.eqb e "" then st
  else if String.eqb e "." then st
  else if String.eqb e ".." then
    match out with
    | _ :: out' => (dotdots, out')
    | [] => if rooted then st else (S dotdots, out)
    end
  else (dotdots, e :: out).

Definition joinElements (es : list string) : string :=
  match es with
  | [] => EmptyString
  | e :: es' => fold_left (λ acc x, acc +:+ "/" +:+ x) es' e
  end.

Definition Clean (path : string) : string :=
  match path with
  | EmptyString => "."
  | String c _ =>
    let rooted := Ascii.eqb c Separator in
    let '(dotdots, out) :=
      fold_left (cleanStep rooted) (elements EmptyString path) (O, []) in
    let kept := repeat ".." dotdots ++ rev out in
    if rooted then "/" +:+ joinElements kept
    else match kept with
         | [] => "."
         | _ => joinElements kept
         end
  end.

(** [Join]: the elements from the first non-empty one on, joined with
    the separator and cleaned. *)
Fixpoint Join (elem : list string) : string :=
  match elem with
  | [] => EmptyString
  | e :: rest =>
    if String.eqb e "" then Join rest else Clean (joinElements elem)
  end.

(** [path[:i+1]] for the last separator at [i]; empty without one. *)
Fixpoint uptoLastSeparator (path : string) : string :=
  match path with
  | EmptyString => EmptyString
  | String c rest =>
    let r := uptoLastSeparator rest in
    if Ascii.eqb c Separator then String c r
    else match r with
         | EmptyString => EmptyString
         | _ => String c r
         end
  end.

Definition Dir (path : string) : string := Clean (uptoLastSeparator path).

Definition Base (path : string) : string :=
  match path with
  | EmptyString => "."
  | _ =>
    match filter (λ e, e ≠ EmptyString) (elements EmptyString path) with
    | [] => "/"
    | es => default "/" (last es)
    end
  end.

End filepath.

(** What the process sees of its surroundings: its environment
    variables and which paths [os.Stat] finds. *)
Record OS := {
  Getenv : string → string;
  Stat : string → error
}.

(** ** The collaborators of the services

    The git facade ([git.Operations]), the session service and the
    worktree registry live in other packages; the services reach them
    through these interfaces.  A command of the facade answers with its
    output and an [error]; one that can change the repository also gives
    the repository back. *)

Definition output : Type := string * error.

(** [git.WorktreeInfo] *)
Record WorktreeInfo := {
  wt_Path : string;
  wt_Branch : string
}.

Record ListBranchesOptions := { All : bool }.
Record ShowRefOptions := { Verify : bool; Quiet : bool }.

Class Operations (G : Type) := {
  IsGitRepository : G → string → bool;
  ExecuteGit : G → string → list string → G * output;
  ExecuteCommand : G → string → list string → output;
  BranchExists : G → string → string → bool → bool;
  ListBranches : G → string → ListBranchesOptions → list string * error;
  ShowRef : G → string → string → ShowRefOptions → error;
  GetCommitCount : G → string → string → string → Z * error;
  ListWorktrees : G → string → list WorktreeInfo * error;
  DeleteBranch : G → string → string → bool → G * error
}.

(** Package-level functions of [git]. *)
Class GitPackage := {
  IsCatnipBranch : string → bool;
  GetCheckpointTimeout : Z
}.

Class SessionService (S : Type) := {
  GetPreviousTitle : S → string → string;
  UpdateSessionTitle : S → string → string → string → S * error;
  UpdatePreviousTitleCommitHash : S → string → string → S * error
}.

(** The methods of [GitService] that maintain the worktree registry. *)
Class Registry (G R : Type) := {
  RefreshWorktreeStatus : G → R → string → R * error;
  UpdateWorktreeBranchName : G → R → string → string → R * error
}.

(** [git.SessionCheckpointManager] *)
Class CheckpointManager (C : Type) := {
  NewSessionCheckpointManager : string → C;
  Reset : C → C;
  UpdateLastCommitTime : C → C
}.

(** [models.CreateCompletionRequest] and the completion client; a missing
    response is [None]. *)
Record CreateCompletionRequest := {
  Prompt : string;
  SystemPrompt : string;
  MaxTurns : Z;
  WorkingDirectory : string;
  Resume : bool
}.

Class ClaudeService := {
  CreateCompletion : CreateCompletionRequest → option string * error
}.

(** ** Environment (part_000) *)

Definition defaultWorkspaceDir : string := "/workspace".

Definition getWorkspaceDir (os : OS) : string :=
  let dir := Getenv os "CATNIP_WORKSPACE_DIR" in
  if negb (String.eqb dir "") then dir else defaultWorkspaceDir.

(** ** [isWorktreeDirectory] (claude_monitor.go) *)

Definition isWorktreeDirectory (os : OS) (dir : string) : bool :=
  if negb (strings.HasPrefix dir "/workspace/") then false
  else
    let gitDir := filepath.Join [dir; ".git"] in
    if negb (isNil (Stat os gitDir)) then false
    else true.

(** ** [getWorktreePathFromSessionFile] (claude_monitor.go) *)

Definition getWorktreePathFromSessionFile (sessionFilePath : string) : string :=
  let dir := filepath.Dir sessionFilePath in
  let projectDirName := filepath.Base dir in
  if strings.HasPrefix projectDirName "-"
  then strings.ReplaceAll (strings.dropString 1 projectDirName) "-" "/"
  else "".

(** ** The per-worktree checkpoint manager (claude_monitor.go) *)

(** A [time.Timer] created by [time.AfterFunc]: the delay it was given
    and whether it is still due to fire. *)
Record Timer := {
  timer_after : Z;
  timer_armed : bool
}.

(** [Timer.Stop] *)
Definition stopTimer (t : Timer) : Timer :=
  {| timer_after := timer_after t; timer_armed := false |}.

Record WorktreeCheckpointManager (C : Type) := {
  workDir : string;
  checkpointManager : C;
  gitService : bool;            (* false: a nil pointer *)
  currentTitle : string;
  checkpointTimer : option Timer;
  renamingInProgress : bool
}.

Arguments workDir {C} _.
Arguments checkpointManager {C} _.
Arguments gitService {C} _.
Arguments currentTitle {C} _.
Arguments checkpointTimer {C} _.
Arguments renamingInProgress {C} _.

(** What the services act on: the repositories behind the git facade,
    the session store and the worktree registry. *)
Record world (G S R : Type) := {
  git : G;
  sessions : S;
  registry : R
}.

Arguments git {G S R} _.
Arguments sessions {G S R} _.
Arguments registry {G S R} _.

Definition newline : string := String (chr 10) EmptyString.
Definition dquote : string := String (chr 34) EmptyString.
Definition backslash : string := String (chr 92) EmptyString.

(** [%v] of an error. *)
Definition errText (e : error) : string := default "<nil>" e.

(** ** Go's [strconv] package

    [Quote], which is what the verb [%q] of package [fmt] prints for a
    string, and [Atoi].  The tables that [IsPrint] consults for the
    runes above Latin-1 are not among the sources and are a parameter.

    [Atoi] is taken on a 64-bit platform.  It has a fast path for
    strings of fewer than 19 bytes, which computes what
    [ParseInt(s, 10, 0)] computes; the model follows [ParseInt] and the
    loop of [ParseUint]. *)

Module strconv.

Class PrintTables := {
  isPrintWide : Z → bool          (* [IsPrint] on the runes above [0xFF] *)
}.

Section Quoting.

Context {tables : PrintTables}.

(** [IsPrint] *)
Definition IsPrint (r : Z) : bool :=
  if r <=? 0xFF then
    if (0x20 <=? r) && (r <=? 0x7E) then true
    else if (0xA1 <=? r) && (r <=? 0xFF) then negb (r =? 0xAD)
    else false
  else isPrintWide r.

Definition lowerhex (i : Z) : ascii :=
  nth (Z.to_nat i) (list_ascii_of_string "0123456789abcdef") "0"%char.

(** The digits [lowerhex[r>>s&0xF]] for the shifts [s]. *)
Definition hexOf (r : Z) (shifts : list Z) : list ascii :=
  map (λ s, lowerhex (Z.land (Z.shiftr r s) 0xF)) shifts.

(** [appendEscapedRune] with the double quote for [quote] and with
    [ASCIIonly] and [graphicOnly] off: the bytes it appends for the rune
    [r]. *)
Definition appendEscapedRune (r : Z) : list ascii :=
  if (r =? 34) || (r =? 92) then [chr 92; chr (utf8.toByte r)]
  else if IsPrint r then utf8.AppendRune r
  else if r =? 7 then [chr 92; "a"%char]
  else if r =? 8 then [chr 92; "b"%char]
  else if r =? 12 then [chr 92; "f"%char]
  else if r =? 10 then [chr 92; "n"%char]
  else if r =? 13 then [chr 92; "r"%char]
  else if r =? 9 then [chr 92; "t"%char]
  else if r =? 11 then [chr 92; "v"%char]
  else if (r <? 32) || (r =? 0x7F) then
    [chr 92; "x"%char; lowerhex (Z.shiftr (utf8.toByte r) 4);
     lowerhex (Z.land (utf8.toByte r) 0xF)]
  else if negb (utf8.ValidRune r) then
    [chr 92; "u"%char] ++ hexOf 0xFFFD [12; 8; 4; 0]
  else if r <? 0x10000 then
    [chr 92; "u"%char] ++ hexOf r [12; 8; 4; 0]
  else
    [chr 92; "U"%char] ++ hexOf r [28; 24; 20; 16; 12; 8; 4; 0].

(** The loop of [appendQuotedWith],
    [for width := 0; len(s) > 0; s = s[width:]]; every turn takes at
    least one byte off [s], so that [fuel] need not exceed its length. *)
Fixpoint quoteLoop (fuel : nat) (s : list ascii) : list ascii :=
  match fuel with
  | O => []
  | S fuel' =>
    match s with
    | [] => []
    | c :: _ =>
      let '(r, width) :=
        if utf8.RuneSelf <=? byte c then utf8.DecodeRuneInString s
        else (byte c, 1%nat) in
      (if (width =? 1)%nat && (r =? utf8.RuneError) then
         [chr 92; "x"%char; lowerhex (Z.shiftr (byte c) 4);
          lowerhex (Z.land (byte c) 0xF)]
       else appendEscapedRune r)
      ++ quoteLoop fuel' (drop width s)
    end
  end.

(** [Quote] *)
Definition Quote (s : string) : string :=
  let bytes := list_ascii_of_string s in
  string_of_list_ascii (chr 34 :: quoteLoop (length bytes) bytes ++ [chr 34]).


Definition maxUint64 : Z := 2 ^ 64 - 1.

Inductive numError := ErrSyntax | ErrRange.

(** The loop of [ParseUint] in base 10.  [cutoff] is the smallest
    number whose tenfold exceeds [maxUint64]; the sum [n1] overflows when
    it wraps around, that is when it exceeds [maxUint64]. *)
Definition cutoff : Z := maxUint64 / 10 + 1.

Fixpoint parseUintLoop (n : Z) (s : string) : Z * option numError :=
  match s with
  | EmptyString => (n, None)
  | String c s' =>
    if (byte "0" <=? byte c) && (byte c <=? byte "9") then
      let d := byte c - byte "0" in
      if cutoff <=? n then (maxUint64, Some ErrRange)
      else
        let n := n * 10 in
        let n1 := n + d in
        if maxUint64 <? n1 then (maxUint64, Some ErrRange)
        else parseUintLoop n1 s'
    else (0, Some ErrSyntax)
  end.

Definition ParseUint (s : string) : Z * option numError :=
  match s with
  | EmptyString => (0, Some ErrSyntax)
  | _ => parseUintLoop 0 s
  end.

(** The text of a [*NumError] of [Atoi]. *)
Definition numErrorText (s : string) (e : numError) : string :=
  "strconv.Atoi: parsing " +:+ Quote s +:+ ": "
  +:+ match e with
      | ErrSyntax => "invalid syntax"
      | ErrRange => "value out of range"
      end.

Definition Atoi (s : string) : Z * error :=
  match s with
  | EmptyString => (0, Some (numErrorText s ErrSyntax))
  | String c rest =>
    let neg := Ascii.eqb c "-" in
    let digits := if Ascii.eqb c "+" || neg then rest else s in
    let '(un, err) := ParseUint digits in
    match err with
    | Some ErrSyntax => (0, Some (numErrorText s ErrSyntax))
    | _ =>
      let cutoff := 2 ^ 63 in
      if negb neg && (cutoff <=? un) then (cutoff - 1, Some (numErrorText s ErrRange))
      else if neg && (cutoff <? un) then (- cutoff, Some (numErrorText s ErrRange))
      else (if neg then - un else un, noError)
    end
  end.

End Quoting.

End strconv.

(** The tables for the examples, whose strings are ASCII: no rune above
    Latin-1 is printable. *)
Module PlainText.

#[export] Instance tables : strconv.PrintTables :=
  {| strconv.isPrintWide _ := false |}.

End PlainText.

(** The outcome of the loop that looks for a free branch name: the name
    it leaves the loop with, or the return under the safety limit.
    [OutOfFuel] is a loop cut short by the bound on its unfolding, which
    the loop started at counter 1 never is. *)
Inductive collision :=
  | Resolved (finalBranch : string)
  | TooMany
  | OutOfFuel.

Section Services.

Context {G St R C : Type}.
Context {ops : Operations G} {pkg : GitPackage} {store : SessionService St}
        {reg : Registry G R} {cps : CheckpointManager C} {llm : ClaudeService}.

Abbreviation manager := (WorktreeCheckpointManager C).
Abbreviation World := (world G St R).

Definition setGit (w : World) (g : G) : World :=
  {| git := g; sessions := sessions w; registry := registry w |}.

(** *** [GitService] (part_000) *)

Definition runGitCommand (g : G) (workingDir : string) (args : list string)
  : G * output :=
  ExecuteGit g workingDir args.

Definition branchExists (g : G) (repoPath branch : string) (isRemote : bool)
  : bool :=
  BranchExists g repoPath branch isRemote.

Definition isCatnipBranch (branchName : string) : bool :=
  IsCatnipBranch branchName.

Definition GitAddCommitGetHash (g : G) (workspaceDir message : string)
  : G * (string * error) :=
  if negb (IsGitRepository g workspaceDir) then (g, (EmptyString, noError))
  else
    let '(g, (out, err)) := runGitCommand g workspaceDir ["add"; "."] in
    if negb (isNil err) then
      (g, (EmptyString,
           Some ("git add failed: " +:+ errText err +:+ ", output: " +:+ out)))
    else
      let '(g, (_, err)) :=
        runGitCommand g workspaceDir ["diff"; "--cached"; "--quiet"] in
      if isNil err then (g, (EmptyString, noError))
      else
        let '(g, (out, err)) :=
          runGitCommand g workspaceDir ["commit"; "-m"; message; "-n"] in
        if negb (isNil err) then
          (g, (EmptyString,
               Some ("git commit failed: " +:+ errText err
                     +:+ ", output: " +:+ out)))
        else
          let '(g, (out, err)) :=
            runGitCommand g workspaceDir ["rev-parse"; "HEAD"] in
          if negb (isNil err) then
            (g, (EmptyString, Some ("git rev-parse failed: " +:+ errText err)))
          else
            let hash := strings.TrimSpace out in
            (g, (hash, noError)).

(** *** Committing the work done under a title *)

Definition commitPreviousWork (m : manager) (w : World) (title : string)
  : manager * World :=
  if negb (gitService m) then (m, w)
  else
    let '(g, (commitHash, err)) :=
      GitAddCommitGetHash (git w) (workDir m) title in
    if negb (isNil err) then (m, setGit w g)
    else if negb (String.eqb commitHash "") then
      let m := {| workDir := workDir m;
                  checkpointManager := UpdateLastCommitTime (checkpointManager m);
                  gitService := gitService m;
                  currentTitle := currentTitle m;
                  checkpointTimer := checkpointTimer m;
                  renamingInProgress := renamingInProgress m |} in
      let '(s, _) :=
        UpdatePreviousTitleCommitHash (sessions w) (workDir m) commitHash in
      let '(r, _) := RefreshWorktreeStatus g (registry w) (workDir m) in
      (m, {| git := g; sessions := s; registry := r |})
    else (m, setGit w g).

(** [Stop] cancels the pending timer and commits any pending work. *)
Definition Stop (m : manager) (w : World) : manager * World :=
  let m := {| workDir := workDir m;
              checkpointManager := checkpointManager m;
              gitService := gitService m;
              currentTitle := currentTitle m;
              checkpointTimer := stopTimer <$> checkpointTimer m;
              renamingInProgress := renamingInProgress m |} in
  if negb (String.eqb (currentTitle m) "") then
    commitPreviousWork m w (currentTitle m)
  else (m, w).

(** *** The current branch, with the detached-HEAD fallback

    Lines 428-453 of [checkAndRenameBranch], which
    [isCurrentBranchCatnip] repeats. *)
Definition currentBranchName (g : G) (workDir : string) : G * (string * error) :=
  let '(g, (out, err)) :=
    ExecuteGit g workDir ["rev-parse"; "--symbolic-full-name"; "HEAD"] in
  if negb (isNil err) then (g, (EmptyString, err))
  else
    let currentBranch := strings.TrimSpace out in
    if (String.length currentBranch =? 40)%nat
       && negb (strings.Contains currentBranch "/") then
      let '(g, (statusOutput, statusErr)) :=
        ExecuteGit g workDir ["status"; "--porcelain=v1"; "-b"] in
      if isNil statusErr then
        let statusLines :=
          strings.Split (strings.TrimSpace statusOutput) newline in
        match statusLines with
        | line0 :: _ =>
          if strings.HasPrefix line0 "## " then
            let branchInfo := strings.TrimPrefix line0 "## " in
            let dotIndex := strings.Index branchInfo "..." in
            if negb (dotIndex =? -1) then
              (g, (strings.takeString (Z.to_nat dotIndex) branchInfo, noError))
            else
              let bracketIndex := strings.Index branchInfo "[" in
              if negb (bracketIndex =? -1) then
                (g, (strings.TrimSpace
                       (strings.takeString (Z.to_nat bracketIndex) branchInfo),
                     noError))
              else (g, (branchInfo, noError))
          else (g, (currentBranch, noError))
        | [] => (g, (currentBranch, noError))
        end
      else (g, (currentBranch, noError))
    else (g, (currentBranch, noError)).

Definition isCurrentBranchCatnip (m : manager) (g : G) : G * bool :=
  let '(g, (currentBranch, err)) := currentBranchName g (workDir m) in
  if negb (isNil err) then (g, false)
  else (g, IsCatnipBranch currentBranch).

End Services.

Section Graduation.

Context {G St R C : Type}.
Context {ops : Operations G} {pkg : GitPackage} {store : SessionService St}
        {reg : Registry G R} {cps : CheckpointManager C} {llm : ClaudeService}.
Context {tables : strconv.PrintTables}.

Abbreviation manager := (WorktreeCheckpointManager C).
Abbreviation World := (world G St R).

(** *** [isValidGitBranchName] *)

Definition invalidPatterns : list string :=
  [".."; "~"; "^"; ":"; "?"; "*"; "["; backslash; " "].

Definition isValidGitBranchName (g : G) (branchName : string) : bool :=
  if (String.length branchName =? 0)%nat || (100 <? String.length branchName)%nat
  then false
  else
    let '(_, err) :=
      ExecuteCommand g "git" ["check-ref-format"; "refs/heads/" +:+ branchName] in
    if negb (isNil err) then false
    else if existsb (λ pattern, strings.Contains branchName pattern) invalidPatterns
    then false
    else if strings.HasPrefix branchName "/" || strings.HasSuffix branchName "/"
            || strings.HasPrefix branchName "." || strings.HasSuffix branchName "."
    then false
    else true.

(** *** Collision resolution

    The loop of lines 505-516, which lines 663-672 of
    [TriggerBranchRename] repeat:
    [for exists(finalBranch) || exists("refs/heads/"+finalBranch) { ... }]. *)

Definition branchTaken (g : G) (workDir finalBranch : string) : bool :=
  branchExists g workDir finalBranch false
  || branchExists g workDir ("refs/heads/" +:+ finalBranch) false.

Fixpoint collisionLoop (fuel : nat) (g : G) (workDir newBranch finalBranch : string)
    (counter : Z) : collision :=
  match fuel with
  | O => OutOfFuel
  | S fuel' =>
    if branchTaken g workDir finalBranch then
      let finalBranch := newBranch +:+ "-" +:+ itoa counter in
      let counter := counter + 1 in
      if 100 <? counter then TooMany
      else collisionLoop fuel' g workDir newBranch finalBranch counter
    else Resolved finalBranch
  end.

(** [finalBranch := newBranch; counter := 1; for ...] *)
Definition resolveCollision (g : G) (workDir newBranch : string) : collision :=
  collisionLoop 101 g workDir newBranch newBranch 1.

(** *** [renameBranch] *)

Definition renameBranch (m : manager) (w : World) (oldBranchName newBranchName : string)
  : World * error :=
  let '(g, (_, err)) :=
    ExecuteGit (git w) (workDir m) ["checkout"; "-b"; newBranchName] in
  if negb (isNil err) then
    (setGit w g,
     Some ("failed to create and checkout new branch "
           +:+ strconv.Quote newBranchName
           +:+ ": " +:+ errText err))
  else
    let '(g, _) := DeleteBranch g (workDir m) oldBranchName true in
    let '(r, _) := UpdateWorktreeBranchName g (registry w) (workDir m) newBranchName in
    ({| git := g; sessions := sessions w; registry := r |}, noError).

(** *** [checkAndRenameBranch] *)

Definition branchNamePrompt (cleanedTitle : string) : string :=
  "Based on this coding session title: " +:+ dquote +:+ cleanedTitle +:+ dquote
  +:+ newline
  +:+ newline
  +:+ "Generate a git branch name that:" +:+ newline
  +:+ "1. Follows conventional patterns like: feature/add-auth, chore/update-deps, refactor/cleanup-api, bug/fix-login, docs/update-readme" +:+ newline
  +:+ "2. Uses only lowercase letters, numbers, hyphens, and forward slashes" +:+ newline
  +:+ "3. Is concise but descriptive (max 60 characters)" +:+ newline
  +:+ "4. Common prefixes: feature, chore, refactor, bug, docs, test, style, perf, fix" +:+ newline
  +:+ newline
  +:+ "Respond with ONLY the branch name, nothing else.".

Definition branchNameSystemPrompt : string :=
  "You are a helpful assistant that generates git branch names. Respond only with the branch name, no explanation or additional text.".

(** The deferred function: clear the latch. *)
Definition clearRenaming (m : manager) : manager :=
  {| workDir := workDir m;
     checkpointManager := checkpointManager m;
     gitService := gitService m;
     currentTitle := currentTitle m;
     checkpointTimer := checkpointTimer m;
     renamingInProgress := false |}.

Definition checkAndRenameBranch (m : manager) (w : World) (title : string)
  : manager * World :=
  let cleanedTitle := cleanTitle title in
  if String.eqb cleanedTitle "" then (m, w)
  else
    let '(g, (currentBranch, err)) := currentBranchName (git w) (workDir m) in
    let w := setGit w g in
    if negb (isNil err) then (clearRenaming m, w)
    else if negb (IsCatnipBranch currentBranch) then (clearRenaming m, w)
    else
      let req := {| Prompt := branchNamePrompt cleanedTitle;
                    SystemPrompt := branchNameSystemPrompt;
                    MaxTurns := 1;
                    WorkingDirectory := workDir m;
                    Resume := true |} in
      let '(response, err) := CreateCompletion req in
      if negb (isNil err) then (clearRenaming m, w)
      else match response with
      | None => (clearRenaming m, w)
      | Some text =>
        if String.eqb text "" then (clearRenaming m, w)
        else
          let newBranch := strings.TrimSpace text in
          if negb (isValidGitBranchName g newBranch) then (clearRenaming m, w)
          else match resolveCollision g (workDir m) newBranch with
          | Resolved finalBranch =>
            let newBranch := finalBranch in
            if branchTaken g (workDir m) newBranch then (clearRenaming m, w)
            else
              let '(w, _) := renameBranch m w currentBranch newBranch in
              (clearRenaming m, w)
          | TooMany => (clearRenaming m, w)
          | OutOfFuel => (clearRenaming m, w)
          end
      end.

(** *** [HandleTitleChange] *)

Definition startCheckpointTimer (m : manager) : manager :=
  let timeout := GetCheckpointTimeout in
  {| workDir := workDir m;
     checkpointManager := checkpointManager m;
     gitService := gitService m;
     currentTitle := currentTitle m;
     checkpointTimer := Some {| timer_after := timeout; timer_armed := true |};
     renamingInProgress := renamingInProgress m |}.

(** Besides the manager and the world, the result names the title with
    which [checkAndRenameBranch] has been started as a goroutine, if it
    has. *)
Definition HandleTitleChange (m : manager) (w : World) (newTitle : string)
  : manager * World * option string :=
  let previousTitle := GetPreviousTitle (sessions w) (workDir m) in
  let '(m, w) :=
    if negb (String.eqb previousTitle "") && negb (String.eqb previousTitle newTitle)
    then commitPreviousWork m w previousTitle
    else (m, w) in
  let '(s, _) := UpdateSessionTitle (sessions w) (workDir m) newTitle "" in
  let w := {| git := git w; sessions := s; registry := registry w |} in
  let m := {| workDir := workDir m;
              checkpointManager := Reset (checkpointManager m);
              gitService := gitService m;
              currentTitle := newTitle;
              checkpointTimer := stopTimer <$> checkpointTimer m;
              renamingInProgress := renamingInProgress m |} in
  let '(m, w, started) :=
    if negb (renamingInProgress m) && negb (String.eqb (currentTitle m) "") then
      let '(g, catnip) := isCurrentBranchCatnip m (git w) in
      let w := setGit w g in
      if catnip then
        ({| workDir := workDir m;
            checkpointManager := checkpointManager m;
            gitService := gitService m;
            currentTitle := currentTitle m;
            checkpointTimer := checkpointTimer m;
            renamingInProgress := true |}, w, Some newTitle)
      else (m, w, None)
    else (m, w, None) in
  (startCheckpointTimer m, w, started).

End Graduation.

(** ** The monitor service (claude_monitor.go) *)

Record ClaudeMonitorService (C : Type) := {
  monitor_gitService : bool;    (* false: a nil pointer *)
  checkpointManagers : gmap string (WorktreeCheckpointManager C);
  recentTitles : gmap string titleEvent
}.

Arguments monitor_gitService {C} _.
Arguments checkpointManagers {C} _.
Arguments recentTitles {C} _.

Section Monitor.

Context {G St R C : Type}.
Context {ops : Operations G} {pkg : GitPackage} {store : SessionService St}
        {reg : Registry G R} {cps : CheckpointManager C} {llm : ClaudeService}.
Context {tables : strconv.PrintTables}.

Abbreviation manager := (WorktreeCheckpointManager C).
Abbreviation monitor := (ClaudeMonitorService C).
Abbreviation World := (world G St R).

Definition createCheckpointManager (s : monitor) (workDir : string) : manager :=
  {| workDir := workDir;
     checkpointManager := NewSessionCheckpointManager workDir;
     gitService := monitor_gitService s;
     currentTitle := EmptyString;
     checkpointTimer := None;
     renamingInProgress := false |}.

(** Lines 267-275 of [handleTitleChange]: the section guarded by
    [managersMutex].  The result is the map, the manager for [workDir]
    and whether that manager has just been created. *)
Definition obtainManager (s : monitor) (workDir : string)
  : gmap string manager * manager * bool :=
  match checkpointManagers s !! workDir with
  | Some manager => (checkpointManagers s, manager, false)
  | None =>
    let manager := createCheckpointManager s workDir in
    (<[workDir := manager]> (checkpointManagers s), manager, true)
  end.

(** The monitor with the manager stored under [workDir] replaced by its
    state after a call: the map holds a pointer to the manager, so what
    the call does to the manager is seen through the map. *)
Definition storeManager (s : monitor) (managers : gmap string manager)
    (workDir : string) (m : manager) : monitor :=
  {| monitor_gitService := monitor_gitService s;
     checkpointManagers := <[workDir := m]> managers;
     recentTitles := recentTitles s |}.

Definition setRecentTitles (s : monitor) (recent : gmap string titleEvent) : monitor :=
  {| monitor_gitService := monitor_gitService s;
     checkpointManagers := checkpointManagers s;
     recentTitles := recent |}.

(** [handleTitleChange]; the last component of the result names the
    worktree and title of the renaming goroutine the manager has
    started, if any. *)
Definition handleTitleChange (s : monitor) (w : World)
    (workDir newTitle source : string) (clk : clock)
  : monitor * World * option (string * string) :=
  let '(recent, forwarded) :=
    recordTitle (recentTitles s) workDir newTitle source clk in
  let s := setRecentTitles s recent in
  if negb forwarded then (s, w, None)
  else
    let '(managers, manager, _) := obtainManager s workDir in
    let '(manager, w, started) := HandleTitleChange manager w newTitle in
    (storeManager s managers workDir manager, w,
     (λ t, (workDir, t)) <$> started).

Definition NotifyTitleChange (os : OS) (s : monitor) (w : World)
    (workDir newTitle : string) (clk : clock)
  : monitor * World * option (string * string) :=
  if isWorktreeDirectory os workDir then
    let cleanedTitle := cleanTitle newTitle in
    if negb (String.eqb cleanedTitle "") then
      handleTitleChange s w workDir cleanedTitle "pty" clk
    else (s, w, None)
  else (s, w, None).

(** The body of the scanning loop of [readTitlesLog], for one line. *)
Definition readTitlesLogLine (os : OS) (s : monitor) (w : World)
    (line : string) (clk : clock)
  : monitor * World * option (string * string) :=
  if String.eqb line "" then (s, w, None)
  else
    match strings.Split line "|" with
    | [_timestamp; _pid; cwd; title] =>
      if isWorktreeDirectory os cwd then
        let cleanedTitle := cleanTitle title in
        if negb (String.eqb cleanedTitle "") then
          handleTitleChange s w cwd cleanedTitle "log" clk
        else (s, w, None)
      else (s, w, None)
    | _ => (s, w, None)
    end.

(** [ClaudeMonitorService.Stop]: every manager is stopped and removed. *)
Definition stopMonitor (s : monitor) (w : World) : monitor * World :=
  let w := map_fold (λ _ m w, (Stop m w).2) w (checkpointManagers s) in
  ({| monitor_gitService := monitor_gitService s;
      checkpointManagers := ∅;
      recentTitles := recentTitles s |}, w).

(** [TriggerBranchRename]; the last component of the result is the
    title handed to the [checkAndRenameBranch] goroutine, if one is
    started. *)
Definition TriggerBranchRename (s : monitor) (w : World)
    (workDir customBranchName : string)
  : World * error * option string :=
  match checkpointManagers s !! workDir with
  | None =>
    (w, Some ("no checkpoint manager found for worktree: " +:+ workDir), None)
  | Some manager =>
    let '(g, (out, err)) :=
      ExecuteGit (git w) workDir ["rev-parse"; "--symbolic-full-name"; "HEAD"] in
    let w := setGit w g in
    if negb (isNil err) then
      (w, Some ("failed to get current branch name: " +:+ errText err), None)
    else
      let currentBranch := strings.TrimSpace out in
      if negb (String.eqb customBranchName "") then
        if negb (isValidGitBranchName g customBranchName) then
          (w, Some ("invalid branch name: " +:+ strconv.Quote customBranchName),
           None)
        else
          match resolveCollision g workDir customBranchName with
          | Resolved finalBranch =>
            let customBranchName := finalBranch in
            let '(w, err) := renameBranch manager w currentBranch customBranchName in
            if negb (isNil err) then
              (w, Some ("failed to rename branch: " +:+ errText err), None)
            else (w, noError, None)
          | TooMany =>
            (w, Some ("too many similar branches exist for "
                      +:+ strconv.Quote customBranchName), None)
          | OutOfFuel => (w, Some "out of fuel", None)
          end
      else
        let currentTitle := currentTitle manager in
        if String.eqb currentTitle "" then
          (w, Some "no title available for Claude-based naming. Please specify a custom branch name or use Claude to set a title first", None)
        else (w, noError, Some currentTitle)
  end.

End Monitor.

(** ** Startup branch cleanup (part_000) *)

(** [models.Repository], as far as the cleanup reads it. *)
Record Repository := {
  repo_ID : string;
  repo_Path : string
}.

(** One call of [DeleteBranch] made by the cleanup: the repositories as
    they were when it was made, its arguments and its result. *)
Record deletion (G : Type) := {
  del_before : G;
  del_repoPath : string;
  del_branch : string;
  del_err : error
}.

Arguments del_before {G} _.
Arguments del_repoPath {G} _.
Arguments del_branch {G} _.
Arguments del_err {G} _.

Section Cleanup.

Context {G : Type}.
Context {ops : Operations G} {pkg : GitPackage}.

(** Lines 75-79: the branch name as listed, without its markers. *)
Definition cleanBranchName (branch : string) : string :=
  let branchName := strings.TrimSpace branch in
  let branchName := strings.TrimPrefix branchName "*" in
  let branchName := strings.TrimPrefix branchName "+" in
  let branchName := strings.TrimSpace branchName in
  let branchName := strings.TrimPrefix branchName "remotes/origin/" in
  branchName.

(** Lines 88-94: the first of [main], [master] that [ShowRef] verifies;
    empty when neither does. *)
Fixpoint findBaseRef (g : G) (repoPath : string) (refs : list string) : string :=
  match refs with
  | [] => EmptyString
  | ref :: refs' =>
    if isNil (ShowRef g repoPath ref {| Verify := true; Quiet := true |})
    then ref
    else findBaseRef g repoPath refs'
  end.

(** The body of the loop over the branches of one repository (lines
    73-132).  [calls] collects the calls of [DeleteBranch]. *)
Definition cleanupBranch (repo : Repository) (st : G * list (deletion G))
    (branch : string) : G * list (deletion G) :=
  let '(g, calls) := st in
  let branchName := cleanBranchName branch in
  if negb (isCatnipBranch branchName) then st
  else
    let baseRef := findBaseRef g (repo_Path repo) ["main"; "master"] in
    if String.eqb baseRef "" then st
    else if negb (BranchExists g (repo_Path repo) branchName false) then st
    else
      let '(commitCount, err) :=
        GetCommitCount g (repo_Path repo) baseRef branchName in
      if negb (isNil err) || (0 <? commitCount) then st
      else
        let '(worktrees, err) := ListWorktrees g (repo_Path repo) in
        let skipBranch :=
          if isNil err
          then existsb (λ wt, String.eqb (wt_Branch wt) branchName) worktrees
          else false in
        if skipBranch then st
        else
          let '(g', err) := DeleteBranch g (repo_Path repo) branchName true in
          (g', calls ++ [{| del_before := g;
                            del_repoPath := repo_Path repo;
                            del_branch := branchName;
                            del_err := err |}]).

(** The body of the loop over the repositories (lines 64-137). *)
Definition cleanupRepository (st : G * list (deletion G)) (repo : Repository)
  : G * list (deletion G) :=
  let '(g, _) := st in
  let '(branches, err) := ListBranches g (repo_Path repo) {| All := true |} in
  if negb (isNil err) then st
  else fold_left (cleanupBranch repo) branches st.

Definition cleanupRepositories (g : G) (repos : list Repository)
  : G * list (deletion G) :=
  fold_left cleanupRepository repos (g, []).

(** [cleanupUnusedBranches]: the repositories are taken from the map in
    the order its iteration gives. *)
Definition cleanupUnusedBranches (repositories : gmap string Repository) (g : G)
  : G * list (deletion G) :=
  cleanupRepositories g (snd <$> map_to_list repositories).

End Cleanup.

(** ** The interleaving of concurrent [handleTitleChange] calls

    A call passes through three critical sections in turn: the
    recent-title table (under [recentTitlesMutex]), the manager map
    (under [managersMutex]) and the manager itself (under its
    [timerMutex]).  Each section is atomic; a schedule says which call
    runs its next section. *)

Inductive stage :=
  | AtRecentTitles
  | AtManagers
  | AtManager
  | Returned.

Record titleCall := {
  call_workDir : string;
  call_title : string;
  call_source : string;
  call_clock : clock;
  call_stage : stage
}.

Definition atStage (c : titleCall) (st : stage) : titleCall :=
  {| call_workDir := call_workDir c;
     call_title := call_title c;
     call_source := call_source c;
     call_clock := call_clock c;
     call_stage := st |}.

Record system (G St R C : Type) := {
  sys_monitor : ClaudeMonitorService C;
  sys_world : world G St R;
  sys_calls : list titleCall;
  sys_created : list string;                (* worktrees a manager was created for *)
  sys_started : list (string * string)      (* renaming goroutines started *)
}.

Arguments sys_monitor {G St R C} _.
Arguments sys_world {G St R C} _.
Arguments sys_calls {G St R C} _.
Arguments sys_created {G St R C} _.
Arguments sys_started {G St R C} _.

Section Interleaving.

Context {G St R C : Type}.
Context {ops : Operations G} {pkg : GitPackage} {store : SessionService St}
        {reg : Registry G R} {cps : CheckpointManager C} {llm : ClaudeService}.

Abbreviation System := (system G St R C).

(** Call [i] runs its next critical section. *)
Definition stepCall (sys : System) (i : nat) : System :=
  match sys_calls sys !! i with
  | None => sys
  | Some c =>
    let s := sys_monitor sys in
    match call_stage c with
    | AtRecentTitles =>
      let '(recent, forwarded) :=
        recordTitle (recentTitles s) (call_workDir c) (call_title c)
                    (call_source c) (call_clock c) in
      {| sys_monitor := setRecentTitles s recent;
         sys_world := sys_world sys;
         sys_calls :=
           <[i := atStage c (if forwarded then AtManagers else Returned)]>
             (sys_calls sys);
         sys_created := sys_created sys;
         sys_started := sys_started sys |}
    | AtManagers =>
      let '(managers, _, created) := obtainManager s (call_workDir c) in
      {| sys_monitor := {| monitor_gitService := monitor_gitService s;
                           checkpointManagers := managers;
                           recentTitles := recentTitles s |};
         sys_world := sys_world sys;
         sys_calls := <[i := atStage c AtManager]> (sys_calls sys);
         sys_created :=
           if created then sys_created sys ++ [call_workDir c]
           else sys_created sys;
         sys_started := sys_started sys |}
    | AtManager =>
      match checkpointManagers s !! call_workDir c with
      | Some m =>
        let '(m, w, started) := HandleTitleChange m (sys_world sys) (call_title c) in
        {| sys_monitor := storeManager s (checkpointManagers s) (call_workDir c) m;
           sys_world := w;
           sys_calls := <[i := atStage c Returned]> (sys_calls sys);
           sys_created := sys_created sys;
           sys_started :=
             match started with
             | Some t => sys_started sys ++ [(call_workDir c, t)]
             | None => sys_started sys
             end |}
      | None =>
        {| sys_monitor := s;
           sys_world := sys_world sys;
           sys_calls := <[i := atStage c Returned]> (sys_calls sys);
           sys_created := sys_created sys;
           sys_started := sys_started sys |}
      end
    | Returned => sys
    end
  end.

Definition runSchedule (sys : System) (schedule : list nat) : System :=
  fold_left stepCall schedule sys.

End Interleaving.

(** ** An in-memory git, session store and registry

    Instances of the interfaces above, for running the services on
    concrete inputs and for the claims that speak of commits and of a
    dirty working tree. *)

Module Sim.

(** Modelled from the spec: the Git Operations Facade of section 4.A
    (package [git] is not among the sources), backed by a small git.
    Every directory holds its own refs; a commit keeps its message and
    whether it was made with [-n], which skips the commit hooks. *)
Record Commit := {
  commit_hash : string;
  commit_message : string;
  commit_noVerify : bool
}.

Record Tree := {
  tree_HEAD : string;                       (* the full name of the ref HEAD points to *)
  tree_refs : gmap string (list Commit);    (* ref name to its commits, newest first *)
  tree_unstaged : bool;                     (* changes that [git add .] would stage *)
  tree_staged : bool;                       (* changes in the index *)
  tree_hookRejects : bool;                  (* a commit hook that refuses every commit *)
  tree_worktrees : list WorktreeInfo
}.

Record Git := {
  trees : gmap string Tree;
  failing : list (list string)              (* commands made to fail *)
}.

Definition dirty (t : Tree) : bool := tree_unstaged t || tree_staged t.

Definition headCommits (t : Tree) : list Commit :=
  default [] (tree_refs t !! tree_HEAD t).

(** A 40-digit object name for the commit that follows [n] others. *)
Definition hexDigit (z : Z) : ascii :=
  nth (Z.to_nat (z mod 16))
      ["0"; "1"; "2"; "3"; "4"; "5"; "6"; "7";
       "8"; "9"; "a"; "b"; "c"; "d"; "e"; "f"]%char "0"%char.

Fixpoint hexDigits (width : nat) (z : Z) : string :=
  match width with
  | O => EmptyString
  | S width' => String (hexDigit (z / 16 ^ Z.of_nat width')) (hexDigits width' z)
  end.

Definition objectName (n : nat) : string := hexDigits 40 (Z.of_nat (S n)).

Definition setTree (g : Git) (dir : string) (t : Tree) : Git :=
  {| trees := <[dir := t]> (trees g); failing := failing g |}.

Definition fails (g : Git) (args : list string) : bool :=
  bool_decide (args ∈ failing g).

Definition commit (t : Tree) (message : string) (noVerify : bool) : Tree :=
  let c := {| commit_hash := objectName (length (headCommits t));
              commit_message := message;
              commit_noVerify := noVerify |} in
  {| tree_HEAD := tree_HEAD t;
     tree_refs := <[tree_HEAD t := c :: headCommits t]> (tree_refs t);
     tree_unstaged := tree_unstaged t;
     tree_staged := false;
     tree_hookRejects := tree_hookRejects t;
     tree_worktrees := tree_worktrees t |}.

Definition stageAll (t : Tree) : Tree :=
  {| tree_HEAD := tree_HEAD t;
     tree_refs := tree_refs t;
     tree_unstaged := false;
     tree_staged := tree_staged t || tree_unstaged t;
     tree_hookRejects := tree_hookRejects t;
     tree_worktrees := tree_worktrees t |}.

Definition checkoutNew (t : Tree) (name : string) : Tree :=
  {| tree_HEAD := "refs/heads/" +:+ name;
     tree_refs := <["refs/heads/" +:+ name := headCommits t]> (tree_refs t);
     tree_unstaged := tree_unstaged t;
     tree_staged := tree_staged t;
     tree_hookRejects := tree_hookRejects t;
     tree_worktrees := tree_worktrees t |}.

Definition shortName (ref : string) : string :=
  strings.TrimPrefix ref "refs/heads/".

Definition run (t : Tree) (args : list string) : Tree * output :=
  match args with
  | ["add"; "."] => (stageAll t, (EmptyString, noError))
  | ["diff"; "--cached"; "--quiet"] =>
    (t, (EmptyString, if tree_staged t then Some "exit status 1" else noError))
  | ["commit"; "-m"; message; "-n"] =>
    if tree_staged t then (commit t message true, (EmptyString, noError))
    else (t, ("nothing to commit", Some "exit status 1"))
  | ["commit"; "-m"; message] =>
    if negb (tree_staged t) then (t, ("nothing to commit", Some "exit status 1"))
    else if tree_hookRejects t then (t, ("rejected by hook", Some "exit status 1"))
    else (commit t message false, (EmptyString, noError))
  | ["rev-parse"; "HEAD"] =>
    match headCommits t with
    | c :: _ => (t, (commit_hash c +:+ newline, noError))
    | [] => (t, (EmptyString, Some "exit status 128"))
    end
  | ["rev-parse"; "--symbolic-full-name"; "HEAD"] =>
    (t, (tree_HEAD t +:+ newline, noError))
  | ["status"; "--porcelain=v1"; "-b"] =>
    (t, ("## " +:+ shortName (tree_HEAD t) +:+ newline, noError))
  | ["checkout"; "-b"; name] =>
    match tree_refs t !! ("refs/heads/" +:+ name) with
    | Some _ => (t, ("already exists", Some "exit status 128"))
    | None => (checkoutNew t name, (EmptyString, noError))
    end
  | _ => (t, (EmptyString, Some "unsupported command"))
  end.

Definition executeGit (g : Git) (dir : string) (args : list string) : Git * output :=
  match trees g !! dir with
  | None => (g, (EmptyString, Some "not a git repository"))
  | Some t =>
    if fails g args then (g, (EmptyString, Some "exit status 1"))
    else let '(t, out) := run t args in (setTree g dir t, out)
  end.

(** The rules of [git check-ref-format] for a full ref name. *)
Definition badRefChar (c : ascii) : bool :=
  (byte c <? 0x20) || (byte c =? 0x7F)
  || existsb (Ascii.eqb c) [" "; "~"; "^"; ":"; "?"; "*"; "["; chr 92]%char.

Definition refFormatOK (ref : string) : bool :=
  let parts := filepath.elements EmptyString ref in
  (2 <=? length parts)%nat
  && forallb (λ p, negb (String.eqb p "") && negb (strings.HasPrefix p ".")
                   && negb (strings.HasSuffix p ".lock")) parts
  && negb (strings.Contains ref "..")
  && negb (strings.Contains ref "@{")
  && negb (existsb badRefChar (list_ascii_of_string ref))
  && negb (strings.HasSuffix ref ".").

Definition executeCommand (g : Git) (command : string) (args : list string) : output :=
  match command, args with
  | "git", ["check-ref-format"; ref] =>
    if refFormatOK ref then (EmptyString, noError)
    else (EmptyString, Some "exit status 1")
  | _, _ => (EmptyString, Some "unsupported command")
  end.

Definition refsOf (g : Git) (dir : string) : gmap string (list Commit) :=
  match trees g !! dir with
  | Some t => tree_refs t
  | None => ∅
  end.

Definition branchExists (g : Git) (dir branch : string) (isRemote : bool) : bool :=
  let ref := if isRemote then "refs/remotes/origin/" +:+ branch
             else "refs/heads/" +:+ branch in
  bool_decide (is_Some (refsOf g dir !! ref)).

Definition listBranches (g : Git) (dir : string) (opts : ListBranchesOptions)
  : list string * error :=
  match trees g !! dir with
  | None => ([], Some "not a git repository")
  | Some t =>
    (omap (λ kv, let ref := kv.1 in
                 if strings.HasPrefix ref "refs/heads/" then
                   Some ((if String.eqb ref (tree_HEAD t) then "* " else "  ")
                         +:+ shortName ref)
                 else if All opts && strings.HasPrefix ref "refs/remotes/" then
                   Some ("  " +:+ strings.TrimPrefix ref "refs/")
                 else None)
          (map_to_list (tree_refs t)), noError)
  end.

Definition showRef (g : Git) (dir ref : string) (opts : ShowRefOptions) : error :=
  if bool_decide (is_Some (refsOf g dir !! ref))
     || bool_decide (is_Some (refsOf g dir !! ("refs/heads/" +:+ ref)))
  then noError else Some "exit status 1".

Definition getCommitCount (g : Git) (dir base branch : string) : Z * error :=
  match refsOf g dir !! ("refs/heads/" +:+ base),
        refsOf g dir !! ("refs/heads/" +:+ branch) with
  | Some bs, Some cs =>
    (Z.of_nat (length (filter (λ c, commit_hash c ∉ commit_hash <$> bs) cs)), noError)
  | _, _ => (0, Some "exit status 128")
  end.

Definition listWorktrees (g : Git) (dir : string) : list WorktreeInfo * error :=
  match trees g !! dir with
  | None => ([], Some "not a git repository")
  | Some t => (tree_worktrees t, noError)
  end.

Definition deleteBranch (g : Git) (dir branch : string) (force : bool) : Git * error :=
  match trees g !! dir with
  | None => (g, Some "not a git repository")
  | Some t =>
    match tree_refs t !! ("refs/heads/" +:+ branch) with
    | None => (g, Some "branch not found")
    | Some _ =>
      (setTree g dir {| tree_HEAD := tree_HEAD t;
                        tree_refs := delete ("refs/heads/" +:+ branch) (tree_refs t);
                        tree_unstaged := tree_unstaged t;
                        tree_staged := tree_staged t;
                        tree_hookRejects := tree_hookRejects t;
                        tree_worktrees := tree_worktrees t |}, noError)
    end
  end.

#[export] Instance operations : Operations Git := {|
  IsGitRepository g dir := bool_decide (is_Some (trees g !! dir));
  ExecuteGit := executeGit;
  ExecuteCommand := executeCommand;
  BranchExists := branchExists;
  ListBranches := listBranches;
  ShowRef := showRef;
  GetCommitCount := getCommitCount;
  ListWorktrees := listWorktrees;
  DeleteBranch := deleteBranch
|}.

(** Modelled from the spec: the scratch-branch predicate of the
    glossary, a name beginning with the scratch prefix, and the
    checkpoint debounce interval, here thirty seconds. *)
#[export] Instance gitPackage : GitPackage := {|
  IsCatnipBranch name :=
    strings.HasPrefix name "catnip/" || strings.HasPrefix name "refs/catnip/";
  GetCheckpointTimeout := 30 * time.Second
|}.

(** Modelled from the spec: the Session Store of section 4.C, a
    per-worktree sequence of titles with their commit hashes, latest
    first. *)
Record Entry := {
  entry_title : string;
  entry_hash : string
}.

Definition Sessions : Type := gmap string (list Entry).

Definition getPreviousTitle (s : Sessions) (dir : string) : string :=
  match s !! dir with
  | Some (e :: _) => entry_title e
  | _ => EmptyString
  end.

Definition updateSessionTitle (s : Sessions) (dir title hash : string)
  : Sessions * error :=
  let entries := default [] (s !! dir) in
  match entries with
  | e :: rest =>
    if String.eqb (entry_title e) title then
      (<[dir := {| entry_title := title;
                   entry_hash := if String.eqb hash "" then entry_hash e else hash |}
                :: rest]> s, noError)
    else (<[dir := {| entry_title := title; entry_hash := hash |} :: entries]> s, noError)
  | [] => (<[dir := [{| entry_title := title; entry_hash := hash |}]]> s, noError)
  end.

Definition updatePreviousTitleCommitHash (s : Sessions) (dir hash : string)
  : Sessions * error :=
  match s !! dir with
  | Some (e :: rest) =>
    (<[dir := {| entry_title := entry_title e; entry_hash := hash |} :: rest]> s, noError)
  | _ => (s, Some "no session")
  end.

#[export] Instance sessionService : SessionService Sessions := {|
  GetPreviousTitle := getPreviousTitle;
  UpdateSessionTitle := updateSessionTitle;
  UpdatePreviousTitleCommitHash := updatePreviousTitleCommitHash
|}.

(** Modelled from the spec: the Worktree Registry of section 4.B, as
    far as the checkpoint engine writes it: per worktree path, the
    branch name and the commit count shown to the UI. *)
Record Status := {
  status_branch : string;
  status_commits : nat
}.

Definition Registry_ : Type := gmap string Status.

Definition refreshWorktreeStatus (g : Git) (r : Registry_) (dir : string)
  : Registry_ * error :=
  match trees g !! dir, r !! dir with
  | Some t, Some st =>
    (<[dir := {| status_branch := status_branch st;
                 status_commits := length (headCommits t) |}]> r, noError)
  | _, _ => (r, Some "worktree not found")
  end.

Definition updateWorktreeBranchName (g : Git) (r : Registry_) (dir name : string)
  : Registry_ * error :=
  match r !! dir with
  | Some st =>
    (<[dir := {| status_branch := name; status_commits := status_commits st |}]> r, noError)
  | None => (r, Some "worktree not found")
  end.

#[export] Instance registry_ : Registry Git Registry_ := {|
  RefreshWorktreeStatus := refreshWorktreeStatus;
  UpdateWorktreeBranchName := updateWorktreeBranchName
|}.

(** Modelled from the spec: the clock of [git.SessionCheckpointManager],
    kept as the number of resets and of recorded commits. *)
Record Checkpoints := {
  cp_workDir : string;
  cp_resets : nat;
  cp_commits : nat
}.

#[export] Instance checkpoints : CheckpointManager Checkpoints := {|
  NewSessionCheckpointManager dir :=
    {| cp_workDir := dir; cp_resets := 0; cp_commits := 0 |};
  Reset c :=
    {| cp_workDir := cp_workDir c; cp_resets := S (cp_resets c);
       cp_commits := cp_commits c |};
  UpdateLastCommitTime c :=
    {| cp_workDir := cp_workDir c; cp_resets := cp_resets c;
       cp_commits := S (cp_commits c) |}
|}.

(** A completion client that always suggests the same name. *)
Definition suggesting (name : string) : ClaudeService :=
  {| CreateCompletion _ := (Some name, noError) |}.

End Sim.

(** ** The names the collision loop tries

    [variant name 0] is the name itself and [variant name k] is
    [<name>-<k>]. *)
Definition variant (newBranch : string) (k : Z) : string :=
  if k =? 0 then newBranch else newBranch +:+ "-" +:+ itoa k.

(** What the collision loop has settled when it stops: the name it
    returns is the first free one among the variants 0 to 99, or all of
    these are taken; it does not run out of fuel. *)
Definition settled {G : Type} {ops : Operations G} (g : G) (workDir newBranch : string)
    (r : collision) : Prop :=
  match r with
  | Resolved finalBranch =>
    ∃ k, 0 <= k <= 99 ∧ finalBranch = variant newBranch k
         ∧ branchTaken g workDir finalBranch = false
         ∧ ∀ j, 0 <= j < k → branchTaken g workDir (variant newBranch j) = true
  | TooMany =>
    ∀ k, 0 <= k <= 99 → branchTaken g workDir (variant newBranch k) = true
  | OutOfFuel => False
  end.

(** ** Concrete inputs

    The worktree of the specification's scenarios,
    [/workspace/foo/alpha] on the scratch branch [lively-otter], in the
    in-memory git. *)

Module Scenario.

Import Sim.

Definition alpha : string := "/workspace/foo/alpha".

Definition otter : string := "refs/catnip/lively-otter".

Definition treeWith (refs : gmap string (list Commit)) (unstaged : bool) : Tree :=
  {| tree_HEAD := otter;
     tree_refs := <[otter := []]> refs;
     tree_unstaged := unstaged;
     tree_staged := false;
     tree_hookRejects := true;
     tree_worktrees := [{| wt_Path := alpha; wt_Branch := otter |}] |}.

Definition gitWith (refs : gmap string (list Commit)) (unstaged : bool) : Git :=
  {| trees := {[ alpha := treeWith refs unstaged ]}; failing := [] |}.

Definition worldWith (g : Git) : world Git Sessions Registry_ :=
  {| git := g;
     sessions := {[ alpha := [{| entry_title := "Draft docs"; entry_hash := "" |}] ]};
     registry := {[ alpha := {| status_branch := otter; status_commits := 0 |} ]} |}.

(** A manager with a current title and a pending timer. *)
Definition drafting : WorktreeCheckpointManager Checkpoints :=
  {| workDir := alpha;
     checkpointManager := NewSessionCheckpointManager alpha;
     gitService := true;
     currentTitle := "Draft docs";
     checkpointTimer := Some {| timer_after := 30 * time.Second; timer_armed := true |};
     renamingInProgress := false |}.

Definition monitoring : ClaudeMonitorService Checkpoints :=
  {| monitor_gitService := true;
     checkpointManagers := {[ alpha := drafting ]};
     recentTitles := ∅ |}.

(** The repository of the scenario, its tree dirty, with some git
    commands made to fail. *)
Definition gitFailing (commands : list (list string)) : Git :=
  {| trees := {[ alpha := treeWith ∅ true ]}; failing := commands |}.

(** The manager of a monitor that was given no git service. *)
Definition unserviced : WorktreeCheckpointManager Checkpoints :=
  {| workDir := alpha;
     checkpointManager := NewSessionCheckpointManager alpha;
     gitService := false;
     currentTitle := "Draft docs";
     checkpointTimer := Some {| timer_after := 30 * time.Second; timer_armed := true |};
     renamingInProgress := false |}.

(** Repositories in which the variants 0 to [n - 1] of a name are taken. *)
Definition takenUpTo (name : string) (n : Z) : gmap string (list Commit) :=
  list_to_map ((λ k, ("refs/heads/" +:+ variant name k, [])) <$> seqZ 0 n).

Definition loginFlow : string := "feature/login-flow".

End Scenario.

(** ** When the cleanup may delete a branch

    The conditions under which [cleanupUnusedBranches] calls
    [DeleteBranch], read in the repositories [g] as they are at the
    call: the name satisfies the scratch-branch predicate; one of [main],
    [master] verifies as a ref, and against the first that does the
    branch, which exists locally, is not ahead by any commit; and no
    worktree that [ListWorktrees] lists has it checked out. *)
Definition safeToDelete {G : Type} {ops : Operations G} {pkg : GitPackage}
    (g : G) (repoPath branchName : string) : Prop :=
  isCatnipBranch branchName = true
  ∧ (∃ baseRef commitCount,
       baseRef = findBaseRef g repoPath ["main"; "master"]
       ∧ (baseRef = "main" ∨ baseRef = "master")
       ∧ ShowRef g repoPath baseRef {| Verify := true; Quiet := true |} = noError
       ∧ GetCommitCount g repoPath baseRef branchName = (commitCount, noError)
       ∧ commitCount <= 0)
  ∧ BranchExists g repoPath branchName false = true
  ∧ (∀ worktrees,
       ListWorktrees g repoPath = (worktrees, noError) →
       ∀ wt, wt ∈ worktrees → wt_Branch wt ≠ branchName).

Module CleanupScenario.

Import Sim.

Definition bare : string := "/workspace/foo.git".

Definition shipped : Commit :=
  {| commit_hash := objectName 0; commit_message := "Initial commit";
     commit_noVerify := false |}.

Definition work : Commit :=
  {| commit_hash := objectName 1; commit_message := "Add login flow";
     commit_noVerify := true |}.

(** A repository with an untouched scratch branch, one that carries a
    commit, and one that a worktree has checked out. *)
Definition repository : Git :=
  {| trees :=
       {[ bare :=
            {| tree_HEAD := "refs/heads/main";
               tree_refs :=
                 {[ "refs/heads/main" := [shipped];
                    "refs/heads/catnip/idle-heron" := [shipped];
                    "refs/heads/catnip/busy-finch" := [work; shipped];
                    "refs/heads/catnip/lively-otter" := [shipped] ]};
               tree_unstaged := false;
               tree_staged := false;
               tree_hookRejects := false;
               tree_worktrees :=
                 [{| wt_Path := "/workspace/foo/alpha";
                     wt_Branch := "catnip/lively-otter" |}] |} ]};
     failing := [] |}.

Definition foo : Repository := {| repo_ID := "foo"; repo_Path := bare |}.

End CleanupScenario.

(** ** The worktree validity filter, as the specification words it

    A directory is worktree-valid when it lies under the configured
    workspace root and contains a [.git] entry. *)
Definition worktreeValid (os : OS) (cwd : string) : bool :=
  strings.HasPrefix cwd (getWorkspaceDir os +:+ "/")
  && isNil (Stat os (filepath.Join [cwd; ".git"])).

Module RelocatedWorkspace.

(** A process started with [CATNIP_WORKSPACE_DIR=/data], with one
    worktree under [/data] and one under [/workspace]. *)
Definition os : OS :=
  {| Getenv name :=
       if String.eqb name "CATNIP_WORKSPACE_DIR" then "/data" else EmptyString;
     Stat path :=
       if String.eqb path "/data/foo/alpha/.git"
          || String.eqb path "/workspace/foo/alpha/.git"
       then noError
       else Some "no such file or directory" |}.

Definition logLine : string := "1700000000|42|/data/foo/alpha|Add login flow".

End RelocatedWorkspace.

(** ** The names of the session-transcript directories

    The encoding of a worktree path, which is made outside this
    repository, as section 6 of the specification and the comment at
    lines 781-782 of claude_monitor.go have it: the absolute path with
    every [/] replaced by [-], so that the name starts with the [-] that
    stands for the leading [/]
    ([/workspace/catnip/coal] becomes [-workspace-catnip-coal]). *)
Definition encodeWorktreePath (p : string) : string :=
  strings.ReplaceAll p "/" "-".

(** ** Traces of title events

    A title event as it reaches [handleTitleChange], and the run of the
    recent-title table over a trace of them: for every event, whether it
    is forwarded. *)
Record titleArrival := {
  arr_workDir : string;
  arr_title : string;
  arr_source : string;
  arr_clock : clock
}.

Definition arrivalKey (e : titleArrival) : string :=
  titleKey (arr_workDir e) (arr_title e).

Fixpoint recordTitles (recent : gmap string titleEvent) (trace : list titleArrival)
  : gmap string titleEvent * list bool :=
  match trace with
  | [] => (recent, [])
  | e :: rest =>
    let '(recent, forwarded) :=
      recordTitle recent (arr_workDir e) (arr_title e) (arr_source e) (arr_clock e) in
    let '(recent, flags) := recordTitles recent rest in
    (recent, forwarded :: flags)
  end.

(** Whether the first and the last event of a trace are forwarded. *)
Definition firstAndLast (recent : gmap string titleEvent) (trace : list titleArrival)
  : option bool * option bool :=
  let flags := (recordTitles recent trace).2 in
  (head flags, last flags).

(** The event is still in the table at an eviction with this reading
    of the clock: it is not older than five seconds. *)
Definition withinWindow (recorded cutoffReading : Z) : Prop :=
  time.Before recorded (time.Add cutoffReading (-5 * time.Second)) = false.

Module RefactorCache.



(** The scenario as the specification has it. *)
Definition loggedFirst : titleArrival :=
  {| arr_workDir := "/workspace/foo/alpha"; arr_title := "Refactor cache";
     arr_source := "log"; arr_clock := instant 0 |}.

Definition notifiedSecond : titleArrival :=
  {| arr_workDir := "/workspace/foo/alpha"; arr_title := "Refactor cache";
     arr_source := "pty"; arr_clock := instant (time.Second / 2) |}.

(** An event for another title in between. *)
Definition other : titleArrival :=
  {| arr_workDir := "/workspace/foo/alpha"; arr_title := "Wire up session store";
     arr_source := "log"; arr_clock := instant (time.Second / 4) |}.





End RefactorCache.

(** ** Systems of concurrent calls

    The system in which the given events have just entered
    [handleTitleChange], none having taken a lock yet. *)
Definition entering (e : titleArrival) : titleCall :=
  {| call_workDir := arr_workDir e;
     call_title := arr_title e;
     call_source := arr_source e;
     call_clock := arr_clock e;
     call_stage := AtRecentTitles |}.

Definition startWith {G St R C : Type} (s : ClaudeMonitorService C)
    (w : world G St R) (events : list titleArrival) : system G St R C :=
  {| sys_monitor := s;
     sys_world := w;
     sys_calls := entering <$> events;
     sys_created := [];
     sys_started := [] |}.

(** The worktrees with a manager. *)
Definition managed {G St R C : Type} (sys : system G St R C) : gset string :=
  dom (checkpointManagers (sys_monitor sys)).

Module TwoCallers.

Import Sim Scenario.

(** Two events for one worktree that has no manager yet, from the log
    and from the pty, and one for another worktree. *)
Definition events : list titleArrival :=
  [ {| arr_workDir := alpha; arr_title := "Add login flow";
       arr_source := "log"; arr_clock := instant 0 |};
    {| arr_workDir := alpha; arr_title := "Wire up session store";
       arr_source := "pty"; arr_clock := instant time.Second |};
    {| arr_workDir := "/workspace/foo/beta"; arr_title := "Draft docs";
       arr_source := "log"; arr_clock := instant time.Second |} ].

Definition idle : ClaudeMonitorService Checkpoints :=
  {| monitor_gitService := true; checkpointManagers := ∅; recentTitles := ∅ |}.

(** Both callers for [alpha] pass the recent-title table, then both
    reach the manager map, before either calls the manager. *)
Definition schedule : list nat := [0; 1; 2; 1; 0; 2; 0; 1; 2]%nat.

End TwoCallers.

(** At most one manager per worktree, over a run that started with the
    worktrees [before] managed: no worktree has had a manager created for
    it twice, none that had one before has had one created, the managed
    worktrees are those of before and those a manager was created for,
    and a call that is about to use its manager finds it in the map. *)
Record oneManagerEach {G St R C : Type} (before : gset string)
    (sys : system G St R C) : Prop := {
  created_once : NoDup (sys_created sys);
  created_unseen : ∀ p, p ∈ sys_created sys → p ∉ before;
  managed_exactly : managed sys = before ∪ list_to_set (sys_created sys);
  holder_managed :
    ∀ i c, sys_calls sys !! i = Some c → call_stage c = AtManager →
           call_workDir c ∈ managed sys
}.

(** ** Trimmed strings

    A string is trimmed on the left for [f] when it is empty or its
    first rune does not satisfy [f], and on the right when it is empty or
    its last rune does not. *)
Definition leftTrimmed (f : Z → bool) (s : list ascii) : Prop :=
  match s with
  | [] => True
  | _ => f (utf8.DecodeRuneInString s).1 = false
  end.

Definition rightTrimmed (f : Z → bool) (s : list ascii) : Prop :=
  match s with
  | [] => True
  | _ => f (utf8.DecodeLastRuneInString s).1 = false
  end.

(** A byte that stands for itself and is not white space. *)
Definition plain (c : ascii) : Prop :=
  byte c < utf8.RuneSelf ∧ unicode.IsSpace (byte c) = false.

(** * Further functions of the two files

    The rest of the monitor service and of the git service, as far as
    they can be told from the sources, with the definitions the
    statements about them need. *)

From Stdlib Require DecimalPos.

(** ** Lines of the titles log *)

(** The number of bytes [c] in [s]. *)
Fixpoint countByte (c : ascii) (s : string) : nat :=
  match s with
  | EmptyString => O
  | String d s' => ((if Ascii.eqb d c then 1 else 0) + countByte c s')%nat
  end.

(** The entry [timestamp|pid|cwd|title] the title hook writes. *)
Definition titleLogEntry (timestamp pid cwd title : string) : string :=
  timestamp +:+ "|" +:+ pid +:+ "|" +:+ cwd +:+ "|" +:+ title.

(** ** Repetitions of a title *)

Module Repetition.

(** The line of the log of [RefactorCache] written again, four and six
    seconds after the first time. *)
Definition loggedLater : titleArrival :=
  {| arr_workDir := "/workspace/foo/alpha"; arr_title := "Refactor cache";
     arr_source := "log"; arr_clock := instant (4 * time.Second) |}.

Definition loggedAgain : titleArrival :=
  {| arr_workDir := "/workspace/foo/alpha"; arr_title := "Refactor cache";
     arr_source := "log"; arr_clock := instant (6 * time.Second) |}.

End Repetition.

(** ** A process in the default workspace *)

Module Workspace.

(** No environment variable is set, and [/workspace/foo/alpha] is a
    worktree. *)
Definition os : OS :=
  {| Getenv _ := EmptyString;
     Stat path :=
       if String.eqb path "/workspace/foo/alpha/.git" then noError
       else Some "no such file or directory" |}.

End Workspace.

(** ** A service just created

    [NewClaudeMonitorService]: the service with its maps empty. *)
Definition NewClaudeMonitorService {C : Type} (gitService : bool)
  : ClaudeMonitorService C :=
  {| monitor_gitService := gitService;
     checkpointManagers := ∅;
     recentTitles := ∅ |}.

(** ** What holds of the managers (claude_monitor.go) *)

(** Every manager of the map is filed under its own directory, which
    lies under [/workspace/], and has the git service of the monitor. *)
Definition managersFiled {C : Type} (s : ClaudeMonitorService C) : Prop :=
  ∀ path m, checkpointManagers s !! path = Some m →
    workDir m = path
    ∧ strings.HasPrefix path "/workspace/" = true
    ∧ gitService m = monitor_gitService s.

(** ** A worktree on a scratch branch with a commit *)

Module Graduating.

Import Sim Scenario.

Definition initial : Commit :=
  {| commit_hash := objectName 0; commit_message := "Initial commit";
     commit_noVerify := false |}.

Definition tree : Tree :=
  {| tree_HEAD := otter;
     tree_refs := {[ otter := [initial] ]};
     tree_unstaged := false;
     tree_staged := false;
     tree_hookRejects := false;
     tree_worktrees := [{| wt_Path := alpha; wt_Branch := otter |}] |}.

Definition repositories : Git :=
  {| trees := {[ alpha := tree ]}; failing := [] |}.

(** Two events for the worktree, from the log and from the pty. *)
Definition events : list titleArrival :=
  [ {| arr_workDir := alpha; arr_title := "Add login flow";
       arr_source := "log"; arr_clock := instant 0 |};
    {| arr_workDir := alpha; arr_title := "Wire up session store";
       arr_source := "pty"; arr_clock := instant time.Second |} ].

End Graduating.

(** ** Session files (claude_monitor.go) *)

(** [models.Worktree], with the fields the services read. *)
Record Worktree := {
  worktree_ID : string;
  worktree_RepoID : string;
  worktree_Name : string;
  worktree_Path : string;
  worktree_Branch : string;
  worktree_SourceBranch : string;
  worktree_CommitCount : Z;
  worktree_IsDirty : bool;
  worktree_HasConflicts : bool;
  worktree_LastAccessed : Z
}.

(** [getWorktreeIDFromPath]: the loop over the map of worktrees, taken
    in the order [worktrees] lists its entries. *)
Fixpoint getWorktreeIDFromPath (worktrees : list (string * Worktree))
    (worktreePath : string) : string :=
  match worktrees with
  | [] => EmptyString
  | (id, worktree) :: rest =>
    if String.eqb (worktree_Path worktree) worktreePath then id
    else getWorktreeIDFromPath rest worktreePath
  end.

(** The state manager of the git service and the todo reader of the
    Claude service, which live in other files.  An update names the
    fields it sets. *)
Class StateManager (W T : Type) := {
  GetAllWorktrees : W → list (string * Worktree);
  UpdateWorktree : W → string → list (string * T) → W * error
}.

Class TodoReader (T : Type) := {
  GetLatestTodos : string → T * error
}.

Section SessionFiles.

Context {W T : Type} {manager : StateManager W T} {reader : TodoReader T}.

(** [handleSessionFileUpdate].  [statSize] is [os.Stat] followed by
    [Size]: [None] when [os.Stat] fails.  [sessionFileStates] is the
    map of the sizes seen. *)
Definition handleSessionFileUpdate (statSize : string → option Z)
    (sessionFileStates : gmap string Z) (state : W) (sessionFilePath : string)
  : gmap string Z * W :=
  let worktreePath := getWorktreePathFromSessionFile sessionFilePath in
  if String.eqb worktreePath "" then (sessionFileStates, state)
  else
    let unchanged :=
      match statSize sessionFilePath, sessionFileStates !! sessionFilePath with
      | Some size, Some lastSize => size =? lastSize
      | _, _ => false
      end in
    if unchanged then (sessionFileStates, state)
    else
      let sessionFileStates :=
        match statSize sessionFilePath with
        | Some size => <[sessionFilePath := size]> sessionFileStates
        | None => sessionFileStates
        end in
      let '(todos, err) := GetLatestTodos worktreePath in
      if negb (isNil err) then (sessionFileStates, state)
      else
        let '(state, _) :=
          UpdateWorktree state
            (getWorktreeIDFromPath (GetAllWorktrees state) worktreePath)
            [("todos", todos)] in
        (sessionFileStates, state).

End SessionFiles.

(** ** The most recently used worktree (part_000) *)

(** [Time.After] *)
Definition time_After (t u : Z) : bool := u <? t.

(** The loop of [GetDefaultWorktreePath] over the worktrees, in the
    order the iteration over the map gives them. *)
Fixpoint mostRecentlyAccessed (mostRecentWorktree : option Worktree)
    (worktrees : list Worktree) : option Worktree :=
  match worktrees with
  | [] => mostRecentWorktree
  | wt :: rest =>
    let mostRecentWorktree :=
      match mostRecentWorktree with
      | None => Some wt
      | Some recent =>
        if time_After (worktree_LastAccessed wt) (worktree_LastAccessed recent)
        then Some wt else Some recent
      end in
    mostRecentlyAccessed mostRecentWorktree rest
  end.

Definition GetDefaultWorktreePath (os : OS) (worktrees : list Worktree) : string :=
  match mostRecentlyAccessed None worktrees with
  | Some mostRecentWorktree => worktree_Path mostRecentWorktree
  | None => getWorkspaceDir os
  end.

(** ** Telling errors apart (part_000) *)

Definition uncommittedIndicators : list string :=
  [ "Your index contains uncommitted changes";
    "cannot rebase: Your index contains uncommitted changes";
    "Please commit or stash them" ].

(** [isUncommittedChangesError] *)
Definition isUncommittedChangesError (output : string) : bool :=
  existsb (λ indicator, strings.Contains output indicator) uncommittedIndicators.

Definition isLocalRepo (repoID : string) : bool :=
  strings.HasPrefix repoID "local/".

(** [getSourceRef] *)
Definition getSourceRef (worktree : Worktree) : string :=
  if isLocalRepo (worktree_RepoID worktree) then worktree_SourceBranch worktree
  else "origin/" +:+ worktree_SourceBranch worktree.

(** ** Cleanup of the [refs/catnip/] namespace (part_000) *)

(** More of [git.Operations]. *)
Class Maintenance (G : Type) := {
  GarbageCollect : G → string → G * error
}.

(** One [git update-ref -d] of the cleanup: the repositories as they
    were when it was run, the output of [git for-each-ref] the ref was
    taken from, the ref and the result. *)
Record refDeletion (G : Type) := {
  rdel_before : G;
  rdel_repoPath : string;
  rdel_listing : string;
  rdel_ref : string;
  rdel_err : error
}.

Arguments rdel_before {G} _.
Arguments rdel_repoPath {G} _.
Arguments rdel_listing {G} _.
Arguments rdel_ref {G} _.
Arguments rdel_err {G} _.

(** What a pass of the cleanup has done: the repositories, the refs it
    has asked git to delete, and the repositories it has run the garbage
    collection in. *)
Record refCleanup (G : Type) := {
  rc_git : G;
  rc_deletions : list (refDeletion G);
  rc_collected : list string
}.

Arguments rc_git {G} _.
Arguments rc_deletions {G} _.
Arguments rc_collected {G} _.

Section RefCleanup.

Context {G : Type}.
Context {ops : Operations G} {pkg : GitPackage} {mnt : Maintenance G}.

(** The body of the loop over the refs of one repository (lines
    174-203); the last component counts [deletedInRepo]. *)
Definition cleanupRef (repo : Repository) (listing : string)
    (st : G * list (refDeletion G) * nat) (ref : string)
  : G * list (refDeletion G) * nat :=
  let '(g, calls, deletedInRepo) := st in
  let ref := strings.TrimSpace ref in
  if String.eqb ref "" then st
  else
    let '(worktrees, err) := ListWorktrees g (repo_Path repo) in
    let skipRef :=
      if isNil err
      then existsb (λ wt, String.eqb (wt_Branch wt) ref) worktrees
      else false in
    if skipRef then st
    else
      let '(g', (_, err)) :=
        ExecuteGit g (repo_Path repo) ["update-ref"; "-d"; ref] in
      (g',
       calls ++ [{| rdel_before := g; rdel_repoPath := repo_Path repo;
                    rdel_listing := listing; rdel_ref := ref; rdel_err := err |}],
       if isNil err then S deletedInRepo else deletedInRepo).

(** The body of the loop over the repositories (lines 159-212). *)
Definition cleanupRepositoryRefs (st : refCleanup G) (repo : Repository)
  : refCleanup G :=
  let '(g, (output, err)) :=
    ExecuteGit (rc_git st) (repo_Path repo)
      ["for-each-ref"; "--format=%(refname)"; "refs/catnip/"] in
  if negb (isNil err) then
    {| rc_git := g; rc_deletions := rc_deletions st; rc_collected := rc_collected st |}
  else if String.eqb (strings.TrimSpace output) "" then
    {| rc_git := g; rc_deletions := rc_deletions st; rc_collected := rc_collected st |}
  else
    let refs := strings.Split (strings.TrimSpace output) newline in
    let '(g, calls, deletedInRepo) :=
      fold_left (cleanupRef repo output) refs (g, rc_deletions st, O) in
    if (0 <? deletedInRepo)%nat then
      let '(g, _) := GarbageCollect g (repo_Path repo) in
      {| rc_git := g; rc_deletions := calls;
         rc_collected := rc_collected st ++ [repo_Path repo] |}
    else
      {| rc_git := g; rc_deletions := calls; rc_collected := rc_collected st |}.

(** [cleanupCatnipRefs], the repositories taken from the map in the
    order its iteration gives. *)
Definition cleanupCatnipRefs (repositories : gmap string Repository) (g : G)
  : refCleanup G :=
  fold_left cleanupRepositoryRefs (snd <$> map_to_list repositories)
    {| rc_git := g; rc_deletions := []; rc_collected := [] |}.

(** [CleanupAllCatnipRefs]: the branches first, then the refs. *)
Definition CleanupAllCatnipRefs (repositories : gmap string Repository) (g : G)
  : list (deletion G) * refCleanup G :=
  let '(g, branches) := cleanupUnusedBranches repositories g in
  (branches, cleanupCatnipRefs repositories g).

(** When the cleanup may delete a ref: it is a line, trimmed and not
    empty, of the listing, and no worktree that [ListWorktrees] lists in
    the repositories [g] has it checked out. *)
Definition refDeletable (g : G) (repoPath listing ref : string) : Prop :=
  ref ≠ ""
  ∧ (∃ line, line ∈ strings.Split (strings.TrimSpace listing) newline
             ∧ ref = strings.TrimSpace line)
  ∧ ∀ worktrees, ListWorktrees g repoPath = (worktrees, noError) →
      ∀ wt, wt ∈ worktrees → wt_Branch wt ≠ ref.

End RefCleanup.

(** ** The logo of the terminal interface (part_000) *)

(** The loop that removes trailing empty lines:
    [for len(lines) > 0 && TrimSpace(lines[len(lines)-1]) == ""]. *)
Fixpoint dropBlankTail (fuel : nat) (lines : list string) : list string :=
  match fuel with
  | O => lines
  | S fuel' =>
    match last lines with
    | Some line =>
      if String.eqb (strings.TrimSpace line) ""
      then dropBlankTail fuel' (take (length lines - 1) lines)
      else lines
    | None => lines
    end
  end.

Definition possiblePaths : list string :=
  [ "public/logo.ascii"; "../public/logo.ascii";
    "../../public/logo.ascii"; "../../../public/logo.ascii" ].

(** [loadLogo]; [ReadFile] gives the content of a file, or nothing when
    it cannot be read. *)
Fixpoint loadLogoFrom (ReadFile : string → option string) (paths : list string)
  : list string :=
  match paths with
  | [] => []
  | path :: rest =>
    match ReadFile path with
    | Some content =>
      let lines := strings.Split content newline in
      dropBlankTail (length lines) lines
    | None => loadLogoFrom ReadFile rest
    end
  end.

Definition loadLogo (ReadFile : string → option string) : list string :=
  loadLogoFrom ReadFile possiblePaths.

(** ** Worktrees for the examples *)

Module Worktrees.

Definition coal : Worktree :=
  {| worktree_ID := "wt-coal";
     worktree_RepoID := "vanpelt/catnip";
     worktree_Name := "coal";
     worktree_Path := "/workspace/catnip/coal";
     worktree_Branch := "refs/catnip/coal";
     worktree_SourceBranch := "main";
     worktree_CommitCount := 0;
     worktree_IsDirty := false;
     worktree_HasConflicts := false;
     worktree_LastAccessed := 100 * time.Second |}.

Definition ember : Worktree :=
  {| worktree_ID := "wt-ember";
     worktree_RepoID := "local/catnip";
     worktree_Name := "ember";
     worktree_Path := "/workspace/catnip/ember";
     worktree_Branch := "feature/ember";
     worktree_SourceBranch := "main";
     worktree_CommitCount := 2;
     worktree_IsDirty := true;
     worktree_HasConflicts := false;
     worktree_LastAccessed := 200 * time.Second |}.

Definition all : gmap string Worktree :=
  {[ "wt-coal" := coal; "wt-ember" := ember ]}.

Definition listed : list (string * Worktree) :=
  [("wt-coal", coal); ("wt-ember", ember)].

(** A state manager that keeps the todos of each worktree, and a todo
    reader that finds one todo in every session. *)
Definition Todos : Type := list string.

Definition State : Type := gmap string Worktree * gmap string Todos.

#[export] Instance stateManager : StateManager State Todos := {|
  GetAllWorktrees state := map_to_list state.1;
  UpdateWorktree state id fields :=
    match state.1 !! id with
    | Some _ => ((state.1, <[id := default [] (snd <$> head fields)]> state.2), noError)
    | None => (state, Some ("worktree not found: " +:+ id))
    end
|}.

#[export] Instance todoReader : TodoReader Todos := {|
  GetLatestTodos _ := (["write the tests"], noError)
|}.

End Worktrees.

(** ** Counting commits, syncing and pushing (part_000) *)

(** [git.FetchStrategy] and [PushStrategy], with the fields the service
    sets.  The service's own [PushStrategy] and [git.PushStrategy] have
    the same fields. *)
Record FetchStrategy := {
  fetch_Branch : string;
  fetch_Depth : Z;
  fetch_UpdateLocalRef : bool
}.

Record PushStrategy := {
  push_Branch : string;
  push_Remote : string;
  push_RemoteURL : string;
  push_SyncOnFail : bool;
  push_SetUpstream : bool;
  push_ConvertHTTPS : bool
}.

(** More of [git.Operations], and [git.IsPushRejected]. *)
Class Transport (G : Type) := {
  PushBranch : G → string → PushStrategy → G * error;
  FetchBranch : G → string → FetchStrategy → G * error;
  IsPushRejected : error → string → bool
}.

(** What [pushBranch] comes to. *)
Inductive pushed (G : Type) :=
  | Pushed (g : G) (pushes : list PushStrategy) (err : error)
  | PushOutOfFuel.

Arguments Pushed {G} _ _ _.
Arguments PushOutOfFuel {G}.

Section Pushing.

Context {G : Type}.
Context {ops : Operations G} {net : Transport G} {tables : strconv.PrintTables}.

(** [checkHasCommitsAhead] *)
Definition checkHasCommitsAhead (g : G) (worktree : Worktree) : G * (bool * error) :=
  let '(g, baseRef) :=
    if isLocalRepo (worktree_RepoID worktree) then (g, worktree_SourceBranch worktree)
    else
      let '(g, _) :=
        runGitCommand g (worktree_Path worktree)
          ["fetch"; "origin"; worktree_SourceBranch worktree] in
      (g, "origin/" +:+ worktree_SourceBranch worktree) in
  let '(g, (output, err)) :=
    runGitCommand g (worktree_Path worktree)
      ["rev-list"; "--count"; baseRef +:+ "..HEAD"] in
  if negb (isNil err) then
    (g, (false, Some ("failed to count commits ahead: " +:+ errText err)))
  else
    let '(commitCount, err) := strconv.Atoi (strings.TrimSpace output) in
    if negb (isNil err) then
      (g, (false, Some ("failed to parse commit count: " +:+ errText err)))
    else (g, (0 <? commitCount, noError)).

(** [syncBranchWithUpstream] *)
Definition syncBranchWithUpstream (g : G) (worktree : Worktree) : G * error :=
  let '(g, err) :=
    FetchBranch g (worktree_Path worktree)
      {| fetch_Branch := worktree_Branch worktree;
         fetch_Depth := 0;
         fetch_UpdateLocalRef := false |} in
  if negb (isNil err) then (g, noError)
  else
    let '(g, (output, err)) :=
      runGitCommand g (worktree_Path worktree)
        ["rev-list"; "--count"; "HEAD..origin/" +:+ worktree_Branch worktree] in
    if negb (isNil err) then (g, noError)
    else
      let '(behindCount, err) := strconv.Atoi (strings.TrimSpace output) in
      if negb (isNil err) || (behindCount =? 0) then (g, noError)
      else
        let '(g, (output, err)) :=
          runGitCommand g (worktree_Path worktree)
            ["rebase"; "origin/" +:+ worktree_Branch worktree] in
        if negb (isNil err) then
          if strings.Contains output "CONFLICT" then
            (g, Some "rebase conflict occurred while syncing with upstream. Please resolve conflicts manually in the terminal")
          else
            (g, Some ("failed to rebase on upstream: " +:+ errText err
                      +:+ newline +:+ output))
        else (g, noError).

(** The strategy [pushBranch] hands to [operations.PushBranch]. *)
Definition gitStrategyOf (worktree : Worktree) (strategy : PushStrategy)
  : PushStrategy :=
  {| push_Branch :=
       if String.eqb (push_Branch strategy) "" then worktree_Branch worktree
       else push_Branch strategy;
     push_Remote :=
       if String.eqb (push_Remote strategy) "" then "origin"
       else push_Remote strategy;
     push_RemoteURL := push_RemoteURL strategy;
     push_SyncOnFail := false;
     push_SetUpstream := push_SetUpstream strategy;
     push_ConvertHTTPS := push_ConvertHTTPS strategy |}.

(** [pushBranch], which calls itself to push again after a sync;
    [fuel] bounds the depth of the calls.  The result lists the
    strategies handed to [operations.PushBranch], in order. *)
Fixpoint pushBranch (fuel : nat) (g : G) (worktree : Worktree) (repo : Repository)
    (strategy : PushStrategy) : pushed G :=
  match fuel with
  | O => PushOutOfFuel
  | S fuel' =>
    let gitStrategy := gitStrategyOf worktree strategy in
    let '(g, err) := PushBranch g (worktree_Path worktree) gitStrategy in
    if negb (isNil err) && push_SyncOnFail strategy
       && IsPushRejected err (errText err) then
      let '(g, syncErr) := syncBranchWithUpstream g worktree in
      if negb (isNil syncErr) then
        Pushed g [gitStrategy]
          (Some ("failed to sync with upstream: " +:+ errText syncErr))
      else
        let retryStrategy :=
          {| push_Branch := push_Branch strategy;
             push_Remote := push_Remote strategy;
             push_RemoteURL := push_RemoteURL strategy;
             push_SyncOnFail := false;
             push_SetUpstream := push_SetUpstream strategy;
             push_ConvertHTTPS := push_ConvertHTTPS strategy |} in
        match pushBranch fuel' g worktree repo retryStrategy with
        | Pushed g pushes err => Pushed g (gitStrategy :: pushes) err
        | PushOutOfFuel => PushOutOfFuel
        end
    else Pushed g [gitStrategy] err
  end.

End Pushing.

(** ** Deleting worktrees (part_000) *)

(** What the service does outside git: the files it looks for, removes
    and writes and the commands it runs belong to the same surroundings
    [G] as the repositories.  [ListBranchesMerged] is [ListBranches] with
    the option [Merged]; [CleanBranchName] is the function of package
    [git]; [RemoveWorktree] is [DeleteWorktree] of the worktree
    manager. *)
Class Surroundings (G : Type) := {
  StatPath : G → string → error;
  RemoveAll : G → string → G * error;
  WriteFile : G → string → string → G * error;
  RunCommand : G → string → list string → G * error;
  ListBranchesMerged : G → string → string → list string * error;
  CleanBranchName : string → string;
  RemoveWorktree : G → Repository → Worktree → G * error
}.

(** [getGitStateDir] *)
Definition getGitStateDir (os : OS) : string :=
  filepath.Join [getWorkspaceDir os; ".git-state"].

(** One call of the worktree manager's [DeleteWorktree] made by
    [CleanupMergedWorktrees]: the surroundings as they were when the
    worktree was checked, the repository, the worktree and the result. *)
Record worktreeDeletion (G : Type) := {
  wdel_checked : G;
  wdel_repo : Repository;
  wdel_worktree : Worktree;
  wdel_err : error
}.

Arguments wdel_checked {G} _.
Arguments wdel_repo {G} _.
Arguments wdel_worktree {G} _.
Arguments wdel_err {G} _.

(** The part of [GitService] these functions use. *)
Record GitService (G : Type) := {
  gs_git : G;
  gs_repositories : gmap string Repository;
  gs_worktrees : gmap string Worktree
}.

Arguments gs_git {G} _.
Arguments gs_repositories {G} _.
Arguments gs_worktrees {G} _.

(** What [CleanupMergedWorktrees] has done so far. *)
Record worktreeCleanup (G : Type) := {
  wc_service : GitService G;
  wc_cleanedUp : list string;
  wc_errors : list string;
  wc_deletions : list (worktreeDeletion G)
}.

Arguments wc_service {G} _.
Arguments wc_cleanedUp {G} _.
Arguments wc_errors {G} _.
Arguments wc_deletions {G} _.

Section DeletingWorktrees.

Context {G : Type}.
Context {ops : Operations G} {env : Surroundings G}.

(** [cleanupActiveSessions] *)
Definition cleanupActiveSessions (g : G) (worktreePath : string) : G :=
  let '(g, _) := RunCommand g "pkill" ["-f"; worktreePath] in
  let parts := strings.Split (strings.TrimPrefix worktreePath "/workspace/") "/" in
  match parts with
  | part0 :: part1 :: _ =>
    let sessionID := part0 +:+ "/" +:+ part1 in
    let sessionWorkDir := filepath.Join ["/workspace"; sessionID] in
    if negb (String.eqb sessionWorkDir worktreePath) then
      if isNil (StatPath g sessionWorkDir) then (RemoveAll g sessionWorkDir).1
      else g
    else g
  | _ => g
  end.

(** [saveState]; [marshal] is [json.MarshalIndent] of the two maps. *)
Definition saveState (os : OS)
    (marshal : gmap string Repository → gmap string Worktree → string * error)
    (s : GitService G) : GitService G * error :=
  let '(data, err) := marshal (gs_repositories s) (gs_worktrees s) in
  if negb (isNil err) then (s, err)
  else
    let '(g, err) :=
      WriteFile (gs_git s) (filepath.Join [getGitStateDir os; "state.json"]) data in
    ({| gs_git := g; gs_repositories := gs_repositories s;
        gs_worktrees := gs_worktrees s |}, err).

(** [DeleteWorktree]; besides the service and the error, the call of
    the worktree manager it has made, if any, with its result. *)
Definition DeleteWorktree (os : OS)
    (marshal : gmap string Repository → gmap string Worktree → string * error)
    (s : GitService G) (worktreeID : string)
  : GitService G * error * option (Repository * Worktree * error) :=
  match gs_worktrees s !! worktreeID with
  | None => (s, Some ("worktree " +:+ worktreeID +:+ " not found"), None)
  | Some worktree =>
    match gs_repositories s !! worktree_RepoID worktree with
    | None =>
      (s, Some ("repository " +:+ worktree_RepoID worktree +:+ " not found"), None)
    | Some repo =>
      let g := cleanupActiveSessions (gs_git s) (worktree_Path worktree) in
      let '(g, err) := RemoveWorktree g repo worktree in
      if negb (isNil err) then
        ({| gs_git := g; gs_repositories := gs_repositories s;
            gs_worktrees := gs_worktrees s |}, err, Some (repo, worktree, err))
      else
        let s := {| gs_git := g; gs_repositories := gs_repositories s;
                    gs_worktrees := delete worktreeID (gs_worktrees s) |} in
        let '(s, _) := saveState os marshal s in
        (s, noError, Some (repo, worktree, noError))
    end
  end.

(** The check of lines 992-1044: [Some true] when the branch of the
    worktree counts as merged, [None] when the check fails and the
    worktree is passed over. *)
Definition isMerged (g : G) (repo : Repository) (worktree : Worktree) : option bool :=
  let listed :=
    let '(branches, err) :=
      ListBranchesMerged g (repo_Path repo) (worktree_SourceBranch worktree) in
    if negb (isNil err) then None
    else Some (existsb (λ branch, String.eqb (CleanBranchName branch)
                                             (worktree_Branch worktree))
                       branches) in
  if isLocalRepo (worktree_RepoID worktree) then
    if negb (BranchExists g (repo_Path repo) (worktree_Branch worktree) false)
    then Some true
    else listed
  else listed.

(** The body of the loop of [CleanupMergedWorktrees] (lines 966-1062). *)
Definition cleanupWorktree (os : OS)
    (marshal : gmap string Repository → gmap string Worktree → string * error)
    (st : worktreeCleanup G) (entry : string * Worktree) : worktreeCleanup G :=
  let '(worktreeID, worktree) := entry in
  let s := wc_service st in
  if worktree_IsDirty worktree then st
  else if worktree_HasConflicts worktree then st
  else if 0 <? worktree_CommitCount worktree then st
  else
    match gs_repositories s !! worktree_RepoID worktree with
    | None => st
    | Some repo =>
      match isMerged (gs_git s) repo worktree with
      | Some true =>
        let '(s', cleanupErr, call) := DeleteWorktree os marshal s worktreeID in
        let deletions :=
          match call with
          | Some (repo, worktree, err) =>
            wc_deletions st ++ [{| wdel_checked := gs_git s; wdel_repo := repo;
                                   wdel_worktree := worktree; wdel_err := err |}]
          | None => wc_deletions st
          end in
        if negb (isNil cleanupErr) then
          {| wc_service := s';
             wc_cleanedUp := wc_cleanedUp st;
             wc_errors :=
               wc_errors st
               ++ ["failed to cleanup worktree " +:+ worktree_Name worktree
                   +:+ ": " +:+ errText cleanupErr];
             wc_deletions := deletions |}
        else
          {| wc_service := s';
             wc_cleanedUp := wc_cleanedUp st ++ [worktree_Name worktree];
             wc_errors := wc_errors st;
             wc_deletions := deletions |}
      | _ => st
      end
    end.

(** [%v] of a slice of errors. *)
Definition errorsText (errors : list string) : string :=
  "[" +:+ match errors with
          | [] => ""
          | e :: rest => fold_left (λ acc x, acc +:+ " " +:+ x) rest e
          end +:+ "]".

(** [CleanupMergedWorktrees], the worktrees taken in the order
    [order] gives the entries of the map; besides what the function
    returns, the service afterwards and the calls of the worktree
    manager. *)
Definition CleanupMergedWorktrees (os : OS)
    (marshal : gmap string Repository → gmap string Worktree → string * error)
    (s : GitService G) (order : list (string * Worktree))
  : Z * list string * error * GitService G * list (worktreeDeletion G) :=
  let st := fold_left (cleanupWorktree os marshal) order
              {| wc_service := s; wc_cleanedUp := []; wc_errors := [];
                 wc_deletions := [] |} in
  let err :=
    if (0 <? length (wc_errors st))%nat then
      Some ("cleanup completed with " +:+ itoa (Z.of_nat (length (wc_errors st)))
            +:+ " errors: " +:+ errorsText (wc_errors st))
    else noError in
  (Z.of_nat (length (wc_cleanedUp st)), wc_cleanedUp st, err,
   wc_service st, wc_deletions st).

(** When [CleanupMergedWorktrees] may hand a worktree to the worktree
    manager for deletion, the worktree being in the repositories [g]. *)
Definition worktreeRemovable (repositories : gmap string Repository) (g : G)
    (repo : Repository) (worktree : Worktree) : Prop :=
  worktree_IsDirty worktree = false
  ∧ worktree_HasConflicts worktree = false
  ∧ worktree_CommitCount worktree ≤ 0
  ∧ repositories !! worktree_RepoID worktree = Some repo
  ∧ ((isLocalRepo (worktree_RepoID worktree) = true
      ∧ BranchExists g (repo_Path repo) (worktree_Branch worktree) false = false)
     ∨ ∃ branches branch,
         ListBranchesMerged g (repo_Path repo) (worktree_SourceBranch worktree)
           = (branches, noError)
         ∧ branch ∈ branches
         ∧ CleanBranchName branch = worktree_Branch worktree).

(** A directory name that [filepath.Clean] leaves alone. *)
Definition plainName (name : string) : Prop :=
  name ≠ "" ∧ name ≠ "." ∧ name ≠ ".." ∧ strings.Contains name "/" = false.

End DeletingWorktrees.

(** ** The branch of a local repository (part_000) *)

Section LocalRepos.

Context {G : Type}.
Context {ops : Operations G}.

(** [getLocalRepoDefaultBranch] *)
Definition getLocalRepoDefaultBranch (g : G) (repoPath : string) : G * string :=
  let '(g, (output, err)) := runGitCommand g repoPath ["branch"; "--show-current"] in
  if negb (isNil err) then (g, "main")
  else
    let branch := strings.TrimSpace output in
    if String.eqb branch "" then (g, "main") else (g, branch).

End LocalRepos.

(** ** Surroundings for the examples

    A disk on which git answers from a script, with the directories
    that exist and the branches merged into the source branches. *)

Module Scripted.

Record Disk := {
  disk_answers : list (list string * string);   (* git commands and their output *)
  disk_branches : list string;                  (* branches that exist *)
  disk_merged : list string;                    (* lines of [git branch --merged] *)
  disk_dirs : list string;                      (* directories that exist *)
  disk_killed : list string                     (* patterns given to [pkill -f] *)
}.

Fixpoint answer (answers : list (list string * string)) (args : list string)
  : option string :=
  match answers with
  | [] => None
  | (args', out) :: rest =>
    if bool_decide (args' = args) then Some out else answer rest args
  end.

Definition under (dir path : string) : bool :=
  String.eqb path dir || strings.HasPrefix path (dir +:+ "/").

#[export] Instance operations : Operations Disk := {|
  IsGitRepository _ _ := true;
  ExecuteGit disk _ args :=
    match answer (disk_answers disk) args with
    | Some out => (disk, (out, noError))
    | None => (disk, (EmptyString, Some "exit status 1"))
    end;
  ExecuteCommand _ _ _ := (EmptyString, Some "unsupported command");
  BranchExists disk _ branch _ := bool_decide (branch ∈ disk_branches disk);
  ListBranches disk _ _ := (disk_branches disk, noError);
  ShowRef disk _ ref _ :=
    if bool_decide (ref ∈ disk_branches disk) then noError else Some "exit status 1";
  GetCommitCount _ _ _ _ := (0, noError);
  ListWorktrees _ _ := ([], noError);
  DeleteBranch disk _ _ _ := (disk, noError)
|}.

#[export] Instance surroundings : Surroundings Disk := {|
  StatPath disk path :=
    if bool_decide (path ∈ disk_dirs disk) then noError
    else Some "no such file or directory";
  RemoveAll disk path :=
    ({| disk_answers := disk_answers disk;
        disk_branches := disk_branches disk;
        disk_merged := disk_merged disk;
        disk_dirs := filter (λ dir, under path dir = false) (disk_dirs disk);
        disk_killed := disk_killed disk |}, noError);
  WriteFile disk _ _ := (disk, noError);
  RunCommand disk command args :=
    ({| disk_answers := disk_answers disk;
        disk_branches := disk_branches disk;
        disk_merged := disk_merged disk;
        disk_dirs := disk_dirs disk;
        disk_killed := disk_killed disk ++ drop 1 args |}, noError);
  ListBranchesMerged disk _ _ := (disk_merged disk, noError);
  CleanBranchName := strings.TrimSpace;
  RemoveWorktree disk _ worktree :=
    ({| disk_answers := disk_answers disk;
        disk_branches := disk_branches disk;
        disk_merged := disk_merged disk;
        disk_dirs :=
          filter (λ dir, under (worktree_Path worktree) dir = false) (disk_dirs disk);
        disk_killed := disk_killed disk |}, noError)
|}.

(** The repository of [Worktrees], three commits ahead of [origin/main]
    in the worktree [coal], with [refs/catnip/coal] merged into [main];
    besides the worktrees there is a directory [/workspace/data]. *)
Definition disk : Disk :=
  {| disk_answers :=
       [ (["fetch"; "origin"; "main"], EmptyString);
         (["rev-list"; "--count"; "origin/main..HEAD"], "3" +:+ newline) ];
     disk_branches := ["main"; "refs/catnip/coal"; "feature/ember"];
     disk_merged := ["* main"; "  refs/catnip/coal"];
     disk_dirs := ["/workspace/catnip/coal"; "/workspace/catnip/ember";
                   "/workspace/data"; "/workspace/data/notes"];
     disk_killed := [] |}.

Definition catnip : Repository :=
  {| repo_ID := "vanpelt/catnip"; repo_Path := "/workspace/catnip.git" |}.

Definition service : GitService Disk :=
  {| gs_git := disk;
     gs_repositories := {[ "vanpelt/catnip" := catnip ]};
     gs_worktrees := {[ "wt-coal" := Worktrees.coal ]} |}.

Definition marshal (repositories : gmap string Repository)
    (worktrees : gmap string Worktree) : string * error :=
  ("{}", noError).

End Scripted.

(** * Proofs *)

(** ** Strings *)

Lemma append_cons c s t : String c s +:+ t = String c (s +:+ t).
Proof. reflexivity. Qed.

Lemma append_empty_l s : "" +:+ s = s.
Proof. reflexivity. Qed.

Lemma append_empty_r s : s +:+ "" = s.
Proof.
  induction s as [|c s IH]; [done|]. by rewrite append_cons, IH.
Qed.

Lemma append_assoc s t u : (s +:+ t) +:+ u = s +:+ t +:+ u.
Proof.
  induction s as [|c s IH]; [done|]. by rewrite !append_cons, IH.
Qed.

Lemma length_append s t :
  String.length (s +:+ t) = (String.length s + String.length t)%nat.
Proof.
  induction s as [|c s IH]; [done|]. rewrite append_cons. simpl. by rewrite IH.
Qed.

Lemma HasPrefix_spec s p :
  strings.HasPrefix s p = true ↔ ∃ r, s = p +:+ r.
Proof.
  unfold strings.HasPrefix. revert s. induction p as [|c p IH]; intros s.
  - simpl. split; [intros _; by exists s | by destruct s].
  - destruct s as [|d s]; simpl.
    + split; [done | intros [r Hr]; discriminate].
    + destruct (ascii_dec c d) as [->|Hne].
      * rewrite IH. split; intros [r Hr]; exists r;
          [by rewrite append_cons, Hr | rewrite append_cons in Hr; by injection Hr].
      * split; [done|]. intros [r Hr]. rewrite append_cons in Hr.
        injection Hr; congruence.
Qed.

Lemma dropString_append s t : strings.dropString (String.length s) (s +:+ t) = t.
Proof.
  induction s as [|c s IH]; [by destruct t|]. by rewrite append_cons.
Qed.

Lemma dropString_split n s :
  (n ≤ String.length s)%nat →
  ∃ r, s = r +:+ strings.dropString n s ∧ String.length r = n.
Proof.
  revert s. induction n as [|n IH]; intros s Hn.
  - exists ""; by destruct s.
  - destruct s as [|c s]; simpl in *; [lia|].
    destruct (IH s) as (r & Hr & Hl); [lia|].
    exists (String c r). rewrite append_cons. simpl.
    split; [by rewrite <- Hr | by rewrite Hl].
Qed.

Lemma HasSuffix_spec s p :
  strings.HasSuffix s p = true ↔ ∃ r, s = r +:+ p.
Proof.
  unfold strings.HasSuffix. rewrite andb_true_iff, Nat.leb_le, String.eqb_eq.
  split.
  - intros [Hle Heq].
    destruct (dropString_split (String.length s - String.length p) s) as (r & Hr & _);
      [lia|]. exists r. by rewrite <- Heq.
  - intros [r ->]. rewrite length_append. split; [lia|].
    replace (String.length r + String.length p - String.length p)%nat
      with (String.length r) by lia.
    apply dropString_append.
Qed.

Lemma Contains_cons c s p :
  strings.Contains (String c s) p
  = strings.HasPrefix (String c s) p || strings.Contains s p.
Proof. reflexivity. Qed.

Lemma Contains_empty p : strings.Contains "" p = strings.HasPrefix "" p.
Proof. unfold strings.Contains, strings.HasPrefix. apply orb_false_r. Qed.

Lemma Contains_spec s p :
  strings.Contains s p = true ↔ ∃ a b, s = a +:+ p +:+ b.
Proof.
  induction s as [|c s IH].
  - rewrite Contains_empty, HasPrefix_spec. split.
    + intros [r Hr]. by exists "", r.
    + intros (a & b & Hab). destruct a; [by exists b | discriminate].
  - rewrite Contains_cons, orb_true_iff, HasPrefix_spec, IH. split.
    + intros [[r Hr]|(a & b & ->)]; [by exists "", r | by exists (String c a), b].
    + intros (a & b & Hab). destruct a as [|d a].
      * left. by exists b.
      * right. rewrite append_cons in Hab. injection Hab as _ ->. by exists a, b.
Qed.

(** [Contains] is [Index(s, substr) >= 0]. *)
Lemma Contains_Index (s substr : string) :
  strings.Contains s substr = (0 <=? strings.Index s substr).
Proof.
  induction s as [|c s IH].
  - rewrite Contains_empty. unfold strings.HasPrefix. cbn [strings.Index].
    by destruct (String.prefix substr "").
  - rewrite Contains_cons. unfold strings.HasPrefix. cbn [strings.Index].
    destruct (String.prefix substr (String c s)); [done|]. cbn [orb]. rewrite IH.
    destruct (Z.ltb_spec (strings.Index s substr) 0);
      destruct (Z.leb_spec 0 (strings.Index s substr)); try lia; try done;
      symmetry; apply Z.leb_le; lia.
Qed.

(** ** Decoding UTF-8 *)

Lemma byte_range (c : ascii) : 0 ≤ byte c < 256.
Proof. unfold byte. pose proof (N_ascii_bounded c). lia. Qed.

(** The first byte alone decides an ASCII rune. *)
Lemma DecodeRuneInString_ascii (c : ascii) (t : list ascii) :
  byte c < utf8.RuneSelf → utf8.DecodeRuneInString (c :: t) = (byte c, 1%nat).
Proof.
  intros Hc. unfold utf8.DecodeRuneInString, utf8.first.
  change utf8.RuneSelf with 128 in Hc.
  destruct (Z.ltb_spec (byte c) 128); [|lia]. done.
Qed.

(** A decoded rune takes at least one byte and no more than there are. *)
Lemma DecodeRuneInString_size (s : list ascii) :
  s ≠ [] →
  (1 ≤ (utf8.DecodeRuneInString s).2 ≤ length s)%nat.
Proof.
  intros Hs. destruct s as [|c0 t0]; [done|]. unfold utf8.DecodeRuneInString.
  cbn [length].
  repeat match goal with
  | |- context [if ?b then _ else _] => destruct b eqn:?
  | |- context [match ?l with [] => _ | _ :: _ => _ end] => destruct l
  end; cbn [snd length]; try lia.
Qed.

(** The loop of [Quote] ends before its fuel does: beyond the length
    of the string, more fuel changes nothing. *)
Lemma quoteLoop_fuel {tables : strconv.PrintTables} (fuel fuel' : nat)
    (s : list ascii) :
  (length s ≤ fuel)%nat → (length s ≤ fuel')%nat →
  strconv.quoteLoop fuel s = strconv.quoteLoop fuel' s.
Proof.
  revert fuel' s. induction fuel as [|fuel IH]; intros fuel' s Hfuel Hfuel'.
  - destruct s; [|cbn in Hfuel; lia]. by destruct fuel'.
  - destruct s as [|c t]; [by destruct fuel'|].
    destruct fuel' as [|fuel']; [cbn in Hfuel'; lia|].
    cbn [strconv.quoteLoop length] in *.
    pose proof (DecodeRuneInString_size (c :: t) ltac:(done)) as Hsize.
    destruct (if utf8.RuneSelf <=? byte c then utf8.DecodeRuneInString (c :: t)
              else (byte c, 1%nat)) as [r width] eqn:Hdecoded.
    assert (1 ≤ width)%nat as Hwidth.
    { destruct (utf8.RuneSelf <=? byte c).
      - rewrite Hdecoded in Hsize. cbn [snd] in Hsize. lia.
      - injection Hdecoded as _ <-. lia. }
    f_equal. destruct width as [|width]; [lia|]. cbn [drop].
    apply IH; rewrite length_drop; lia.
Qed.

(** A rune other than [RuneError] decoded from a prefix is decoded from
    the whole string too. *)
Lemma DecodeRuneInString_app (p q : list ascii) (r : Z) (size : nat) :
  utf8.DecodeRuneInString p = (r, size) →
  r ≠ utf8.RuneError →
  utf8.DecodeRuneInString (p ++ q) = (r, size).
Proof.
  intros Hp Hr. destruct p as [|c0 p]; [by injection Hp as <- _|].
  revert Hp. unfold utf8.DecodeRuneInString. cbn [app].
  destruct (utf8.as_ <=? utf8.first (byte c0)); [done|].
  destruct (Nat.ltb_spec (length (c0 :: p)) (Z.to_nat (Z.land (utf8.first (byte c0)) 7)))
    as [Hshort|Hlong]; [by intros [= <- _]|].
  destruct (Nat.ltb_spec (length (c0 :: p ++ q))
              (Z.to_nat (Z.land (utf8.first (byte c0)) 7))) as [Hshort'|_].
  { cbn [length] in *. rewrite length_app in Hshort'. lia. }
  destruct p as [|c1 p]; [by intros [= <- _]|]. cbn [app].
  destruct (_ || _); [by intros [= <- _]|].
  destruct (_ <=? 2)%nat; [done|].
  destruct p as [|c2 p]; [by intros [= <- _]|]. cbn [app].
  destruct (_ || _); [by intros [= <- _]|].
  destruct (_ <=? 3)%nat; [done|].
  destruct p as [|c3 p]; [by intros [= <- _]|]. cbn [app].
  destruct (_ || _); [by intros [= <- _]|]. done.
Qed.

(** ** Decoding the last rune *)

Lemma scanRuneStart_le (fuel : nat) (s : list ascii) (lim start : Z) :
  utf8.scanRuneStart fuel s lim start ≤ start.
Proof.
  revert start. induction fuel as [|fuel IH]; intros start; cbn; [lia|].
  destruct (start <? lim); [lia|].
  destruct (s !! Z.to_nat start); [|lia].
  destruct (utf8.RuneStart _); [lia|]. specialize (IH (start - 1)). lia.
Qed.

Lemma DecodeLastRuneInString_ascii (s : list ascii) (c : ascii) :
  byte c < utf8.RuneSelf →
  utf8.DecodeLastRuneInString (s ++ [c]) = (byte c, 1%nat).
Proof.
  intros Hc. unfold utf8.DecodeLastRuneInString. rewrite last_snoc.
  by destruct (Z.ltb_spec (byte c) utf8.RuneSelf); [|lia].
Qed.

Lemma DecodeLastRuneInString_size (s : list ascii) :
  s ≠ [] →
  (1 ≤ (utf8.DecodeLastRuneInString s).2 ≤ length s)%nat.
Proof.
  intros Hs. unfold utf8.DecodeLastRuneInString.
  destruct (last s) as [c|] eqn:Hlast; [|by apply last_None in Hlast].
  assert (1 ≤ length s)%nat as Hlen by (destruct s; [done | cbn; lia]).
  destruct (byte c <? utf8.RuneSelf); [cbn; lia|].
  set (start := Z.max (utf8.scanRuneStart _ s _ _) 0).
  assert (0 ≤ start < Z.of_nat (length s)) as Hstart.
  { subst start.
    pose proof (scanRuneStart_le (S utf8.UTFMax) s
                  (Z.max (Z.of_nat (length s) - Z.of_nat utf8.UTFMax) 0)
                  (Z.of_nat (length s) - 1 - 1)). lia. }
  destruct (utf8.DecodeRuneInString (drop (Z.to_nat start) s)) as [r size].
  destruct (Z.eqb_spec (start + Z.of_nat size) (Z.of_nat (length s))); cbn; lia.
Qed.

(** The backward scan stops within its fuel: below the limit or on the
    first byte of a rune. *)
Lemma scanRuneStart_stops (fuel : nat) (s : list ascii) (lim start : Z) :
  start - lim < Z.of_nat fuel →
  let r := utf8.scanRuneStart fuel s lim start in
  r < lim
  ∨ match s !! Z.to_nat r with
    | Some c => utf8.RuneStart (byte c) = true
    | None => True
    end.
Proof.
  revert start. induction fuel as [|fuel IH]; intros start Hfuel;
    cbn [utf8.scanRuneStart].
  - left. lia.
  - destruct (Z.ltb_spec start lim); [by left|].
    destruct (s !! Z.to_nat start) as [c|] eqn:Hc.
    + destruct (utf8.RuneStart (byte c)) eqn:Hstart.
      * right. by rewrite Hc.
      * apply IH. lia.
    + right. by rewrite Hc.
Qed.

(** ** Trimming *)

Arguments utf8.DecodeRuneInString : simpl never.
Arguments utf8.DecodeLastRuneInString : simpl never.

Lemma trimLeftFrom_skip (f : Z → bool) (skip : nat) (s : list ascii) :
  strings.trimLeftFrom f skip s = strings.trimLeftFrom f 0 (drop skip s).
Proof.
  revert skip. induction s as [|c s IH]; intros [|skip]; try done.
  cbn [strings.trimLeftFrom drop]. apply IH.
Qed.

Lemma trimLeftFrom_cons (f : Z → bool) (c : ascii) (s : list ascii) :
  strings.trimLeftFrom f 0 (c :: s)
  = if f (utf8.DecodeRuneInString (c :: s)).1
    then strings.trimLeftFrom f 0 (drop (utf8.DecodeRuneInString (c :: s)).2 (c :: s))
    else c :: s.
Proof.
  cbn [strings.trimLeftFrom].
  pose proof (DecodeRuneInString_size (c :: s) ltac:(done)) as Hsize.
  destruct (utf8.DecodeRuneInString (c :: s)) as [r size]. cbn [fst snd] in *.
  destruct (f r); [|done]. rewrite trimLeftFrom_skip.
  destruct size as [|size]; [lia|]. cbn [drop].
  by replace (S size - 1)%nat with size by lia.
Qed.

Lemma TrimLeftFunc_trimmed (f : Z → bool) (s : list ascii) :
  leftTrimmed f (strings.TrimLeftFunc s f).
Proof.
  unfold strings.TrimLeftFunc.
  induction s as [s IH] using (induction_ltof1 _ (@length ascii)).
  destruct s as [|c s]; [done|]. rewrite trimLeftFrom_cons.
  pose proof (DecodeRuneInString_size (c :: s) ltac:(done)) as Hsize.
  destruct (f (utf8.DecodeRuneInString (c :: s)).1) eqn:Hf; [|done].
  apply IH. unfold ltof. rewrite length_drop. cbn [length] in *. lia.
Qed.

Lemma TrimLeftFunc_fixed (f : Z → bool) (s : list ascii) :
  leftTrimmed f s → strings.TrimLeftFunc s f = s.
Proof.
  unfold strings.TrimLeftFunc. destruct s as [|c s]; [done|].
  intros Hs. rewrite trimLeftFrom_cons. cbn in Hs. by rewrite Hs.
Qed.

Lemma trimRightLoop_prefix (fuel : nat) (f : Z → bool) (s : list ascii) :
  ∃ n, strings.trimRightLoop fuel f s = take n s.
Proof.
  revert s. induction fuel as [|fuel IH]; intros s; cbn [strings.trimRightLoop].
  - exists (length s). by rewrite take_ge.
  - destruct s as [|c s]; [by exists 0%nat|].
    destruct (utf8.DecodeLastRuneInString (c :: s)) as [r size].
    destruct (f r).
    + destruct (IH (take (length (c :: s) - size) (c :: s))) as [n ->].
      eexists. by rewrite take_take.
    + exists (length (c :: s)). by rewrite take_ge.
Qed.

Lemma trimRightLoop_trimmed (fuel : nat) (f : Z → bool) (s : list ascii) :
  (length s ≤ fuel)%nat → rightTrimmed f (strings.trimRightLoop fuel f s).
Proof.
  revert s. induction fuel as [|fuel IH]; intros s Hfuel.
  - by destruct s; [|cbn in Hfuel; lia].
  - cbn [strings.trimRightLoop]. destruct s as [|c s]; [done|].
    pose proof (DecodeLastRuneInString_size (c :: s) ltac:(done)) as Hsize.
    unfold rightTrimmed at 1.
    destruct (utf8.DecodeLastRuneInString (c :: s)) as [r size] eqn:Hlast.
    cbn [snd] in Hsize.
    destruct (f r) eqn:Hf.
    + apply IH. rewrite length_take. cbn [length] in *. lia.
    + cbn. by rewrite Hlast.
Qed.

Lemma trimRightLoop_fixed (fuel : nat) (f : Z → bool) (s : list ascii) :
  rightTrimmed f s → strings.trimRightLoop fuel f s = s.
Proof.
  destruct fuel as [|fuel]; [done|]. cbn [strings.trimRightLoop].
  destruct s as [|c s]; [done|]. unfold rightTrimmed.
  destruct (utf8.DecodeLastRuneInString (c :: s)) as [r size]. cbn [fst].
  by intros ->.
Qed.

Lemma IsSpace_RuneError : unicode.IsSpace utf8.RuneError = false.
Proof. reflexivity. Qed.

(** Cutting white space off the right leaves the left trimmed. *)
Lemma leftTrimmed_take (n : nat) (s : list ascii) :
  leftTrimmed unicode.IsSpace s → leftTrimmed unicode.IsSpace (take n s).
Proof.
  intros Hs. destruct (take n s) as [|c p] eqn:Htake; [done|].
  unfold leftTrimmed.
  destruct (utf8.DecodeRuneInString (c :: p)) as [r size] eqn:Hdec. cbn [fst].
  destruct (unicode.IsSpace r) eqn:Hspace; [|done].
  assert (r ≠ utf8.RuneError) as Hr by (intros ->; by rewrite IsSpace_RuneError in Hspace).
  pose proof (DecodeRuneInString_app (c :: p) (drop n s) r size Hdec Hr) as Hwhole.
  rewrite <- Htake, take_drop in Hwhole.
  destruct s as [|c' s]; [by rewrite take_nil in Htake|].
  cbn in Hs. rewrite Hwhole in Hs. cbn in Hs. congruence.
Qed.

Lemma TrimFunc_trimmed (s : list ascii) :
  leftTrimmed unicode.IsSpace (strings.TrimFunc s unicode.IsSpace)
  ∧ rightTrimmed unicode.IsSpace (strings.TrimFunc s unicode.IsSpace).
Proof.
  unfold strings.TrimFunc, strings.TrimRightFunc. split.
  - destruct (trimRightLoop_prefix
                (length (strings.TrimLeftFunc s unicode.IsSpace)) unicode.IsSpace
                (strings.TrimLeftFunc s unicode.IsSpace)) as [n ->].
    apply leftTrimmed_take, TrimLeftFunc_trimmed.
  - by apply trimRightLoop_trimmed.
Qed.

Lemma TrimFunc_fixed (s : list ascii) :
  leftTrimmed unicode.IsSpace s → rightTrimmed unicode.IsSpace s →
  strings.TrimFunc s unicode.IsSpace = s.
Proof.
  intros Hl Hr. unfold strings.TrimFunc, strings.TrimRightFunc.
  rewrite TrimLeftFunc_fixed by done. by apply trimRightLoop_fixed.
Qed.

(** Trimming white space twice is trimming it once. *)
Lemma TrimSpace_idempotent (s : string) :
  strings.TrimSpace (strings.TrimSpace s) = strings.TrimSpace s.
Proof.
  unfold strings.TrimSpace. rewrite list_ascii_of_string_of_list_ascii.
  f_equal. apply TrimFunc_fixed; apply TrimFunc_trimmed.
Qed.

(** ** Lines of output *)

Lemma trimRightLoop_snoc (fuel : nat) (f : Z → bool) (s : list ascii) (c : ascii) :
  byte c < utf8.RuneSelf → f (byte c) = true →
  strings.trimRightLoop (S fuel) f (s ++ [c]) = strings.trimRightLoop fuel f s.
Proof.
  intros Hc Hf. cbn [strings.trimRightLoop].
  rewrite DecodeLastRuneInString_ascii, Hf by done.
  rewrite length_app. cbn [length].
  replace (length s + 1 - 1)%nat with (length s) by lia.
  rewrite take_app_length. by destruct s.
Qed.

(** A line that begins and ends with a plain byte is what [TrimSpace]
    leaves of it and its newline. *)
Lemma TrimFunc_line (c : ascii) (l : list ascii) (d : ascii) :
  plain c → plain d → last (c :: l) = Some d →
  strings.TrimFunc ((c :: l) ++ list_ascii_of_string newline) unicode.IsSpace
  = c :: l.
Proof.
  intros [Hc Hcs] [Hd Hds] Hlast.
  unfold strings.TrimFunc, strings.TrimRightFunc.
  rewrite TrimLeftFunc_fixed.
  2:{ unfold leftTrimmed. cbn [app]. by rewrite DecodeRuneInString_ascii. }
  change (list_ascii_of_string newline) with [chr 10].
  rewrite length_app.
  replace (length (c :: l) + length [chr 10])%nat with (S (length (c :: l)))
    by (cbn; lia).
  rewrite trimRightLoop_snoc by done.
  apply trimRightLoop_fixed. unfold rightTrimmed.
  destruct (last_Some (c :: l) d) as [(l' & Hl') _]; [done|].
  rewrite Hl'. destruct (l' ++ [d]) eqn:Heq; [by destruct l'|]. rewrite <- Heq.
  by rewrite DecodeLastRuneInString_ascii.
Qed.

Lemma hexDigit_plain (z : Z) : plain (Sim.hexDigit z).
Proof.
  unfold Sim.hexDigit.
  assert (Forall plain ["0"; "1"; "2"; "3"; "4"; "5"; "6"; "7";
                        "8"; "9"; "a"; "b"; "c"; "d"; "e"; "f"]%char) as Hall
    by (repeat constructor).
  destruct (nth_in_or_default (Z.to_nat (z mod 16))
              ["0"; "1"; "2"; "3"; "4"; "5"; "6"; "7";
               "8"; "9"; "a"; "b"; "c"; "d"; "e"; "f"]%char "0"%char) as [Hin| ->].
  - rewrite Forall_forall in Hall. by apply Hall, list_elem_of_In.
  - done.
Qed.

Lemma hexDigits_last (width : nat) (z : Z) :
  ∃ d, plain d ∧
       last (list_ascii_of_string (Sim.hexDigits (S width) z)) = Some d.
Proof.
  induction width as [|width IH].
  - exists (Sim.hexDigit (z / 16 ^ 0)). split; [apply hexDigit_plain | done].
  - destruct IH as (d & Hd & Hlast). exists d. split; [done|].
    change (Sim.hexDigits (S (S width)) z)
      with (String (Sim.hexDigit (z / 16 ^ Z.of_nat (S width)))
                   (Sim.hexDigits (S width) z)).
    cbn [list_ascii_of_string]. rewrite last_cons, Hlast. done.
Qed.

Lemma TrimSpace_objectName (n : nat) :
  strings.TrimSpace (Sim.objectName n +:+ newline) = Sim.objectName n.
Proof.
  unfold strings.TrimSpace, Sim.objectName.
  destruct (hexDigits_last 39 (Z.of_nat (S n))) as (d & Hd & Hlast).
  change (Sim.hexDigits 40 (Z.of_nat (S n)))
    with (String (Sim.hexDigit (Z.of_nat (S n) / 16 ^ Z.of_nat 39))
                 (Sim.hexDigits 39 (Z.of_nat (S n)))) in *.
  rewrite append_cons. cbn [list_ascii_of_string] in *.
  assert (∀ s t, list_ascii_of_string (s +:+ t)
                 = list_ascii_of_string s ++ list_ascii_of_string t) as Happ.
  { intros s t. induction s as [|c s IH]; [done|].
    rewrite append_cons. cbn [list_ascii_of_string app]. by rewrite IH. }
  rewrite Happ, app_comm_cons.
  rewrite (TrimFunc_line _ _ d (hexDigit_plain _) Hd Hlast).
  cbn [string_of_list_ascii]. by rewrite string_of_list_ascii_of_string.
Qed.

Lemma objectName_not_empty (n : nat) : Sim.objectName n ≠ "".
Proof. done. Qed.

(** ** Title normalization *)

Lemma ReplaceAll_absent (s old new : string) :
  strings.Contains s old = false → strings.ReplaceAll s old new = s.
Proof.
  unfold strings.ReplaceAll. destruct old as [|o old]; [done|].
  induction s as [|c s IH]; [done|].
  rewrite Contains_cons. intros [Hhere Hlater]%orb_false_elim.
  cbn [strings.replaceFrom]. unfold strings.HasPrefix in Hhere. rewrite Hhere.
  by rewrite IH.
Qed.

Lemma TrimPrefix_absent (s prefix : string) :
  strings.HasPrefix s prefix = false → strings.TrimPrefix s prefix = s.
Proof. unfold strings.TrimPrefix. by intros ->. Qed.

(** ** Lengths after normalization *)

Lemma length_string_of_list_ascii (l : list ascii) :
  String.length (string_of_list_ascii l) = length l.
Proof. induction l as [|c l IH]; [done|]. cbn. by rewrite IH. Qed.

Lemma length_list_ascii_of_string (s : string) :
  length (list_ascii_of_string s) = String.length s.
Proof. induction s as [|c s IH]; [done|]. cbn. by rewrite IH. Qed.

Lemma trimLeftFrom_length (f : Z → bool) (skip : nat) (s : list ascii) :
  (length (strings.trimLeftFrom f skip s) ≤ length s)%nat.
Proof.
  revert skip. induction s as [|c s IH]; intros skip; [done|].
  destruct skip as [|skip]; cbn [strings.trimLeftFrom length].
  - destruct (utf8.DecodeRuneInString (c :: s)) as [r size].
    destruct (f r); [|done]. specialize (IH (size - 1)%nat). lia.
  - specialize (IH skip). lia.
Qed.

Lemma TrimSpace_length (s : string) :
  (String.length (strings.TrimSpace s) ≤ String.length s)%nat.
Proof.
  unfold strings.TrimSpace, strings.TrimFunc, strings.TrimRightFunc.
  rewrite length_string_of_list_ascii.
  destruct (trimRightLoop_prefix
              (length (strings.TrimLeftFunc (list_ascii_of_string s) unicode.IsSpace))
              unicode.IsSpace
              (strings.TrimLeftFunc (list_ascii_of_string s) unicode.IsSpace))
    as [n ->].
  rewrite length_take. unfold strings.TrimLeftFunc.
  pose proof (trimLeftFrom_length unicode.IsSpace 0 (list_ascii_of_string s)).
  rewrite length_list_ascii_of_string in *. lia.
Qed.

Lemma dropString_length (n : nat) (s : string) :
  String.length (strings.dropString n s) = (String.length s - n)%nat.
Proof.
  revert s. induction n as [|n IH]; intros [|c s]; cbn; try done; lia.
Qed.

Lemma TrimPrefix_length (s prefix : string) :
  (String.length (strings.TrimPrefix s prefix) ≤ String.length s)%nat.
Proof.
  unfold strings.TrimPrefix. destruct (strings.HasPrefix s prefix); [|done].
  rewrite dropString_length. lia.
Qed.

(** Deleting the occurrences of a pattern does not lengthen a string,
    and shortens it when there is one. *)
Lemma replaceFrom_delete_length (skip : nat) (s old : string) :
  (String.length (strings.replaceFrom skip s old "") ≤ String.length s)%nat.
Proof.
  revert skip. induction s as [|c s IH]; intros skip; [done|].
  destruct skip as [|skip]; cbn [strings.replaceFrom String.length].
  - destruct (String.prefix old (String c s)).
    + rewrite append_empty_l. specialize (IH (String.length old - 1)%nat). lia.
    + cbn. specialize (IH 0%nat). lia.
  - specialize (IH skip). lia.
Qed.

Lemma ReplaceAll_delete_shorter (s old : string) :
  old ≠ "" → strings.Contains s old = true →
  (String.length (strings.ReplaceAll s old "") < String.length s)%nat.
Proof.
  intros Hold. unfold strings.ReplaceAll. destruct old as [|o old]; [done|].
  induction s as [|c s IH]; [done|].
  rewrite Contains_cons. unfold strings.HasPrefix.
  cbn [strings.replaceFrom String.length].
  destruct (String.prefix (String o old) (String c s)) eqn:Hhere.
  - intros _. rewrite append_empty_l.
    pose proof (replaceFrom_delete_length (S (String.length old) - 1) s (String o old)).
    lia.
  - cbn [orb]. intros Hlater. cbn. specialize (IH Hlater). lia.
Qed.

(** A trimmed title that begins with [*] or holds a sparkle glyph is
    shortened by normalizing it. *)
Lemma cleanTitle_shortens (s : string) :
  strings.TrimSpace s = s →
  strings.HasPrefix s "*" = true ∨ strings.Contains s sparkle = true →
  (String.length (cleanTitle s) < String.length s)%nat.
Proof.
  intros Htrimmed Hwhy. unfold cleanTitle.
  pose proof (TrimSpace_length
                (strings.TrimPrefix
                   (strings.TrimSpace (strings.ReplaceAll s sparkle "")) "*")) as H1.
  pose proof (TrimPrefix_length
                (strings.TrimSpace (strings.ReplaceAll s sparkle "")) "*") as H2.
  pose proof (TrimSpace_length (strings.ReplaceAll s sparkle "")) as H3.
  destruct (strings.Contains s sparkle) eqn:Hsparkle.
  - pose proof (ReplaceAll_delete_shorter s sparkle ltac:(done) Hsparkle). lia.
  - destruct Hwhy as [Hstar|]; [|done].
    rewrite ReplaceAll_absent, Htrimmed in * by done.
    unfold strings.TrimPrefix in *. rewrite Hstar in *.
    rewrite dropString_length in *.
    apply HasPrefix_spec in Hstar as [r ->].
    rewrite length_append in *. cbn [String.length] in *. lia.
Qed.

(** C4.  Normalizing a normalized title changes nothing exactly when
    the normalized title does not begin with [*] and holds no sparkle
    glyph. *)
Theorem cleanTitle_idempotent (title : string) :
  cleanTitle (cleanTitle title) = cleanTitle title
  ↔ strings.HasPrefix (cleanTitle title) "*" = false
    ∧ strings.Contains (cleanTitle title) sparkle = false.
Proof.
  assert (strings.TrimSpace (cleanTitle title) = cleanTitle title) as Htrimmed
    by apply TrimSpace_idempotent.
  split.
  - intros Hsame.
    destruct (strings.HasPrefix (cleanTitle title) "*") eqn:Hstar.
    { pose proof (cleanTitle_shortens _ Htrimmed (or_introl Hstar)). rewrite Hsame in *. lia. }
    destruct (strings.Contains (cleanTitle title) sparkle) eqn:Hsparkle; [|done].
    pose proof (cleanTitle_shortens _ Htrimmed (or_intror Hsparkle)).
    rewrite Hsame in *. lia.
  - intros [Hstar Hsparkle]. unfold cleanTitle at 1.
    rewrite ReplaceAll_absent by done. rewrite Htrimmed.
    rewrite TrimPrefix_absent by done. done.
Qed.

(** C4 (witness). *)
Lemma cleanTitle_idempotent_witness :
  cleanTitle (cleanTitle "  ✳ Add login flow ") = cleanTitle "  ✳ Add login flow ".
Proof. apply cleanTitle_idempotent. split; reflexivity. Defined.

(** C4 (counterexample).  Only one leading [*] is stripped at a time. *)
Lemma cleanTitle_not_idempotent :
  cleanTitle "**a" = "*a"
  ∧ cleanTitle (cleanTitle "**a") = "a"
  ∧ cleanTitle (cleanTitle "**a") ≠ cleanTitle "**a".
Proof. repeat split. discriminate. Qed.

(** ** The worktree validity filter *)

Lemma isWorktreeDirectory_default (os : OS) (dir : string) :
  Getenv os "CATNIP_WORKSPACE_DIR" = "" →
  isWorktreeDirectory os dir = worktreeValid os dir.
Proof.
  intros Henv. unfold isWorktreeDirectory, worktreeValid, getWorkspaceDir.
  rewrite Henv. cbn [String.eqb negb].
  change (defaultWorkspaceDir +:+ "/") with "/workspace/".
  destruct (strings.HasPrefix dir "/workspace/"); [|done]. cbn [negb andb].
  by destruct (isNil _).
Qed.

Section ValidityExample.

Import Sim Scenario.

(** C6.  With [CATNIP_WORKSPACE_DIR=/data], the directory
    [/data/foo/alpha] lies under the configured root and contains a
    [.git] entry, yet [isWorktreeDirectory] refuses it and a title event
    for it is dropped, from [NotifyTitleChange] and from the log alike;
    [/workspace/foo/alpha], outside the configured root, is accepted. *)
Theorem isWorktreeDirectory_ignores_override :
  let os := RelocatedWorkspace.os in
  let w := worldWith (gitWith ∅ true) in
  let llm := suggesting loginFlow in
  getWorkspaceDir os = "/data"
  ∧ worktreeValid os "/data/foo/alpha" = true
  ∧ isWorktreeDirectory os "/data/foo/alpha" = false
  ∧ NotifyTitleChange os monitoring w "/data/foo/alpha" "Add login flow" (instant 0)
    = (monitoring, w, None)
  ∧ readTitlesLogLine os monitoring w RelocatedWorkspace.logLine (instant 0)
    = (monitoring, w, None)
  ∧ worktreeValid os "/workspace/foo/alpha" = false
  ∧ isWorktreeDirectory os "/workspace/foo/alpha" = true.
Proof. repeat split. Qed.

End ValidityExample.

(** ** Session-transcript directory names *)

(** Replacing one byte by another, byte by byte. *)
Lemma replaceFrom_byte (a b c : ascii) (s : string) :
  strings.replaceFrom 0 (String c s) (String a "") (String b "")
  = String (if Ascii.eqb c a then b else c)
           (strings.replaceFrom 0 s (String a "") (String b "")).
Proof.
  cbn [strings.replaceFrom String.prefix String.length Nat.sub].
  destruct (ascii_dec a c) as [->|Hne].
  - rewrite Ascii.eqb_refl. by destruct s.
  - destruct (Ascii.eqb_spec c a) as [->|_]; [done|]. done.
Qed.

Lemma Contains_byte_cons (a c : ascii) (s : string) :
  strings.Contains (String c s) (String a "")
  = Ascii.eqb c a || strings.Contains s (String a "").
Proof.
  rewrite Contains_cons. f_equal. unfold strings.HasPrefix. cbn [String.prefix].
  destruct (ascii_dec a c) as [->|Hne].
  - rewrite Ascii.eqb_refl. by destruct s.
  - by destruct (Ascii.eqb_spec c a) as [->|_].
Qed.

(** Replacing one byte by another keeps the length. *)
Lemma length_replaceFrom_byte (a b : ascii) (s : string) :
  String.length (strings.replaceFrom 0 s (String a "") (String b ""))
  = String.length s.
Proof.
  induction s as [|c s IH]; [done|].
  rewrite replaceFrom_byte. cbn [String.length]. by rewrite IH.
Qed.

(** Turning every [a] into [b] and then every [b] into [a] is turning
    every [b] into [a]: the [a]s come back as they were. *)
Lemma replaceFrom_byte_back (a b : ascii) (s : string) :
  strings.replaceFrom 0 (strings.replaceFrom 0 s (String a "") (String b ""))
                      (String b "") (String a "")
  = strings.replaceFrom 0 s (String b "") (String a "").
Proof.
  induction s as [|c s IH]; [done|].
  rewrite !replaceFrom_byte, IH. f_equal.
  destruct (Ascii.eqb_spec c a) as [->|Hca].
  - rewrite Ascii.eqb_refl. by destruct (Ascii.eqb a b).
  - done.
Qed.

(** C8.  The name of the transcript directory of an absolute worktree
    path is not decoded to that path: [getWorktreePathFromSessionFile]
    drops the leading [-], which stands for the leading [/], before it
    turns every [-] into [/].  What it returns is the path without its
    leading [/] (and with every [-] of its own turned into [/]), never
    the path. *)
Theorem getWorktreePathFromSessionFile_drops_root (p sessionFilePath : string) :
  strings.HasPrefix p "/" = true →
  filepath.Base (filepath.Dir sessionFilePath) = encodeWorktreePath p →
  getWorktreePathFromSessionFile sessionFilePath
    = strings.ReplaceAll (strings.dropString 1 p) "-" "/"
  ∧ getWorktreePathFromSessionFile sessionFilePath ≠ p.
Proof.
  intros Habs Hname.
  destruct p as [|c rest]; [done|].
  unfold strings.HasPrefix in Habs. cbn [String.prefix] in Habs.
  destruct (ascii_dec "/" c) as [<-|]; [|done].
  assert (getWorktreePathFromSessionFile sessionFilePath
          = strings.ReplaceAll rest "-" "/") as Hdecoded.
  { unfold getWorktreePathFromSessionFile. rewrite Hname.
    unfold encodeWorktreePath, strings.ReplaceAll. rewrite replaceFrom_byte.
    cbn [Ascii.eqb Bool.eqb]. unfold strings.HasPrefix. cbn [String.prefix].
    destruct (ascii_dec "-" "-") as [_|]; [|done].
    assert (String.prefix "" (strings.replaceFrom 0 rest "/" "-") = true) as ->
      by (by destruct (strings.replaceFrom 0 rest "/" "-")).
    cbn [strings.dropString]. apply replaceFrom_byte_back. }
  split; [done|].
  rewrite Hdecoded. intros Hsame. apply (f_equal String.length) in Hsame.
  unfold strings.ReplaceAll in Hsame. rewrite length_replaceFrom_byte in Hsame.
  cbn [String.length] in Hsame. lia.
Qed.

(** C8 (witness).  The example of the function's own comment: the
    directory [-workspace-catnip-coal] of the worktree
    [/workspace/catnip/coal]. *)
Lemma getWorktreePathFromSessionFile_drops_root_witness :
  encodeWorktreePath "/workspace/catnip/coal" = "-workspace-catnip-coal"
  ∧ getWorktreePathFromSessionFile
      "/home/catnip/.claude/projects/-workspace-catnip-coal/session-uuid.jsonl"
    = "workspace/catnip/coal"
  ∧ getWorktreePathFromSessionFile
      "/home/catnip/.claude/projects/-workspace-catnip-coal/session-uuid.jsonl"
    ≠ "/workspace/catnip/coal".
Proof.
  split; [reflexivity|].
  apply (getWorktreePathFromSessionFile_drops_root "/workspace/catnip/coal");
    reflexivity.
Defined.

(** ** Cross-source deduplication of title events *)


Lemma evictBefore_lookup (cutoff : Z) (recent : gmap string titleEvent)
    (key : string) (ev : titleEvent) :
  evictBefore cutoff recent !! key = Some ev
  ↔ recent !! key = Some ev ∧ time.Before (ev_timestamp ev) cutoff = false.
Proof. unfold evictBefore. by rewrite map_lookup_filter_Some. Qed.

Lemma evictBefore_lookup_None (cutoff : Z) (recent : gmap string titleEvent)
    (key : string) :
  recent !! key = None → evictBefore cutoff recent !! key = None.
Proof.
  intros Hnone. unfold evictBefore. apply map_lookup_filter_None. by left.
Qed.

(** An event whose key is not in the table is recorded and forwarded. *)
Lemma recordTitle_fresh recent workDir newTitle source clk :
  recent !! titleKey workDir newTitle = None →
  ∃ recent',
    recordTitle recent workDir newTitle source clk = (recent', true)
    ∧ recent' !! titleKey workDir newTitle
      = Some {| ev_title := newTitle; ev_timestamp := now_record clk;
                ev_source := source |}.
Proof.
  intros Hnone. unfold recordTitle.
  rewrite evictBefore_lookup_None by done.
  eexists. split; [done|]. apply lookup_insert_eq.
Qed.


Lemma withinWindow_earlier (recorded t t' : Z) :
  t ≤ t' → withinWindow recorded t' → withinWindow recorded t.
Proof.
  unfold withinWindow, time.Before, time.Add. rewrite !Z.ltb_ge. lia.
Qed.

Lemma recordTitles_app recent (l1 l2 : list titleArrival) :
  recordTitles recent (l1 ++ l2)
  = let '(recent1, flags1) := recordTitles recent l1 in
    let '(recent2, flags2) := recordTitles recent1 l2 in
    (recent2, flags1 ++ flags2).
Proof.
  revert recent. induction l1 as [|e l1 IH]; intros recent.
  - cbn. by destruct (recordTitles recent l2).
  - cbn [app recordTitles].
    destruct (recordTitle recent _ _ _ _) as [recent0 f]. rewrite IH.
    destruct (recordTitles recent0 l1) as [recent1 flags1].
    by destruct (recordTitles recent1 l2).
Qed.







Section DeduplicationExamples.

Import RefactorCache.



End DeduplicationExamples.

(** ** Calls one after the other *)

Section Sequential.

Context {G St R C : Type}.
Context {ops : Operations G} {pkg : GitPackage} {store : SessionService St}
        {reg : Registry G R} {cps : CheckpointManager C} {llm : ClaudeService}.
Context {tables : strconv.PrintTables}.

(** A call that runs its three critical sections with no other call in
    between does what [handleTitleChange] does. *)
Lemma runSchedule_alone (s : ClaudeMonitorService C) (w : world G St R)
    (e : titleArrival) :
  let sys := runSchedule (startWith s w [e]) [0; 0; 0]%nat in
  (sys_monitor sys, sys_world sys, head (sys_started sys))
  = handleTitleChange s w (arr_workDir e) (arr_title e) (arr_source e) (arr_clock e).
Proof.
  unfold handleTitleChange, runSchedule, startWith. cbn [fold_left fmap list_fmap].
  unfold stepCall at 3. cbn.
  destruct (recordTitle (recentTitles s) _ _ _ _) as [recent [|]]; cbn; [|done].
  unfold obtainManager. cbn.
  destruct (checkpointManagers s !! arr_workDir e) as [m|] eqn:Hm; cbn.
  - rewrite Hm.
    destruct (HandleTitleChange m w (arr_title e)) as [[m' w'] [t|]]; done.
  - rewrite lookup_insert_eq.
    destruct (HandleTitleChange _ w (arr_title e)) as [[m' w'] [t|]]; done.
Qed.

End Sequential.

(** ** At most one checkpoint manager per worktree *)

Section OneManager.

Context {G St R C : Type}.
Context {ops : Operations G} {pkg : GitPackage} {store : SessionService St}
        {reg : Registry G R} {cps : CheckpointManager C} {llm : ClaudeService}.
Context {tables : strconv.PrintTables}.

(** After a call has moved to a stage other than [AtManager], the calls
    that are at [AtManager] are calls that were there before. *)
Lemma holder_after_move (calls : list titleCall) (i : nat) (c : titleCall)
    (st : stage) (j : nat) (c' : titleCall) :
  st ≠ AtManager →
  <[i := atStage c st]> calls !! j = Some c' →
  call_stage c' = AtManager →
  calls !! j = Some c'.
Proof.
  intros Hst Hj Hstage. destruct (decide (i = j)) as [->|Hne].
  - destruct (decide (j < length calls)%nat) as [Hlt|Hge].
    + rewrite list_lookup_insert_eq in Hj by done.
      injection Hj as <-. by cbn in Hstage.
    + by rewrite list_insert_ge in Hj by lia.
  - by rewrite list_lookup_insert_ne in Hj.
Qed.

Lemma stepCall_oneManagerEach (before : gset string) (sys : system G St R C)
    (i : nat) :
  oneManagerEach before sys → oneManagerEach before (stepCall sys i).
Proof.
  intros [Honce Hunseen Hexactly Hholder]. unfold stepCall.
  destruct (sys_calls sys !! i) as [c|] eqn:Hi; [|done].
  destruct (call_stage c) eqn:Hstage.
  - (* the recent-title table *)
    destruct (recordTitle _ _ _ _ _) as [recent forwarded].
    split; cbn; [done | done | done |].
    intros j c' Hj Hc'. apply (Hholder j c'); [|done].
    eapply holder_after_move; [|done|done]. by destruct forwarded.
  - (* the manager map *)
    unfold obtainManager.
    destruct (checkpointManagers (sys_monitor sys) !! call_workDir c) as [m|] eqn:Hm.
    + assert (call_workDir c ∈ managed sys) as Hin
        by (apply elem_of_dom; by eexists).
      split; cbn; [done | done | done |].
      intros j c' Hj Hc'. destruct (decide (i = j)) as [->|Hne].
      * rewrite list_lookup_insert_eq in Hj by (by eapply lookup_lt_Some).
        by injection Hj as <-.
      * rewrite list_lookup_insert_ne in Hj by done. by apply (Hholder j c').
    + assert (call_workDir c ∉ managed sys) as Hnotin
        by (by apply not_elem_of_dom).
      assert ((call_workDir c ∉ before) ∧ (call_workDir c ∉ sys_created sys))
        as [Hnew Hfirst].
      { rewrite Hexactly, not_elem_of_union, not_elem_of_list_to_set in Hnotin.
        done. }
      split; unfold managed; cbn.
      * apply NoDup_app. repeat split; [done | | apply NoDup_singleton].
        intros p Hp Hp'. apply list_elem_of_singleton in Hp' as ->. done.
      * intros p Hp. apply elem_of_app in Hp as [Hp|Hp]; [by apply Hunseen|].
        by apply list_elem_of_singleton in Hp as ->.
      * rewrite dom_insert_L, list_to_set_app_L. fold (managed sys).
        rewrite Hexactly. apply set_eq. intros p.
        rewrite !elem_of_union, !elem_of_list_to_set, elem_of_singleton,
          list_elem_of_singleton. tauto.
      * intros j c' Hj Hc'. rewrite dom_insert_L. fold (managed sys).
        destruct (decide (i = j)) as [->|Hne].
        -- rewrite list_lookup_insert_eq in Hj by (by eapply lookup_lt_Some).
           injection Hj as <-. apply elem_of_union_l. by apply elem_of_singleton.
        -- rewrite list_lookup_insert_ne in Hj by done.
           apply elem_of_union_r. by apply (Hholder j c').
  - (* the manager itself *)
    destruct (checkpointManagers (sys_monitor sys) !! call_workDir c) as [m|] eqn:Hm.
    + assert (call_workDir c ∈ managed sys) as Hin
        by (apply elem_of_dom; by eexists).
      destruct (HandleTitleChange m (sys_world sys) (call_title c))
        as [[m' w'] started].
      assert (dom (<[call_workDir c := m']> (checkpointManagers (sys_monitor sys)))
              = managed sys) as Hsame.
      { rewrite dom_insert_L. fold (managed sys).
        apply subseteq_union_1_L. by apply singleton_subseteq_l. }
      split; unfold managed; cbn; rewrite ?Hsame; [done | done | done |].
      intros j c' Hj Hc'. apply (Hholder j c'); [|done].
      eapply holder_after_move; [|done|done]. done.
    + split; cbn; [done | done | done |].
      intros j c' Hj Hc'. apply (Hholder j c'); [|done].
      eapply holder_after_move; [|done|done]. done.
  - done.
Qed.

Lemma runSchedule_oneManagerEach (before : gset string) (sys : system G St R C)
    (schedule : list nat) :
  oneManagerEach before sys → oneManagerEach before (runSchedule sys schedule).
Proof.
  revert sys. induction schedule as [|i schedule IH]; intros sys Hinv; [done|].
  apply IH. by apply stepCall_oneManagerEach.
Qed.

(** C5.  However the critical sections of concurrent
    [handleTitleChange] calls are interleaved, each worktree path gets at
    most one manager: a manager is created only for a path that has none
    (not before the run and not from an earlier creation), the map holds
    exactly the paths managed before and those a manager was created for,
    and every call that goes on to its manager finds the manager of its
    path in the map. *)
Theorem at_most_one_manager_per_worktree (s : ClaudeMonitorService C)
    (w : world G St R) (events : list titleArrival) (schedule : list nat) :
  oneManagerEach (dom (checkpointManagers s))
                 (runSchedule (startWith s w events) schedule).
Proof.
  apply runSchedule_oneManagerEach. split; cbn.
  - apply NoDup_nil_2.
  - intros p Hp. by apply elem_of_nil in Hp.
  - unfold managed. cbn. by rewrite (right_id_L ∅ (∪)).
  - intros i c Hc Hstage. apply list_lookup_fmap_Some in Hc as (e & -> & _).
    by cbn in Hstage.
Qed.

End OneManager.

Section OneManagerExample.

Import Sim Scenario TwoCallers.

(** C5 (witness).  Two calls for [alpha], which has no manager, reach
    the manager map one after the other before either uses its manager:
    one manager is created for [alpha] and one for [beta]. *)
Lemma at_most_one_manager_per_worktree_witness :
  let sys := runSchedule (startWith idle (worldWith (gitWith ∅ true)) events)
                         schedule in
  sys_created sys = [alpha; "/workspace/foo/beta"]
  ∧ NoDup (sys_created sys)
  ∧ managed sys = list_to_set (sys_created sys).
Proof.
  intros sys.
  destruct (at_most_one_manager_per_worktree idle
              (worldWith (gitWith ∅ true)) events schedule)
    as [Honce _ Hexactly _].
  fold sys in Honce, Hexactly.
  split; [reflexivity|]. split; [exact Honce|].
  rewrite Hexactly. change (dom (checkpointManagers idle)) with (∅ : gset string).
  apply (left_id_L ∅ (∪)).
Defined.

End OneManagerExample.

(** ** Committing in the in-memory git *)

Section SimCommit.

Import Sim.

Lemma fails_never (g : Git) (args : list string) :
  failing g = [] → fails g args = false.
Proof.
  intros Hnone. unfold fails. rewrite Hnone. apply bool_decide_eq_false_2.
  apply not_elem_of_nil.
Qed.

Lemma executeGit_run (g : Git) (dir : string) (t : Tree) (args : list string) :
  trees g !! dir = Some t → failing g = [] →
  executeGit g dir args = (setTree g dir (run t args).1, (run t args).2).
Proof.
  intros Ht Hnone. unfold executeGit. rewrite Ht, fails_never by done.
  by destruct (run t args).
Qed.

Lemma setTree_lookup (g : Git) (dir : string) (t : Tree) :
  trees (setTree g dir t) !! dir = Some t.
Proof. apply lookup_insert_eq. Qed.

Lemma setTree_setTree (g : Git) (dir : string) (t t' : Tree) :
  setTree (setTree g dir t) dir t' = setTree g dir t'.
Proof. unfold setTree. cbn. by rewrite insert_insert_eq. Qed.

Lemma setTree_same (g : Git) (dir : string) (t : Tree) :
  trees g !! dir = Some t → setTree g dir t = g.
Proof. intros Ht. destruct g. unfold setTree. cbn in *. by rewrite insert_id. Qed.

Lemma stageAll_clean (t : Tree) : dirty t = false → stageAll t = t.
Proof.
  unfold dirty. intros [Hu Hs]%orb_false_elim. destruct t. cbn in *. by subst.
Qed.

(** Outside a repository nothing is done. *)
Lemma GitAddCommitGetHash_outside (g : Git) (dir message : string) :
  trees g !! dir = None →
  GitAddCommitGetHash g dir message = (g, ("", noError)).
Proof.
  intros Hnone. unfold GitAddCommitGetHash. cbn [IsGitRepository operations].
  rewrite Hnone. by rewrite bool_decide_eq_false_2 by (by intros [? ?]).
Qed.

(** With nothing to commit nothing is done. *)
Lemma GitAddCommitGetHash_clean (g : Git) (dir message : string) (t : Tree) :
  trees g !! dir = Some t → failing g = [] → dirty t = false →
  GitAddCommitGetHash g dir message = (g, ("", noError)).
Proof.
  intros Ht Hnone Hclean. unfold GitAddCommitGetHash, runGitCommand.
  cbn [IsGitRepository ExecuteGit operations].
  rewrite Ht, bool_decide_eq_true_2 by done. cbn [negb].
  rewrite (executeGit_run g dir t) by done. cbn [run fst snd isNil negb noError].
  rewrite stageAll_clean, setTree_same by done.
  rewrite (executeGit_run g dir t) by done. cbn [run fst snd].
  apply orb_false_elim in Hclean as [_ ->]. cbn. by rewrite setTree_same.
Qed.

(** With changes in the tree or in the index, everything is staged and
    committed past the hooks, and the name of the new commit comes
    back. *)
Lemma GitAddCommitGetHash_dirty (g : Git) (dir message : string) (t : Tree) :
  trees g !! dir = Some t → failing g = [] → dirty t = true →
  GitAddCommitGetHash g dir message
  = (setTree g dir (commit (stageAll t) message true),
     (objectName (length (headCommits t)), noError)).
Proof.
  intros Ht Hnone Hdirty. unfold GitAddCommitGetHash, runGitCommand.
  cbn [IsGitRepository ExecuteGit operations].
  rewrite Ht, bool_decide_eq_true_2 by done. cbn [negb].
  rewrite (executeGit_run g dir t) by done. cbn [run fst snd isNil negb noError].
  rewrite (executeGit_run _ dir (stageAll t)) by (done || apply setTree_lookup).
  cbn [run fst snd]. rewrite setTree_setTree.
  assert (tree_staged (stageAll t) = true) as Hstaged.
  { unfold dirty in Hdirty. cbn. by rewrite orb_comm. }
  rewrite Hstaged. cbn [isNil].
  rewrite (executeGit_run _ dir (stageAll t)) by (done || apply setTree_lookup).
  cbn [run fst snd]. rewrite Hstaged. cbn [fst snd isNil negb].
  rewrite setTree_setTree.
  rewrite (executeGit_run _ dir (commit (stageAll t) message true))
    by (done || apply setTree_lookup).
  rewrite setTree_setTree.
  assert (headCommits (commit (stageAll t) message true)
          = {| commit_hash := objectName (length (headCommits t));
               commit_message := message;
               commit_noVerify := true |} :: headCommits t) as Hhead.
  { unfold headCommits. cbn. by rewrite lookup_insert_eq. }
  cbn [run]. rewrite Hhead. cbn [fst snd isNil negb commit_hash].
  by rewrite TrimSpace_objectName.
Qed.

Lemma fails_setTree (g : Git) (dir : string) (t : Tree) (args : list string) :
  fails (setTree g dir t) args = fails g args.
Proof. done. Qed.

Lemma executeGit_step (g : Git) (dir : string) (t : Tree) (args : list string) :
  trees g !! dir = Some t →
  executeGit g dir args
  = if fails g args then (g, (EmptyString, Some "exit status 1"))
    else (setTree g dir (run t args).1, (run t args).2).
Proof.
  intros Ht. unfold executeGit. rewrite Ht.
  destruct (fails g args); [done|]. by destruct (run t args).
Qed.

(** [GitAddCommitGetHash] in a repository, whichever commands fail. *)
Lemma GitAddCommitGetHash_cases (g : Git) (dir message : string) (t : Tree) :
  trees g !! dir = Some t →
  GitAddCommitGetHash g dir message
  = if fails g ["add"; "."] then
      (g, ("", Some "git add failed: exit status 1, output: "))
    else if negb (dirty t) && negb (fails g ["diff"; "--cached"; "--quiet"]) then
      (g, ("", noError))
    else if fails g ["commit"; "-m"; message; "-n"] then
      (setTree g dir (stageAll t),
       ("", Some "git commit failed: exit status 1, output: "))
    else if negb (dirty t) then
      (g, ("", Some "git commit failed: exit status 1, output: nothing to commit"))
    else if fails g ["rev-parse"; "HEAD"] then
      (setTree g dir (commit (stageAll t) message true),
       ("", Some "git rev-parse failed: exit status 1"))
    else
      (setTree g dir (commit (stageAll t) message true),
       (objectName (length (headCommits t)), noError)).
Proof.
  intros Ht. unfold GitAddCommitGetHash, runGitCommand.
  cbn [IsGitRepository ExecuteGit operations].
  rewrite Ht, bool_decide_eq_true_2 by done. cbn [negb].
  rewrite (executeGit_step g dir t) by done.
  destruct (fails g ["add"; "."]); [done|].
  cbn [run fst snd isNil negb noError].
  rewrite (executeGit_step _ dir (stageAll t)) by apply setTree_lookup.
  rewrite fails_setTree, setTree_setTree.
  assert (tree_staged (stageAll t) = dirty t) as Hstaged
    by (unfold dirty; cbn; apply orb_comm).
  assert (dirty t = false → setTree g dir (stageAll t) = g) as Hclean
    by (intros Hc; by rewrite stageAll_clean, setTree_same).
  destruct (fails g ["diff"; "--cached"; "--quiet"]) eqn:Hdiff;
    cbn [run fst snd isNil]; rewrite ?Hstaged.
  - (* the check for staged changes fails: the commit is tried *)
    rewrite andb_false_r.
    rewrite (executeGit_step _ dir (stageAll t)) by apply setTree_lookup.
    rewrite fails_setTree, setTree_setTree.
    destruct (fails g ["commit"; "-m"; message; "-n"]); [done|].
    cbn [run]. rewrite Hstaged.
    destruct (dirty t) eqn:Hdirty; cbn [fst snd isNil negb].
    + rewrite (executeGit_step _ dir (commit (stageAll t) message true))
        by apply setTree_lookup.
      rewrite fails_setTree, setTree_setTree.
      destruct (fails g ["rev-parse"; "HEAD"]); [done|].
      assert (headCommits (commit (stageAll t) message true)
              = {| commit_hash := objectName (length (headCommits t));
                   commit_message := message;
                   commit_noVerify := true |} :: headCommits t) as Hhead.
      { unfold headCommits. cbn. by rewrite lookup_insert_eq. }
      cbn [run]. rewrite Hhead. cbn [fst snd isNil negb commit_hash].
      by rewrite TrimSpace_objectName.
    + by rewrite Hclean.
  - destruct (dirty t) eqn:Hdirty; cbn [negb andb isNil].
    + rewrite (executeGit_step _ dir (stageAll t)) by apply setTree_lookup.
      rewrite fails_setTree, setTree_setTree.
      destruct (fails g ["commit"; "-m"; message; "-n"]); [done|].
      cbn [run]. rewrite Hstaged. cbn [fst snd isNil negb].
      rewrite (executeGit_step _ dir (commit (stageAll t) message true))
        by apply setTree_lookup.
      rewrite fails_setTree, setTree_setTree.
      destruct (fails g ["rev-parse"; "HEAD"]); [done|].
      assert (headCommits (commit (stageAll t) message true)
              = {| commit_hash := objectName (length (headCommits t));
                   commit_message := message;
                   commit_noVerify := true |} :: headCommits t) as Hhead.
      { unfold headCommits. cbn. by rewrite lookup_insert_eq. }
      cbn [run]. rewrite Hhead. cbn [fst snd isNil negb commit_hash].
      by rewrite TrimSpace_objectName.
    + by rewrite Hclean.
Qed.

End SimCommit.

(** ** Committing the previous title's work, and stopping *)

Section PendingWork.

Import Sim.

Context {St R C : Type}.
Context {store : SessionService St} {reg : Registry Git R}
        {cps : CheckpointManager C}.

Lemma setGit_same (w : world Git St R) : setGit w (git w) = w.
Proof. by destruct w. Qed.

(** What [commitPreviousWork] does, by the state of the worktree. *)
Lemma commitPreviousWork_cases (m : WorktreeCheckpointManager C)
    (w : world Git St R) (title : string) :
  gitService m = true →
  failing (git w) = [] →
  match trees (git w) !! workDir m with
  | Some t =>
    if dirty t then
      let hash := objectName (length (headCommits t)) in
      let g' := setTree (git w) (workDir m) (commit (stageAll t) title true) in
      commitPreviousWork m w title
      = ({| workDir := workDir m;
            checkpointManager := UpdateLastCommitTime (checkpointManager m);
            gitService := gitService m;
            currentTitle := currentTitle m;
            checkpointTimer := checkpointTimer m;
            renamingInProgress := renamingInProgress m |},
         {| git := g';
            sessions := (UpdatePreviousTitleCommitHash (sessions w) (workDir m) hash).1;
            registry := (RefreshWorktreeStatus g' (registry w) (workDir m)).1 |})
    else commitPreviousWork m w title = (m, w)
  | None => commitPreviousWork m w title = (m, w)
  end.
Proof.
  intros Hsvc Hnone. unfold commitPreviousWork. rewrite Hsvc. cbn [negb].
  destruct (trees (git w) !! workDir m) as [t|] eqn:Ht.
  - destruct (dirty t) eqn:Hdirty.
    + rewrite (GitAddCommitGetHash_dirty _ _ _ t) by done.
      cbn [isNil negb noError].
      destruct (String.eqb_spec (objectName (length (headCommits t))) "") as [He|_];
        [by apply objectName_not_empty in He|].
      cbn [negb workDir].
      destruct (UpdatePreviousTitleCommitHash _ _ _) as [s' e1].
      by destruct (RefreshWorktreeStatus _ _ _) as [r' e2].
    + rewrite (GitAddCommitGetHash_clean _ _ _ t) by done.
      cbn. by rewrite setGit_same.
  - rewrite GitAddCommitGetHash_outside by done. cbn. by rewrite setGit_same.
Qed.

(** C7.  [GitAddCommitGetHash] stages everything and commits with
    [-n], past the commit hooks.  Outside a repository, or with nothing
    staged after [git add .], it returns the empty hash and no error,
    and [commitPreviousWork] leaves the world, its session store and
    registry included, as it was.  With changes staged, when [git
    commit] and [git rev-parse HEAD] succeed the hash of the new HEAD
    commit comes back, that commit carries the title, the session store
    is the one [UpdatePreviousTitleCommitHash] gives for this hash and
    the registry the one [RefreshWorktreeStatus] gives.  When [git add],
    [git commit] or [git rev-parse] fails, the hash is empty, there is an
    error, and the session store and the registry stay as they were:
    after a failed [git add] nothing has changed, after a failed [git
    commit] the changes are staged, after a failed [git rev-parse] the
    commit is made.  A manager without a git service does nothing. *)
Theorem commitPreviousWork_behaviour (m : WorktreeCheckpointManager C)
    (w : world Git St R) (title : string) :
  let g := git w in
  let dir := workDir m in
  let '(g', (hash, err)) := GitAddCommitGetHash g dir title in
  let w' := (commitPreviousWork m w title).2 in
  (gitService m = false → w' = w)
  ∧ match trees g !! dir with
    | Some t =>
      if fails g ["add"; "."] then
        g' = g ∧ hash = "" ∧ err ≠ noError ∧ w' = w
      else if negb (dirty t) && negb (fails g ["diff"; "--cached"; "--quiet"]) then
        g' = g ∧ hash = "" ∧ err = noError ∧ w' = w
      else if negb (dirty t) || fails g ["commit"; "-m"; title; "-n"] then
        g' = setTree g dir (stageAll t) ∧ hash = "" ∧ err ≠ noError
        ∧ (gitService m = true → w' = setGit w g')
      else
        let t' := commit (stageAll t) title true in
        g' = setTree g dir t'
        ∧ headCommits t'
          = {| commit_hash := objectName (length (headCommits t));
               commit_message := title;
               commit_noVerify := true |} :: headCommits t
        ∧ dirty t' = false
        ∧ if fails g ["rev-parse"; "HEAD"] then
            hash = "" ∧ err ≠ noError ∧ (gitService m = true → w' = setGit w g')
          else
            hash = objectName (length (headCommits t)) ∧ hash ≠ "" ∧ err = noError
            ∧ (gitService m = true →
               w' = {| git := g';
                       sessions :=
                         (UpdatePreviousTitleCommitHash (sessions w) dir hash).1;
                       registry := (RefreshWorktreeStatus g' (registry w) dir).1 |})
    | None => g' = g ∧ hash = "" ∧ err = noError ∧ w' = w
    end.
Proof.
  cbn zeta. unfold commitPreviousWork.
  destruct (trees (git w) !! workDir m) as [t|] eqn:Ht.
  2:{ rewrite GitAddCommitGetHash_outside by done.
      cbn [isNil negb noError String.eqb]. rewrite setGit_same.
      by destruct (gitService m). }
  rewrite (GitAddCommitGetHash_cases _ _ _ t Ht).
  assert (dirty t = false → setTree (git w) (workDir m) (stageAll t) = git w)
    as Hclean by (intros Hc; by rewrite stageAll_clean, setTree_same).
  assert (headCommits (commit (stageAll t) title true)
          = {| commit_hash := objectName (length (headCommits t));
               commit_message := title;
               commit_noVerify := true |} :: headCommits t) as Hhead.
  { unfold headCommits. cbn. by rewrite lookup_insert_eq. }
  destruct (fails (git w) ["add"; "."]).
  { cbn [isNil negb]. rewrite setGit_same. by destruct (gitService m). }
  destruct (dirty t) eqn:Hdirty; cbn [negb andb orb].
  - destruct (fails (git w) ["commit"; "-m"; title; "-n"]).
    { cbn [isNil negb]. by destruct (gitService m). }
    destruct (fails (git w) ["rev-parse"; "HEAD"]).
    { cbn [isNil negb]. by destruct (gitService m). }
    cbn [isNil negb noError].
    destruct (String.eqb_spec (objectName (length (headCommits t))) "") as [He|_];
      [by apply objectName_not_empty in He|].
    cbn [negb workDir].
    destruct (UpdatePreviousTitleCommitHash _ _ _) as [s' e1].
    destruct (RefreshWorktreeStatus _ _ _) as [r' e2].
    destruct (gitService m); cbn [negb snd fst]; by repeat split.
  - destruct (fails (git w) ["diff"; "--cached"; "--quiet"]).
    + rewrite Hclean by done.
      destruct (fails (git w) ["commit"; "-m"; title; "-n"]);
        cbn [isNil negb]; by destruct (gitService m).
    + cbn [isNil negb noError String.eqb]. rewrite setGit_same.
      by destruct (gitService m).
Qed.

(** C2.  [Stop] cancels the pending timer.  When a title is current,
    the worktree is dirty, the manager has a git service and [git add]
    succeeds, then if [git commit] succeeds [Stop] adds exactly one
    commit, at the head of the current branch and with the current
    title as its message, and if [git commit] fails it adds none and
    leaves the changes staged.  In every other case, with no current
    title, a clean worktree, no repository, no git service or a failing
    [git add], it leaves the repositories as they were. *)
Theorem Stop_commits_pending_work (m : WorktreeCheckpointManager C)
    (w : world Git St R) :
  let '(m', w') := Stop m w in
  checkpointTimer m' = stopTimer <$> checkpointTimer m
  ∧ (∀ timer, checkpointTimer m' = Some timer → timer_armed timer = false)
  ∧ match trees (git w) !! workDir m with
    | Some t =>
      if negb (String.eqb (currentTitle m) "") && dirty t && gitService m
         && negb (fails (git w) ["add"; "."])
      then
        if fails (git w) ["commit"; "-m"; currentTitle m; "-n"] then
          git w' = setTree (git w) (workDir m) (stageAll t)
        else
          ∃ t' c,
            trees (git w') = <[workDir m := t']> (trees (git w))
            ∧ tree_HEAD t' = tree_HEAD t
            ∧ tree_refs t' = <[tree_HEAD t := c :: headCommits t]> (tree_refs t)
            ∧ commit_message c = currentTitle m
      else git w' = git w
    | None => git w' = git w
    end.
Proof.
  unfold Stop. cbn [currentTitle].
  set (m0 := {| workDir := workDir m;
                checkpointManager := checkpointManager m;
                gitService := gitService m;
                currentTitle := currentTitle m;
                checkpointTimer := stopTimer <$> checkpointTimer m;
                renamingInProgress := renamingInProgress m |}).
  assert (∀ timer, stopTimer <$> checkpointTimer m = Some timer →
                   timer_armed timer = false) as Hstopped.
  { intros timer. destruct (checkpointTimer m) as [t0|]; [|done].
    by intros [= <-]. }
  destruct (String.eqb_spec (currentTitle m) "") as [Hnotitle|Htitle]; cbn [negb andb].
  { repeat split; [done|]. by destruct (trees (git w) !! workDir m). }
  unfold commitPreviousWork. cbn [gitService workDir m0].
  destruct (trees (git w) !! workDir m) as [t|] eqn:Ht.
  2:{ rewrite GitAddCommitGetHash_outside by done.
      cbn [isNil negb noError String.eqb]. rewrite setGit_same.
      by destruct (gitService m). }
  rewrite (GitAddCommitGetHash_cases _ _ _ t Ht).
  assert (dirty t = false → setTree (git w) (workDir m) (stageAll t) = git w)
    as Hclean by (intros Hc; by rewrite stageAll_clean, setTree_same).
  destruct (gitService m); cbn [negb andb]; [|by rewrite andb_false_r].
  rewrite andb_true_r.
  destruct (fails (git w) ["add"; "."]); cbn [negb andb].
  { rewrite andb_false_r. cbn [isNil negb]. by rewrite setGit_same. }
  rewrite andb_true_r.
  destruct (dirty t) eqn:Hdirty; cbn [negb andb orb].
  - destruct (fails (git w) ["commit"; "-m"; currentTitle m; "-n"]).
    { by cbn [isNil negb]. }
    assert (∃ t' c,
              trees (setTree (git w) (workDir m)
                       (commit (stageAll t) (currentTitle m) true))
              = <[workDir m := t']> (trees (git w))
              ∧ tree_HEAD t' = tree_HEAD t
              ∧ tree_refs t' = <[tree_HEAD t := c :: headCommits t]> (tree_refs t)
              ∧ commit_message c = currentTitle m) as Hcommit
      by (eexists _, _; by repeat split).
    destruct (fails (git w) ["rev-parse"; "HEAD"]); [by cbn [isNil negb]|].
    cbn [isNil negb noError].
    destruct (String.eqb_spec (objectName (length (headCommits t))) "") as [He|_];
      [by apply objectName_not_empty in He|].
    cbn [negb workDir].
    destruct (UpdatePreviousTitleCommitHash _ _ _) as [s' e1].
    by destruct (RefreshWorktreeStatus _ _ _) as [r' e2].
  - destruct (fails (git w) ["diff"; "--cached"; "--quiet"]).
    + rewrite Hclean by done.
      destruct (fails (git w) ["commit"; "-m"; currentTitle m; "-n"]);
        cbn [isNil negb]; by rewrite ?setGit_same.
    + cbn [isNil negb noError String.eqb]. by rewrite setGit_same.
Qed.

End PendingWork.

Section PendingWorkExamples.

Import Sim Scenario.

(** C7 (witness).  The worktree [alpha] with uncommitted changes and a
    commit hook that refuses every commit: the work is committed past
    the hook and the session entry of [Draft docs] acquires the hash. *)
Lemma commitPreviousWork_behaviour_witness :
  let w := worldWith (gitWith ∅ true) in
  (GitAddCommitGetHash (git w) alpha "Draft docs").2 = (objectName 0, noError)
  ∧ sessions (commitPreviousWork drafting w "Draft docs").2 !! alpha
    = Some [{| entry_title := "Draft docs"; entry_hash := objectName 0 |}]
  ∧ registry (commitPreviousWork drafting w "Draft docs").2 !! alpha
    = Some {| status_branch := otter; status_commits := 1 |}.
Proof.
  intros w.
  pose proof (commitPreviousWork_behaviour drafting w "Draft docs") as Hcommit.
  cbn zeta in Hcommit. change (workDir drafting) with alpha in Hcommit.
  destruct (GitAddCommitGetHash (git w) alpha "Draft docs") as [g' [hash err]].
  destruct Hcommit as [_ Hcommit].
  change (trees (git w) !! alpha) with (Some (treeWith ∅ true)) in Hcommit.
  vm_compute (fails _ _) in Hcommit. vm_compute (dirty _) in Hcommit.
  cbn [negb andb orb] in Hcommit.
  destruct Hcommit as (-> & _ & _ & -> & _ & -> & Hworld).
  rewrite Hworld by reflexivity. repeat split.
Defined.

(** C7 (counterexample).  The same worktree when [git commit] fails:
    there are staged changes after [git add .], yet no hash comes back
    but an error, HEAD has no new commit, and the session entry of
    [Draft docs] acquires no hash. *)
Lemma failed_commit_returns_no_hash :
  let w := worldWith (gitFailing [["commit"; "-m"; "Draft docs"; "-n"]]) in
  tree_staged (stageAll (treeWith ∅ true)) = true
  ∧ (GitAddCommitGetHash (git w) alpha "Draft docs").2
    = ("", Some "git commit failed: exit status 1, output: ")
  ∧ (headCommits <$> trees (GitAddCommitGetHash (git w) alpha "Draft docs").1 !! alpha)
    = Some []
  ∧ sessions (commitPreviousWork drafting w "Draft docs").2 !! alpha
    = Some [{| entry_title := "Draft docs"; entry_hash := "" |}].
Proof. repeat split. Qed.

(** C2 (witness).  Scenario 7 of the specification: current title
    [Draft docs], a dirty tree, a pending timer. *)
Lemma Stop_commits_pending_work_witness :
  let w := worldWith (gitWith ∅ true) in
  checkpointTimer (Stop drafting w).1
    = Some {| timer_after := 30 * time.Second; timer_armed := false |}
  ∧ (commit_message <$>
       default [] (headCommits <$> trees (git (Stop drafting w).2) !! alpha))
    = ["Draft docs"].
Proof.
  intros w.
  pose proof (Stop_commits_pending_work drafting w) as Hstop.
  destruct (Stop drafting w) as [m' w'] eqn:Hrun.
  destruct Hstop as (Htimer & _ & Hcommit).
  change (trees (git w) !! workDir drafting) with (Some (treeWith ∅ true)) in Hcommit.
  vm_compute (negb _ && _ && _ && _) in Hcommit. vm_compute (fails _ _) in Hcommit.
  cbn iota in Hcommit. destruct Hcommit as (t' & c & Htrees & Hhead & Hrefs & Hmsg).
  split; [exact Htimer|]. cbn [fst snd]. rewrite Htrees.
  change (workDir drafting) with alpha. rewrite lookup_insert_eq. cbn [fmap option_fmap option_map default].
  unfold headCommits. rewrite Hhead, Hrefs, lookup_insert_eq.
  change (commit_message c :: [] = ["Draft docs"]). by rewrite Hmsg.
Defined.

(** C2 (counterexample).  Current title [Draft docs] and a dirty tree,
    as in scenario 7, but [git commit] fails, or the manager has no git
    service: the timer is cancelled and no commit is created. *)
Lemma Stop_without_commit :
  let failing := worldWith (gitFailing [["commit"; "-m"; "Draft docs"; "-n"]]) in
  let w := worldWith (gitWith ∅ true) in
  currentTitle drafting = "Draft docs"
  ∧ (dirty <$> trees (git failing) !! alpha) = Some true
  ∧ (headCommits <$> trees (git (Stop drafting failing).2) !! alpha) = Some []
  ∧ currentTitle unserviced = "Draft docs"
  ∧ (dirty <$> trees (git w) !! alpha) = Some true
  ∧ (headCommits <$> trees (git (Stop unserviced w).2) !! alpha) = Some [].
Proof. repeat split. Qed.

End PendingWorkExamples.

(** ** Branch-name validation *)

Section Validation.

Context {G : Type} {ops : Operations G}.

(** C9. [isValidGitBranchName] accepts a name exactly when its length is
    between 1 and 100, [git check-ref-format refs/heads/<name>] succeeds,
    it contains none of the patterns [..], [~], [^], [:], [?], [*], [[],
    [\] and space, and it neither starts nor ends with [/] or [.]; every
    other name is rejected. *)
Theorem isValidGitBranchName_spec (g : G) (branchName : string) :
  isValidGitBranchName g branchName = true ↔
    (1 ≤ String.length branchName ≤ 100)%nat
    ∧ (ExecuteCommand g "git"
         ["check-ref-format"; "refs/heads/" +:+ branchName]).2 = noError
    ∧ (∀ pattern,
         pattern ∈ [".."; "~"; "^"; ":"; "?"; "*"; "["; backslash; " "] →
         strings.Contains branchName pattern = false)
    ∧ strings.HasPrefix branchName "/" = false
    ∧ strings.HasSuffix branchName "/" = false
    ∧ strings.HasPrefix branchName "." = false
    ∧ strings.HasSuffix branchName "." = false.
Proof.
  unfold isValidGitBranchName.
  destruct (ExecuteCommand g "git" _) as [out err]. cbn [snd].
  destruct (String.length branchName =? 0)%nat eqn:Hz.
  { apply Nat.eqb_eq in Hz. cbn [orb]. split; [done | lia]. }
  destruct (100 <? String.length branchName)%nat eqn:Hl.
  { apply Nat.ltb_lt in Hl. cbn [orb]. split; [done | lia]. }
  apply Nat.eqb_neq in Hz. apply Nat.ltb_ge in Hl. cbn [orb].
  destruct err as [e|]; cbn [isNil negb].
  { split; [done | by intros (_ & ? & _)]. }
  destruct (existsb (λ pattern, strings.Contains branchName pattern) invalidPatterns)
    eqn:Hex.
  { split; [done|]. intros (_ & _ & Hpat & _).
    apply existsb_exists in Hex as (p & Hin & Hp).
    rewrite Hpat in Hp; [done|]. by apply list_elem_of_In. }
  assert (Hpat : ∀ p, p ∈ invalidPatterns → strings.Contains branchName p = false).
  { intros p Hin. apply not_true_is_false. intros Hp.
    assert (existsb (λ q, strings.Contains branchName q) invalidPatterns = true)
      as Hex'; [|congruence].
    apply existsb_exists. exists p. split; [by apply list_elem_of_In | done]. }
  destruct (strings.HasPrefix branchName "/"); cbn [orb];
    [split; [done | by intros (_ & _ & _ & ? & _)]|].
  destruct (strings.HasSuffix branchName "/"); cbn [orb];
    [split; [done | by intros (_ & _ & _ & _ & ? & _)]|].
  destruct (strings.HasPrefix branchName "."); cbn [orb];
    [split; [done | by intros (_ & _ & _ & _ & _ & ? & _)]|].
  destruct (strings.HasSuffix branchName "."); cbn [orb];
    [split; [done | by intros (_ & _ & _ & _ & _ & _ & ?)]|].
  split; [|done]. intros _. repeat split; try done; lia.
Qed.

End Validation.

(** ** Collision resolution *)

Section Collision.

Context {G St R C : Type}.
Context {ops : Operations G} {pkg : GitPackage} {store : SessionService St}
        {reg : Registry G R} {cps : CheckpointManager C} {llm : ClaudeService}.
Context {tables : strconv.PrintTables}.

Lemma variant_pos newBranch k :
  0 < k → variant newBranch k = newBranch +:+ "-" +:+ itoa k.
Proof. intros Hk. unfold variant. destruct (Z.eqb_spec k 0); [lia | done]. Qed.

Lemma collisionLoop_settled (g : G) (workDir newBranch : string) fuel counter :
  1 ≤ counter ≤ 100 →
  (101 ≤ fuel + Z.to_nat counter)%nat →
  (∀ j, 0 ≤ j < counter - 1 → branchTaken g workDir (variant newBranch j) = true) →
  settled g workDir newBranch
    (collisionLoop fuel g workDir newBranch (variant newBranch (counter - 1)) counter).
Proof.
  revert counter. induction fuel as [|fuel IH]; intros counter Hc Hfuel Hbelow.
  - lia.
  - cbn [collisionLoop].
    destruct (branchTaken g workDir (variant newBranch (counter - 1))) eqn:Htaken.
    + destruct (Z.ltb_spec 100 (counter + 1)) as [Hlast|Hmore].
      * intros k Hk. destruct (decide (k = counter - 1)) as [->|Hne]; [done|].
        apply Hbelow. lia.
      * rewrite <- (variant_pos newBranch counter) by lia.
        replace counter with (counter + 1 - 1) at 1 by lia.
        apply IH; [lia | lia |].
        intros j Hj. destruct (decide (j = counter - 1)) as [->|Hne]; [done|].
        apply Hbelow. lia.
    + exists (counter - 1). repeat split; [lia | lia | done | done].
Qed.

Lemma resolveCollision_settled (g : G) (workDir newBranch : string) :
  settled g workDir newBranch (resolveCollision g workDir newBranch).
Proof.
  apply (collisionLoop_settled g workDir newBranch 101 1);
    [lia | simpl; lia | intros j Hj; lia].
Qed.

(** C3.  The loop settles on the first free name among [<name>],
    [<name>-1], ..., [<name>-99] (a name is taken when it exists bare or
    under [refs/heads/]); when all of these are taken it gives up, and
    then the graduation worker returns with the repositories as its
    queries left them and no rename, and so does [TriggerBranchRename]
    with a custom name, which reports an error.  When a free name is
    found, both rename the current branch to it. *)
Theorem collision_resolution_policy (g : G) (dir newBranch : string) :
  settled g dir newBranch (resolveCollision g dir newBranch)
  ∧ (∀ (m : WorktreeCheckpointManager C) (w : world G St R)
       (title currentBranch text : string),
      workDir m = dir →
      cleanTitle title ≠ "" →
      currentBranchName (git w) dir = (g, (currentBranch, noError)) →
      IsCatnipBranch currentBranch = true →
      CreateCompletion {| Prompt := branchNamePrompt (cleanTitle title);
                          SystemPrompt := branchNameSystemPrompt;
                          MaxTurns := 1;
                          WorkingDirectory := dir;
                          Resume := true |} = (Some text, noError) →
      text ≠ "" →
      strings.TrimSpace text = newBranch →
      isValidGitBranchName g newBranch = true →
      checkAndRenameBranch m w title =
        match resolveCollision g dir newBranch with
        | Resolved finalBranch =>
          (clearRenaming m, (renameBranch m (setGit w g) currentBranch finalBranch).1)
        | _ => (clearRenaming m, setGit w g)
        end)
  ∧ (∀ (s : ClaudeMonitorService C) (w : world G St R)
       (m : WorktreeCheckpointManager C) (out : string),
      checkpointManagers s !! dir = Some m →
      ExecuteGit (git w) dir ["rev-parse"; "--symbolic-full-name"; "HEAD"]
        = (g, (out, noError)) →
      newBranch ≠ "" →
      isValidGitBranchName g newBranch = true →
      TriggerBranchRename s w dir newBranch =
        match resolveCollision g dir newBranch with
        | Resolved finalBranch =>
          let '(w', err) :=
            renameBranch m (setGit w g) (strings.TrimSpace out) finalBranch in
          (w', (λ e, "failed to rename branch: " +:+ e) <$> err, None)
        | _ =>
          (setGit w g,
           Some ("too many similar branches exist for " +:+ strconv.Quote newBranch),
           None)
        end).
Proof.
  pose proof (resolveCollision_settled g dir newBranch) as Hsettled.
  split; [done|]. split.
  - intros m w title currentBranch text Hdir Htitle Hcur Hcatnip Hllm Htext Htrim Hvalid.
    unfold checkAndRenameBranch.
    destruct (String.eqb_spec (cleanTitle title) "") as [|_]; [done|].
    rewrite Hdir, Hcur. cbn [isNil negb]. rewrite Hcatnip. cbn [negb].
    rewrite Hllm. cbn [isNil negb].
    destruct (String.eqb_spec text "") as [|_]; [done|].
    rewrite Htrim, Hvalid. cbn [negb].
    destruct (resolveCollision g dir newBranch) as [finalBranch| |]; [|done|done].
    destruct Hsettled as (k & _ & _ & Hfree & _). rewrite Hfree.
    by destruct (renameBranch m (setGit w g) currentBranch finalBranch).
  - intros s w m out Hm Hrev Hname Hvalid.
    unfold TriggerBranchRename. rewrite Hm, Hrev. cbn [isNil negb].
    destruct (String.eqb_spec newBranch "") as [|_]; [done|]. cbn [negb].
    rewrite Hvalid. cbn [negb].
    destruct (resolveCollision g dir newBranch) as [finalBranch| |]; [|done|done].
    destruct (renameBranch m (setGit w g) (strings.TrimSpace out) finalBranch)
      as [w' [e|]]; done.
Qed.

End Collision.


Section CollisionExamples.

Import Sim Scenario PlainText.

(** C3 (witness).  With [feature/login-flow] taken and
    [feature/login-flow-1] free, both the graduation worker and the
    manual rename settle on [feature/login-flow-1]. *)
Lemma collision_resolution_policy_witness :
  let g := gitWith (takenUpTo loginFlow 1) true in
  let w := worldWith g in
  let llm := suggesting loginFlow in
  resolveCollision g alpha loginFlow = Resolved "feature/login-flow-1"
  ∧ checkAndRenameBranch drafting w "Draft docs"
    = (clearRenaming drafting,
       (renameBranch drafting w otter "feature/login-flow-1").1)
  ∧ TriggerBranchRename monitoring w alpha loginFlow
    = ((renameBranch drafting w otter "feature/login-flow-1").1, noError, None).
Proof.
  intros g w llm.
  destruct (collision_resolution_policy (St := Sessions) (R := Registry_)
              (C := Checkpoints) (llm := llm) g alpha loginFlow)
    as (Hloop & Hworker & Hmanual).
  split; [reflexivity|]. split.
  - rewrite (Hworker drafting w "Draft docs" otter loginFlow);
      [reflexivity | reflexivity | discriminate | reflexivity | reflexivity
      | reflexivity | discriminate | reflexivity | reflexivity].
  - rewrite (Hmanual monitoring w drafting (otter +:+ newline));
      [reflexivity | reflexivity | reflexivity | discriminate | reflexivity].
Defined.

(** C3 (counterexample).  With [feature/login-flow] and its variants
    [-1] to [-99] taken and [feature/login-flow-100] free, the first free
    variant is the hundredth, yet the loop gives up. *)
Lemma hundredth_variant_not_tried :
  let g := gitWith (takenUpTo loginFlow 100) true in
  (∀ k, 0 ≤ k < 100 → branchTaken g alpha (variant loginFlow k) = true)
  ∧ branchTaken g alpha (variant loginFlow 100) = false
  ∧ resolveCollision g alpha loginFlow = TooMany
  ∧ resolveCollision g alpha loginFlow ≠ Resolved (variant loginFlow 100).
Proof.
  intros g. split; [|by vm_compute].
  intros k Hk.
  assert (forallb (λ k, branchTaken g alpha (variant loginFlow k)) (seqZ 0 100) = true)
    as Hall by (vm_compute; reflexivity).
  rewrite forallb_forall in Hall. apply Hall.
  apply list_elem_of_In, elem_of_seqZ. lia.
Qed.

End CollisionExamples.

(** ** Startup branch cleanup *)

Section CleanupSafety.

Context {G : Type} {ops : Operations G} {pkg : GitPackage}.

Lemma isNil_noError (e : error) : isNil e = true ↔ e = noError.
Proof. destruct e; split; done. Qed.

Lemma findBaseRef_found (g : G) (repoPath : string) :
  let baseRef := findBaseRef g repoPath ["main"; "master"] in
  baseRef ≠ "" →
  (baseRef = "main" ∨ baseRef = "master")
  ∧ ShowRef g repoPath baseRef {| Verify := true; Quiet := true |} = noError.
Proof.
  cbn [findBaseRef].
  destruct (isNil (ShowRef g repoPath "main" _)) eqn:Hmain.
  { intros _. split; [by left | by apply isNil_noError]. }
  destruct (isNil (ShowRef g repoPath "master" _)) eqn:Hmaster.
  { intros _. split; [by right | by apply isNil_noError]. }
  done.
Qed.

(** Every call the loop body adds is one the conditions allow. *)
Lemma cleanupBranch_safe (P : deletion G → Prop) (repo : Repository)
    (st : G * list (deletion G)) (branch : string) :
  (∀ g b e, safeToDelete g (repo_Path repo) b →
            P {| del_before := g; del_repoPath := repo_Path repo;
                 del_branch := b; del_err := e |}) →
  Forall P st.2 → Forall P (cleanupBranch repo st branch).2.
Proof.
  intros Hnew Hold. destruct st as [g calls]. unfold cleanupBranch.
  destruct (isCatnipBranch (cleanBranchName branch)) eqn:Hcatnip; [|done].
  cbn [negb].
  pose proof (findBaseRef_found g (repo_Path repo)) as Hbase. cbn zeta in Hbase.
  destruct (String.eqb_spec (findBaseRef g (repo_Path repo) ["main"; "master"]) "")
    as [|Hfound]; [done|].
  destruct (Hbase Hfound) as [Hwhich Hshow].
  destruct (BranchExists g (repo_Path repo) (cleanBranchName branch) false)
    eqn:Hexists; [|done]. cbn [negb].
  destruct (GetCommitCount g (repo_Path repo) _ (cleanBranchName branch))
    as [commitCount err] eqn:Hcount.
  destruct err as [e|]; [done|]. cbn [isNil negb orb].
  destruct (Z.ltb_spec 0 commitCount) as [|Hzero]; [done|].
  destruct (ListWorktrees g (repo_Path repo)) as [worktrees werr] eqn:Hlist.
  destruct (if isNil werr
            then existsb (λ wt, String.eqb (wt_Branch wt) (cleanBranchName branch))
                         worktrees
            else false) eqn:Hskip; [done|].
  destruct (DeleteBranch g (repo_Path repo) (cleanBranchName branch) true)
    as [g' derr].
  cbn [snd]. apply Forall_app. split; [done|].
  apply Forall_cons. split; [|done].
  apply Hnew. repeat split; [done | | done |].
  - eexists _, commitCount. repeat split; [done | done | done | done].
  - intros wts Hwts wt Hin Heq. rewrite Hlist in Hwts. injection Hwts as -> ->.
    change (isNil noError) with true in Hskip. cbn iota in Hskip.
    assert (existsb (λ wt, String.eqb (wt_Branch wt) (cleanBranchName branch))
                    wts = true) as Hex; [|congruence].
    apply existsb_exists. exists wt. split; [by apply list_elem_of_In|].
    by apply String.eqb_eq.
Qed.

Lemma fold_cleanupBranch_safe (P : deletion G → Prop) (repo : Repository)
    (branches : list string) (st : G * list (deletion G)) :
  (∀ g b e, safeToDelete g (repo_Path repo) b →
            P {| del_before := g; del_repoPath := repo_Path repo;
                 del_branch := b; del_err := e |}) →
  Forall P st.2 → Forall P (fold_left (cleanupBranch repo) branches st).2.
Proof.
  intros Hnew. revert st. induction branches as [|b bs IH]; intros st Hst; [done|].
  cbn [fold_left]. apply IH. by apply cleanupBranch_safe.
Qed.

Lemma cleanupRepositories_safe (P : deletion G → Prop) (repos : list Repository)
    (st : G * list (deletion G)) :
  (∀ repo g b e, repo ∈ repos → safeToDelete g (repo_Path repo) b →
                 P {| del_before := g; del_repoPath := repo_Path repo;
                      del_branch := b; del_err := e |}) →
  Forall P st.2 → Forall P (fold_left cleanupRepository repos st).2.
Proof.
  revert st. induction repos as [|repo repos IH]; intros st Hnew Hst; [done|].
  cbn [fold_left]. apply IH.
  - intros r g b e Hin. apply Hnew. by right.
  - unfold cleanupRepository. destruct st as [g calls].
    destruct (ListBranches g (repo_Path repo) _) as [branches err].
    destruct (isNil err); [|done]. cbn [negb].
    apply fold_cleanupBranch_safe; [|done].
    intros g' b e. apply Hnew. by left.
Qed.

(** C10.  Every call of [DeleteBranch] that [cleanupUnusedBranches]
    makes is for a repository of the service and for a branch that, in
    the repositories as they are at the call, satisfies the
    scratch-branch predicate, has a base branch ([main] or [master])
    against which it is not ahead by any commit, exists locally, and is
    not checked out in any listed worktree.  A branch failing one of
    these is not deleted. *)
Theorem cleanupUnusedBranches_deletes_only_safe
    (repositories : gmap string Repository) (g : G) (d : deletion G) :
  d ∈ (cleanupUnusedBranches repositories g).2 →
  (∃ id repo, repositories !! id = Some repo ∧ del_repoPath d = repo_Path repo)
  ∧ safeToDelete (del_before d) (del_repoPath d) (del_branch d).
Proof.
  unfold cleanupUnusedBranches, cleanupRepositories.
  revert d. apply Forall_forall.
  apply cleanupRepositories_safe; [|by apply Forall_nil].
  intros repo g' b e Hin Hsafe. cbn. split; [|done].
  apply list_elem_of_fmap in Hin as ([id repo'] & -> & Hin).
  apply elem_of_map_to_list in Hin. by exists id, repo'.
Qed.

End CleanupSafety.

Section CleanupExample.

Import Sim CleanupScenario.

(** C10 (witness).  In the example repository the pass makes one call,
    for the untouched scratch branch, and that branch meets the
    conditions. *)
Lemma cleanupUnusedBranches_deletes_only_safe_witness :
  (del_branch <$> (cleanupUnusedBranches {[ "foo" := foo ]} repository).2)
    = ["catnip/idle-heron"]
  ∧ safeToDelete repository bare "catnip/idle-heron".
Proof.
  split; [reflexivity|].
  apply (cleanupUnusedBranches_deletes_only_safe {[ "foo" := foo ]} repository
           {| del_before := repository; del_repoPath := bare;
              del_branch := "catnip/idle-heron"; del_err := noError |}).
  vm_compute. apply list_elem_of_here.
Defined.

End CleanupExample.

(** * Further properties *)

(** ** Splitting at a byte *)

Lemma splitFrom_byte (sep c : ascii) (cur s : string) :
  strings.splitFrom 0 cur (String c s) (String sep "")
  = if Ascii.eqb c sep then cur :: strings.splitFrom 0 "" s (String sep "")
    else strings.splitFrom 0 (cur +:+ String c "") s (String sep "").
Proof.
  cbn [strings.splitFrom String.prefix String.length Nat.sub].
  destruct (ascii_dec sep c) as [->|Hne].
  - rewrite Ascii.eqb_refl. by destruct s.
  - by destruct (Ascii.eqb_spec c sep) as [->|_].
Qed.

Lemma length_splitFrom_byte (sep : ascii) (cur s : string) :
  length (strings.splitFrom 0 cur s (String sep "")) = S (countByte sep s).
Proof.
  revert cur. induction s as [|c s IH]; intros cur; [done|].
  rewrite splitFrom_byte. cbn [countByte].
  destruct (Ascii.eqb c sep); cbn [length]; by rewrite IH.
Qed.

Lemma append_byte (c : ascii) (s : string) : String c "" +:+ s = String c s.
Proof. reflexivity. Qed.

(** A piece without the separator is read whole. *)
Lemma splitFrom_piece (sep : ascii) (cur a rest : string) :
  strings.Contains a (String sep "") = false →
  strings.splitFrom 0 cur (a +:+ String sep rest) (String sep "")
  = (cur +:+ a) :: strings.splitFrom 0 "" rest (String sep "").
Proof.
  revert cur. induction a as [|c a IH]; intros cur Hfree.
  - rewrite append_empty_l, append_empty_r, splitFrom_byte.
    by rewrite Ascii.eqb_refl.
  - rewrite Contains_byte_cons in Hfree. apply orb_false_elim in Hfree as [Hc Ha].
    rewrite append_cons, splitFrom_byte, Hc, IH by done.
    by rewrite append_assoc.
Qed.

Lemma splitFrom_last (sep : ascii) (cur a : string) :
  strings.Contains a (String sep "") = false →
  strings.splitFrom 0 cur a (String sep "") = [cur +:+ a].
Proof.
  revert cur. induction a as [|c a IH]; intros cur Hfree.
  - by rewrite append_empty_r.
  - rewrite Contains_byte_cons in Hfree. apply orb_false_elim in Hfree as [Hc Ha].
    rewrite splitFrom_byte, Hc, IH by done. by rewrite append_assoc.
Qed.

(** ** Lines of the titles log *)

Section TitlesLog.

Context {G St R C : Type}.
Context {ops : Operations G} {pkg : GitPackage} {store : SessionService St}
        {reg : Registry G R} {cps : CheckpointManager C} {llm : ClaudeService}.
Context {tables : strconv.PrintTables}.

(** X1.  A line of the titles log that does not hold exactly three [|]
    is skipped: the monitor and the world stay as they are and no
    renaming is started.  In particular an entry whose title contains a
    [|] is lost. *)
Theorem readTitlesLogLine_skips_malformed (os : OS) (s : ClaudeMonitorService C)
    (w : world G St R) (line : string) (clk : clock) :
  countByte "|" line ≠ 3%nat →
  readTitlesLogLine os s w line clk = (s, w, None).
Proof.
  intros Hcount. unfold readTitlesLogLine.
  destruct (String.eqb line ""); [done|].
  pose proof (length_splitFrom_byte "|" "" line) as Hlen.
  unfold strings.Split.
  destruct (strings.splitFrom 0 "" line "|") as [|a [|b [|c [|d [|e l]]]]];
    try done.
  cbn [length] in Hlen. lia.
Qed.

(** X2.  An entry [timestamp|pid|cwd|title] whose fields hold no [|] is
    handled as the title [title] for the directory [cwd] coming from the
    log: when [cwd] passes [isWorktreeDirectory] and the cleaned title is
    not empty, as [handleTitleChange] with the cleaned title and source
    [log]; otherwise not at all.  The timestamp and the pid play no
    part. *)
Theorem readTitlesLogLine_entry (os : OS) (s : ClaudeMonitorService C)
    (w : world G St R) (timestamp pid cwd title : string) (clk : clock) :
  strings.Contains timestamp "|" = false →
  strings.Contains pid "|" = false →
  strings.Contains cwd "|" = false →
  strings.Contains title "|" = false →
  readTitlesLogLine os s w (titleLogEntry timestamp pid cwd title) clk
  = if isWorktreeDirectory os cwd && negb (String.eqb (cleanTitle title) "")
    then handleTitleChange s w cwd (cleanTitle title) "log" clk
    else (s, w, None).
Proof.
  intros Hts Hpid Hcwd Htitle. unfold readTitlesLogLine, titleLogEntry.
  assert (strings.Split (timestamp +:+ "|" +:+ pid +:+ "|" +:+ cwd +:+ "|" +:+ title) "|"
          = [timestamp; pid; cwd; title]) as Hsplit.
  { unfold strings.Split. rewrite !append_byte.
    rewrite (splitFrom_piece "|" "" timestamp) by done.
    rewrite (splitFrom_piece "|" "" pid) by done.
    rewrite (splitFrom_piece "|" "" cwd) by done.
    by rewrite (splitFrom_last "|" "" title) by done. }
  rewrite Hsplit.
  destruct (String.eqb_spec (timestamp +:+ "|" +:+ pid +:+ "|" +:+ cwd +:+ "|" +:+ title) "")
    as [Hempty|_].
  { destruct timestamp; discriminate. }
  destruct (isWorktreeDirectory os cwd); [|done].
  by destruct (negb (String.eqb (cleanTitle title) "")).
Qed.

End TitlesLog.

(** ** The recent-title table over time *)

Lemma evictBefore_twice (c c' : Z) (recent : gmap string titleEvent) :
  c ≤ c' → evictBefore c' (evictBefore c recent) = evictBefore c' recent.
Proof.
  intros Hle. apply map_eq. intros key. apply option_eq. intros ev.
  rewrite !evictBefore_lookup. unfold time.Before. rewrite !Z.ltb_ge.
  split; [by intros [[? ?] ?] | intros [? ?]; repeat split; [done | lia | done]].
Qed.

(** An event for another key can remove an entry, not add or change one. *)
Lemma recordTitle_other_back recent workDir newTitle source clk key ev :
  titleKey workDir newTitle ≠ key →
  (recordTitle recent workDir newTitle source clk).1 !! key = Some ev →
  recent !! key = Some ev.
Proof.
  intros Hne. unfold recordTitle.
  destruct (match evictBefore _ recent !! titleKey workDir newTitle with
            | Some _ => _ | None => _ end); cbn [fst].
  - by intros [? _]%evictBefore_lookup.
  - rewrite lookup_insert_ne by done. by intros [? _]%evictBefore_lookup.
Qed.

Lemma recordTitles_others_back recent (between : list titleArrival) key ev :
  (∀ e, e ∈ between → arrivalKey e ≠ key) →
  (recordTitles recent between).1 !! key = Some ev →
  recent !! key = Some ev.
Proof.
  revert recent. induction between as [|e rest IH]; intros recent Hothers; [done|].
  cbn [recordTitles].
  pose proof (recordTitle_other_back recent (arr_workDir e) (arr_title e)
                (arr_source e) (arr_clock e) key ev) as Hstep.
  destruct (recordTitle recent _ _ _ _) as [recent1 f]. cbn [fst] in Hstep.
  specialize (IH recent1).
  destruct (recordTitles recent1 rest) as [recent2 flags]. cbn [fst] in *.
  intros Hev. apply Hstep; [apply Hothers; by left|].
  apply IH; [|done]. intros e' Hin. apply Hothers. by right.
Qed.

(** X3.  Once an event is more than five seconds old it no longer
    suppresses anything: of two events with one key, the first not yet in
    the table and recorded more than five seconds before the second one's
    eviction, with events for other keys in between, both are forwarded,
    whatever their sources. *)
Theorem title_forwarded_after_window recent (first second : titleArrival)
    (between : list titleArrival) :
  arr_workDir second = arr_workDir first →
  arr_title second = arr_title first →
  recent !! arrivalKey first = None →
  (∀ e, e ∈ between → arrivalKey e ≠ arrivalKey first) →
  now_record (arr_clock first) < now_cutoff (arr_clock second) - 5 * time.Second →
  firstAndLast recent (first :: between ++ [second]) = (Some true, Some true).
Proof.
  intros Hdir Htitle Hfresh Hothers Hold. unfold firstAndLast.
  cbn [recordTitles].
  destruct (recordTitle_fresh recent (arr_workDir first) (arr_title first)
              (arr_source first) (arr_clock first) Hfresh) as (recent1 & -> & Hev).
  rewrite recordTitles_app.
  pose proof (recordTitles_others_back recent1 between (arrivalKey first)) as Hback.
  destruct (recordTitles recent1 between) as [recent2 flags]. cbn [fst] in Hback.
  cbn [recordTitles]. unfold recordTitle. rewrite Hdir, Htitle.
  assert (evictBefore (time.Add (now_cutoff (arr_clock second)) (-5 * time.Second))
            recent2 !! titleKey (arr_workDir first) (arr_title first) = None) as ->.
  { apply eq_None_not_Some. intros [ev [Hin Hyoung]%evictBefore_lookup].
    apply Hback in Hin; [|done]. unfold arrivalKey in Hin.
    rewrite Hev in Hin. injection Hin as <-.
    unfold time.Before, time.Add in Hyoung. cbn [ev_timestamp] in Hyoung.
    apply Z.ltb_ge in Hyoung. lia. }
  cbn [snd head]. by rewrite app_comm_cons, last_snoc.
Qed.

Section ExpiryExample.

Import RefactorCache Repetition.

(** X3 (witness).  Two lines of the log with one title, six seconds
    apart. *)
Lemma title_forwarded_after_window_witness :
  firstAndLast ∅ [loggedFirst; other; loggedAgain] = (Some true, Some true).
Proof.
  apply (title_forwarded_after_window ∅ loggedFirst loggedAgain [other]);
    try reflexivity.
  intros e ->%list_elem_of_singleton. discriminate.
Defined.

End ExpiryExample.

(** X4.  A suppressed event leaves no trace: it is not recorded, and
    the events after it are treated as if it had not arrived, so that the
    window of a title runs from the event that was forwarded, not from
    its latest repetition.  (The clock of the next event is not behind
    that of the suppressed one.) *)
Theorem suppressed_event_leaves_no_trace recent (e next : titleArrival)
    (rest : list titleArrival) :
  (recordTitle recent (arr_workDir e) (arr_title e) (arr_source e) (arr_clock e)).2
    = false →
  now_cutoff (arr_clock e) ≤ now_cutoff (arr_clock next) →
  recordTitles recent (e :: next :: rest)
  = ((recordTitles recent (next :: rest)).1,
     false :: (recordTitles recent (next :: rest)).2).
Proof.
  intros Hdropped Hclock. cbn [recordTitles].
  unfold recordTitle at 1 in Hdropped. unfold recordTitle at 1.
  destruct (match evictBefore _ recent !! titleKey (arr_workDir e) (arr_title e) with
            | Some _ => _ | None => _ end); [|done].
  assert (recordTitle
            (evictBefore (time.Add (now_cutoff (arr_clock e)) (-5 * time.Second)) recent)
            (arr_workDir next) (arr_title next) (arr_source next) (arr_clock next)
          = recordTitle recent (arr_workDir next) (arr_title next)
              (arr_source next) (arr_clock next)) as ->.
  { unfold recordTitle. rewrite evictBefore_twice; [done|]. unfold time.Add. lia. }
  destruct (recordTitle recent _ _ _ _) as [recent1 f1].
  by destruct (recordTitles recent1 rest) as [recent2 flags].
Qed.

Section NoTraceExample.

Import RefactorCache Repetition.

(** X4 (witness).  A title logged at 0 s, again at 4 s and again at 6 s:
    the second line is dropped and the third goes through, two seconds
    after the second. *)
Lemma suppressed_event_leaves_no_trace_witness :
  (recordTitles (recordTitles ∅ [loggedFirst]).1 [loggedLater; loggedAgain]).2
  = [false; true].
Proof.
  rewrite (suppressed_event_leaves_no_trace _ loggedLater loggedAgain []);
    [reflexivity | reflexivity | by vm_compute].
Defined.

End NoTraceExample.

(** An entry of the table after a trace was there before, or records a
    forwarded event of the trace. *)
Lemma recordTitles_entries recent (trace : list titleArrival) key ev :
  (recordTitles recent trace).1 !! key = Some ev →
  recent !! key = Some ev
  ∨ ∃ i e, trace !! i = Some e
           ∧ (recordTitles recent trace).2 !! i = Some true
           ∧ arrivalKey e = key
           ∧ ev = {| ev_title := arr_title e;
                     ev_timestamp := now_record (arr_clock e);
                     ev_source := arr_source e |}.
Proof.
  revert recent. induction trace as [|e rest IH]; intros recent; [by left|].
  cbn [recordTitles].
  destruct (recordTitle recent (arr_workDir e) (arr_title e) (arr_source e)
              (arr_clock e)) as [recent1 f] eqn:Hstep.
  specialize (IH recent1).
  destruct (recordTitles recent1 rest) as [recent2 flags]. cbn [fst snd] in *.
  intros Hev. destruct (IH Hev) as [Hin|(i & e' & Hi & Hf & Hkey & Hrec)].
  - unfold recordTitle in Hstep.
    destruct (match evictBefore _ recent !! titleKey (arr_workDir e) (arr_title e) with
              | Some _ => _ | None => _ end); injection Hstep as <- <-.
    + left. by apply evictBefore_lookup in Hin as [? _].
    + destruct (decide (titleKey (arr_workDir e) (arr_title e) = key)) as [<-|Hne].
      * rewrite lookup_insert_eq in Hin. injection Hin as <-.
        right. by exists 0%nat, e.
      * rewrite lookup_insert_ne in Hin by done.
        left. by apply evictBefore_lookup in Hin as [? _].
  - right. by exists (S i), e'.
Qed.

(** X5.  The table holds nothing but forwarded events: after any trace
    that started with an empty table, every entry is the record of an
    event of the trace that was forwarded, under that event's key, with
    its title, its source and the time it was recorded. *)
Theorem recentTitles_holds_forwarded_events (trace : list titleArrival) key ev :
  (recordTitles ∅ trace).1 !! key = Some ev →
  ∃ i e, trace !! i = Some e
         ∧ (recordTitles ∅ trace).2 !! i = Some true
         ∧ arrivalKey e = key
         ∧ ev = {| ev_title := arr_title e;
                   ev_timestamp := now_record (arr_clock e);
                   ev_source := arr_source e |}.
Proof.
  intros Hev. by destruct (recordTitles_entries ∅ trace key ev Hev) as [?|?].
Qed.

Section EntriesExample.

Import RefactorCache Repetition.

(** X5 (witness). *)
Lemma recentTitles_holds_forwarded_events_witness :
  ∃ i e, [loggedFirst; other; notifiedSecond] !! i = Some e
         ∧ (recordTitles ∅ [loggedFirst; other; notifiedSecond]).2 !! i = Some true
         ∧ arrivalKey e = arrivalKey loggedFirst
         ∧ {| ev_title := arr_title loggedFirst;
              ev_timestamp := now_record (arr_clock loggedFirst);
              ev_source := arr_source loggedFirst |}
           = {| ev_title := arr_title e;
                ev_timestamp := now_record (arr_clock e);
                ev_source := arr_source e |}.
Proof.
  apply recentTitles_holds_forwarded_events. reflexivity.
Defined.

End EntriesExample.

(** X6.  The key of the table joins the path and the title with a
    colon and so does not tell them apart: an event for the directory
    [d:a] with title [b] and one for the directory [d] with title [a:b]
    have one key, and the second of two such log events within the window
    is suppressed although path and title differ. *)
Theorem titleKey_joins_path_and_title recent (d a b : string) (clk1 clk2 : clock) :
  let e1 := {| arr_workDir := d +:+ ":" +:+ a; arr_title := b;
               arr_source := "log"; arr_clock := clk1 |} in
  let e2 := {| arr_workDir := d; arr_title := a +:+ ":" +:+ b;
               arr_source := "log"; arr_clock := clk2 |} in
  recent !! arrivalKey e1 = None →
  withinWindow (now_record clk1) (now_cutoff clk2) →
  arrivalKey e1 = arrivalKey e2
  ∧ (recordTitles recent [e1; e2]).2 = [true; false].
Proof.
  intros e1 e2 Hfresh Hwin.
  assert (arrivalKey e1 = arrivalKey e2) as Hkey.
  { unfold arrivalKey, titleKey. cbn. by rewrite !append_assoc. }
  split; [done|]. cbn [recordTitles].
  destruct (recordTitle_fresh recent (arr_workDir e1) (arr_title e1)
              (arr_source e1) (arr_clock e1) Hfresh) as (recent1 & -> & Hev).
  unfold recordTitle.
  change (titleKey (arr_workDir e2) (arr_title e2)) with (arrivalKey e2).
  change (titleKey (arr_workDir e1) (arr_title e1)) with (arrivalKey e1) in Hev.
  rewrite <- Hkey.
  assert (evictBefore (time.Add (now_cutoff (arr_clock e2)) (-5 * time.Second))
            recent1 !! arrivalKey e1
          = Some {| ev_title := arr_title e1;
                    ev_timestamp := now_record (arr_clock e1);
                    ev_source := arr_source e1 |}) as ->
    by (by apply evictBefore_lookup).
  done.
Qed.

(** X6 (witness). *)
Lemma titleKey_joins_path_and_title_witness :
  (recordTitles ∅
     [ {| arr_workDir := "/workspace/foo/alpha:Fix"; arr_title := "tests";
          arr_source := "log"; arr_clock := instant 0 |};
       {| arr_workDir := "/workspace/foo/alpha"; arr_title := "Fix:tests";
          arr_source := "log"; arr_clock := instant time.Second |} ]).2
  = [true; false].
Proof.
  apply (titleKey_joins_path_and_title ∅ "/workspace/foo/alpha" "Fix" "tests"
           (instant 0) (instant time.Second)); reflexivity.
Defined.

Section TitlesLogExamples.

Import Sim Scenario.

(** X1 (witness).  A title with a [|] in it. *)
Lemma readTitlesLogLine_skips_malformed_witness :
  let w := worldWith (gitWith ∅ true) in
  let llm := suggesting loginFlow in
  readTitlesLogLine Workspace.os monitoring w
    "1700000000|42|/workspace/foo/alpha|Fix a|b" (instant 0)
  = (monitoring, w, None).
Proof.
  intros w llm. apply readTitlesLogLine_skips_malformed. by vm_compute.
Defined.

(** X2 (witness). *)
Lemma readTitlesLogLine_entry_witness :
  let w := worldWith (gitWith ∅ true) in
  let llm := suggesting loginFlow in
  readTitlesLogLine Workspace.os monitoring w
    "1700000000|42|/workspace/foo/alpha|Add login flow" (instant 0)
  = handleTitleChange monitoring w alpha "Add login flow" "log" (instant 0).
Proof.
  intros w llm.
  apply (readTitlesLogLine_entry Workspace.os monitoring w
           "1700000000" "42" "/workspace/foo/alpha" "Add login flow" (instant 0));
    reflexivity.
Defined.

End TitlesLogExamples.

(** ** What the calls do to a manager *)

Section ManagerFields.

Context {G St R C : Type}.
Context {ops : Operations G} {pkg : GitPackage} {store : SessionService St}
        {reg : Registry G R} {cps : CheckpointManager C} {llm : ClaudeService}.
Context {tables : strconv.PrintTables}.

Lemma commitPreviousWork_manager (m : WorktreeCheckpointManager C)
    (w : world G St R) (title : string) :
  let m' := (commitPreviousWork m w title).1 in
  workDir m' = workDir m
  ∧ gitService m' = gitService m
  ∧ currentTitle m' = currentTitle m
  ∧ renamingInProgress m' = renamingInProgress m.
Proof.
  unfold commitPreviousWork. repeat case_match; done.
Qed.

Lemma HandleTitleChange_manager (m : WorktreeCheckpointManager C)
    (w : world G St R) (newTitle : string) :
  let '(m', _, started) := HandleTitleChange m w newTitle in
  workDir m' = workDir m
  ∧ gitService m' = gitService m
  ∧ currentTitle m' = newTitle
  ∧ match started with
    | Some title =>
      title = newTitle ∧ renamingInProgress m = false
      ∧ renamingInProgress m' = true
    | None => renamingInProgress m' = renamingInProgress m
    end.
Proof.
  unfold HandleTitleChange.
  destruct (negb (String.eqb (GetPreviousTitle (sessions w) (workDir m)) "")
            && negb (String.eqb (GetPreviousTitle (sessions w) (workDir m)) newTitle)).
  - pose proof (commitPreviousWork_manager m w
                  (GetPreviousTitle (sessions w) (workDir m))) as (Hd & Hg & Ht & Hr).
    destruct (commitPreviousWork m w _) as [m1 w1]. cbn [fst] in *.
    destruct (UpdateSessionTitle _ _ _ _) as [s1 e1]. cbn [renamingInProgress currentTitle].
    destruct (renamingInProgress m1) eqn:Hflag; cbn [negb andb].
    + cbn. by rewrite <- Hr.
    + destruct (String.eqb newTitle ""); cbn [negb].
      * cbn. by rewrite <- Hr.
      * destruct (isCurrentBranchCatnip _ _) as [g catnip].
        destruct catnip; cbn; rewrite <- Hr; done.
  - destruct (UpdateSessionTitle _ _ _ _) as [s1 e1]. cbn [renamingInProgress currentTitle].
    destruct (renamingInProgress m) eqn:Hflag; cbn [negb andb].
    + done.
    + destruct (String.eqb newTitle ""); cbn [negb].
      * done.
      * destruct (isCurrentBranchCatnip _ _) as [g catnip].
        by destruct catnip.
Qed.

Lemma checkAndRenameBranch_manager (m : WorktreeCheckpointManager C)
    (w : world G St R) (title : string) :
  let m' := (checkAndRenameBranch m w title).1 in
  workDir m' = workDir m
  ∧ gitService m' = gitService m
  ∧ currentTitle m' = currentTitle m
  ∧ checkpointManager m' = checkpointManager m
  ∧ checkpointTimer m' = checkpointTimer m
  ∧ renamingInProgress m'
    = if String.eqb (cleanTitle title) "" then renamingInProgress m else false.
Proof.
  unfold checkAndRenameBranch.
  destruct (String.eqb (cleanTitle title) ""); [done|].
  repeat case_match; done.
Qed.

End ManagerFields.

(** ** The managers under concurrent title changes *)

Section ManagersFiled.

Context {G St R C : Type}.
Context {ops : Operations G} {pkg : GitPackage} {store : SessionService St}
        {reg : Registry G R} {cps : CheckpointManager C} {llm : ClaudeService}.
Context {tables : strconv.PrintTables}.

Lemma isWorktreeDirectory_prefix (os : OS) (dir : string) :
  isWorktreeDirectory os dir = true → strings.HasPrefix dir "/workspace/" = true.
Proof.
  unfold isWorktreeDirectory. by destruct (strings.HasPrefix dir "/workspace/").
Qed.

(** A critical section of a call keeps the managers filed, the calls
    being for directories under [/workspace/]. *)
Lemma stepCall_managersFiled (sys : system G St R C) (i : nat) :
  (∀ j c, sys_calls sys !! j = Some c →
          strings.HasPrefix (call_workDir c) "/workspace/" = true) →
  managersFiled (sys_monitor sys) →
  (∀ j c, sys_calls (stepCall sys i) !! j = Some c →
          strings.HasPrefix (call_workDir c) "/workspace/" = true)
  ∧ managersFiled (sys_monitor (stepCall sys i)).
Proof.
  intros Hcalls Hfiled. unfold stepCall.
  destruct (sys_calls sys !! i) as [c|] eqn:Hi; [|done].
  assert (∀ st j c', <[i := atStage c st]> (sys_calls sys) !! j = Some c' →
            strings.HasPrefix (call_workDir c') "/workspace/" = true) as Hmoved.
  { intros st j c' [(_ & <- & _)|[_ Hj]]%list_lookup_insert_Some.
    - by apply (Hcalls i c).
    - by apply (Hcalls j c'). }
  destruct (call_stage c).
  - destruct (recordTitle _ _ _ _ _) as [recent forwarded]. cbn. split; [|done].
    apply Hmoved.
  - unfold obtainManager.
    destruct (checkpointManagers (sys_monitor sys) !! call_workDir c) as [m|] eqn:Hm;
      cbn; (split; [apply Hmoved|]); [done|].
    intros path m. cbn [checkpointManagers monitor_gitService].
    destruct (decide (call_workDir c = path)) as [<-|Hne].
    + rewrite lookup_insert_eq. intros [= <-]. cbn.
      split; [done|]. split; [by apply (Hcalls i c) | done].
    + rewrite lookup_insert_ne by done. apply Hfiled.
  - destruct (checkpointManagers (sys_monitor sys) !! call_workDir c) as [m|] eqn:Hm.
    + pose proof (HandleTitleChange_manager m (sys_world sys) (call_title c)) as Hfields.
      destruct (HandleTitleChange m (sys_world sys) (call_title c)) as [[m' w'] started].
      destruct Hfields as (Hdir & Hsvc & _). cbn. split; [apply Hmoved|].
      intros path m0. unfold storeManager.
      cbn [checkpointManagers monitor_gitService].
      destruct (decide (call_workDir c = path)) as [<-|Hne].
      * rewrite lookup_insert_eq. intros [= <-]. rewrite Hdir, Hsvc.
        by apply Hfiled.
      * rewrite lookup_insert_ne by done. apply Hfiled.
    + cbn. split; [apply Hmoved | done].
  - done.
Qed.

(** X7.  However the critical sections of concurrent
    [handleTitleChange] calls for worktree directories are interleaved,
    and whatever the calls find in the repositories, every manager of
    the service stays filed under its own directory, that directory lies
    under [/workspace/], and the manager has the git service of the
    monitor. *)
Theorem managers_filed_under_interleaving (os : OS) (s : ClaudeMonitorService C)
    (w : world G St R) (events : list titleArrival) (schedule : list nat) :
  (∀ e, e ∈ events → isWorktreeDirectory os (arr_workDir e) = true) →
  managersFiled s →
  managersFiled (sys_monitor (runSchedule (startWith s w events) schedule)).
Proof.
  intros Hevents Hfiled. unfold runSchedule.
  assert (∀ j c, sys_calls (startWith s w events) !! j = Some c →
            strings.HasPrefix (call_workDir c) "/workspace/" = true) as Hcalls.
  { intros j c. cbn. rewrite list_lookup_fmap.
    destruct (events !! j) as [e|] eqn:Hj; [|done]. intros [= <-]. cbn.
    eapply isWorktreeDirectory_prefix, Hevents. by eapply list_elem_of_lookup_2. }
  change (managersFiled (sys_monitor (startWith s w events))) in Hfiled.
  revert Hcalls Hfiled. generalize (startWith s w events).
  induction schedule as [|i schedule IH]; intros sys Hcalls Hfiled; [done|].
  cbn [fold_left].
  destruct (stepCall_managersFiled sys i Hcalls Hfiled) as [Hcalls' Hfiled'].
  by apply IH.
Qed.

(** X8.  When [HandleTitleChange] starts a renaming.  It starts one
    exactly when the flag [renamingInProgress] is not set, the new title
    is not empty and the current branch, looked up after the work done
    under the previous title has been committed, is a catnip branch; it
    then hands the new title to the renaming and sets the flag.  It
    never clears the flag. *)
Theorem HandleTitleChange_starts_renaming (m : WorktreeCheckpointManager C)
    (w : world G St R) (newTitle : string) :
  let previousTitle := GetPreviousTitle (sessions w) (workDir m) in
  let committed :=
    if negb (String.eqb previousTitle "") && negb (String.eqb previousTitle newTitle)
    then (commitPreviousWork m w previousTitle).2
    else w in
  let starts :=
    negb (renamingInProgress m) && negb (String.eqb newTitle "")
    && (isCurrentBranchCatnip m (git committed)).2 in
  let '(m', _, started) := HandleTitleChange m w newTitle in
  started = (if starts then Some newTitle else None)
  ∧ renamingInProgress m' = renamingInProgress m || starts.
Proof.
  cbn zeta. unfold HandleTitleChange.
  set (previousTitle := GetPreviousTitle (sessions w) (workDir m)).
  pose proof (commitPreviousWork_manager m w previousTitle) as (Hdir & _ & _ & Hflag).
  assert (∀ (m1 m2 : WorktreeCheckpointManager C) g,
            workDir m1 = workDir m2 →
            isCurrentBranchCatnip m1 g = isCurrentBranchCatnip m2 g) as Hquery
    by (intros m1 m2 g Heq; unfold isCurrentBranchCatnip; by rewrite Heq).
  destruct (negb (String.eqb previousTitle "")
            && negb (String.eqb previousTitle newTitle)).
  - destruct (commitPreviousWork m w previousTitle) as [m1 w1]. cbn [fst snd] in *.
    destruct (UpdateSessionTitle _ _ _ _) as [s1 e1].
    cbn [renamingInProgress currentTitle]. rewrite Hflag.
    destruct (renamingInProgress m); cbn [negb andb orb]; [done|].
    destruct (String.eqb newTitle ""); cbn [negb andb]; [by rewrite ?Hflag|].
    cbn [git].
    match goal with
    | |- context [isCurrentBranchCatnip ?m2 (git w1)] =>
      rewrite (Hquery m2 m (git w1)) by done
    end.
    destruct (isCurrentBranchCatnip m (git w1)) as [g catnip].
    destruct catnip; cbn; by rewrite ?Hflag.
  - destruct (UpdateSessionTitle _ _ _ _) as [s1 e1].
    cbn [renamingInProgress currentTitle].
    destruct (renamingInProgress m) eqn:Hset; cbn [negb andb orb]; [done|].
    destruct (String.eqb newTitle ""); cbn [negb andb]; [done|].
    cbn [git].
    match goal with
    | |- context [isCurrentBranchCatnip ?m2 (git w)] =>
      rewrite (Hquery m2 m (git w)) by done
    end.
    destruct (isCurrentBranchCatnip m (git w)) as [g catnip].
    by destruct catnip.
Qed.

(** X9.  A renaming started with a title whose cleaned form is empty
    leaves the flag set.  When [HandleTitleChange] starts a renaming it
    sets [renamingInProgress]; [checkAndRenameBranch], given a title that
    cleans to the empty string, returns before it has arranged for the
    flag to be cleared and changes nothing; and while the flag is set a
    title change starts no renaming and leaves it set. *)
Theorem renaming_flag_left_set (m : WorktreeCheckpointManager C)
    (w : world G St R) (newTitle : string) :
  let '(m1, _, started) := HandleTitleChange m w newTitle in
  ∀ title, started = Some title →
    title = newTitle
    ∧ renamingInProgress m1 = true
    ∧ (cleanTitle title = "" →
       ∀ w2 later,
         checkAndRenameBranch m1 w2 title = (m1, w2)
         ∧ (HandleTitleChange m1 w2 later).2 = None
         ∧ renamingInProgress (HandleTitleChange m1 w2 later).1.1 = true).
Proof.
  pose proof (HandleTitleChange_manager m w newTitle) as Hfields.
  destruct (HandleTitleChange m w newTitle) as [[m1 w1] started].
  intros title ->. destruct Hfields as (_ & _ & _ & -> & _ & Hset).
  split; [done|]. split; [done|]. intros Hempty w2 later.
  split.
  - unfold checkAndRenameBranch. by rewrite Hempty.
  - pose proof (HandleTitleChange_manager m1 w2 later) as Hlater.
    destruct (HandleTitleChange m1 w2 later) as [[m2 w3] started2]. cbn [fst snd].
    destruct Hlater as (_ & _ & _ & Hsecond).
    destruct started2 as [t|].
    + destruct Hsecond as (_ & Hunset & _). congruence.
    + split; [done | congruence].
Qed.

End ManagersFiled.

Section ManagersFiledExamples.

Import Sim Scenario Graduating PlainText.

(** X7 (witness).  Two calls for the worktree [alpha] of a service just
    created, their critical sections taken in turn. *)
Lemma managers_filed_under_interleaving_witness :
  managersFiled
    (sys_monitor
       (runSchedule
          (startWith (NewClaudeMonitorService true) (worldWith repositories) events)
          [0; 1; 0; 1; 1; 0]%nat)).
Proof.
  apply (managers_filed_under_interleaving Workspace.os).
  - intros e [->|[->|[]%elem_of_nil]%elem_of_cons]%elem_of_cons; reflexivity.
  - intros path m Hm. cbn in Hm. discriminate Hm.
Defined.

(** X9 (witness).  The terminal title [**] notified for the worktree
    [alpha], which is on a scratch branch: its cleaned form [*] is handed
    to the renaming, in whose hands it cleans to the empty string.  The
    renaming changes nothing, and the title [Add login flow] that
    follows starts no renaming. *)
Lemma renaming_flag_left_set_witness :
  let llm := suggesting loginFlow in
  let w := worldWith repositories in
  let m := createCheckpointManager (NewClaudeMonitorService true) alpha in
  cleanTitle "**" = "*"
  ∧ (HandleTitleChange m w "*").2 = Some "*"
  ∧ cleanTitle "*" = ""
  ∧ let m1 := (HandleTitleChange m w "*").1.1 in
    let w1 := (HandleTitleChange m w "*").1.2 in
    renamingInProgress m1 = true
    ∧ checkAndRenameBranch m1 w1 "*" = (m1, w1)
    ∧ (HandleTitleChange m1 w1 "Add login flow").2 = None
    ∧ renamingInProgress (HandleTitleChange m1 w1 "Add login flow").1.1 = true.
Proof.
  intros llm w m.
  split; [reflexivity|]. split; [reflexivity|]. split; [reflexivity|].
  pose proof (renaming_flag_left_set m w "*") as Hleft.
  destruct (HandleTitleChange m w "*") as [[m1 w1] started] eqn:Hrun.
  assert (started = Some "*") as Hstarted
    by (apply (f_equal snd) in Hrun; by vm_compute in Hrun).
  destruct (Hleft "*" Hstarted) as (_ & Hset & Hstuck). cbn [fst snd].
  split; [exact Hset|]. by apply Hstuck.
Defined.

End ManagersFiledExamples.

(** ** Renaming on request *)

Section ManualRename.

Context {G St R C : Type}.
Context {ops : Operations G} {pkg : GitPackage} {store : SessionService St}
        {reg : Registry G R} {cps : CheckpointManager C} {llm : ClaudeService}.
Context {tables : strconv.PrintTables}.

(** X10.  What [TriggerBranchRename] reports.  Without a manager for the
    worktree it fails and touches nothing.  It starts a renaming only
    when no custom name is given, and then with the current title of the
    manager, which is not empty, and without an error.  With a custom
    name, no error means that the name passed the validation, that the
    collision loop settled on a name, and that git created and checked
    out a branch of that name.  Without a custom name, a manager with a
    title and a readable [HEAD] are all it takes to start a renaming: the
    flag [renamingInProgress] is not looked at. *)
Theorem TriggerBranchRename_outcomes (s : ClaudeMonitorService C)
    (w : world G St R) (dir customBranchName : string) :
  let '(w', err, started) := TriggerBranchRename s w dir customBranchName in
  (checkpointManagers s !! dir = None →
   w' = w ∧ started = None
   ∧ err = Some ("no checkpoint manager found for worktree: " +:+ dir))
  ∧ (∀ title, started = Some title →
       customBranchName = "" ∧ err = noError ∧ title ≠ ""
       ∧ ∃ m, checkpointManagers s !! dir = Some m ∧ currentTitle m = title)
  ∧ (customBranchName ≠ "" → err = noError →
       ∃ m g out finalBranch,
         checkpointManagers s !! dir = Some m
         ∧ ExecuteGit (git w) dir ["rev-parse"; "--symbolic-full-name"; "HEAD"]
           = (g, (out, noError))
         ∧ isValidGitBranchName g customBranchName = true
         ∧ resolveCollision g dir customBranchName = Resolved finalBranch
         ∧ (ExecuteGit g (workDir m) ["checkout"; "-b"; finalBranch]).2.2
           = noError)
  ∧ (∀ m, checkpointManagers s !! dir = Some m →
       customBranchName = "" → currentTitle m ≠ "" →
       (ExecuteGit (git w) dir ["rev-parse"; "--symbolic-full-name"; "HEAD"]).2.2
         = noError →
       started = Some (currentTitle m)).
Proof.
  assert (let '(w', err, started) := TriggerBranchRename s w dir customBranchName in
          ∀ m, checkpointManagers s !! dir = Some m →
            customBranchName = "" → currentTitle m ≠ "" →
            (ExecuteGit (git w) dir ["rev-parse"; "--symbolic-full-name"; "HEAD"]).2.2
              = noError →
            started = Some (currentTitle m)) as Hstarts.
  { unfold TriggerBranchRename.
    destruct (checkpointManagers s !! dir) as [m|] eqn:Hm; [|done].
    destruct (ExecuteGit (git w) dir _) as [g [out err]] eqn:Hrev.
    destruct err as [e|]; cbn [isNil negb]; [by intros m' _ _ _ ?|].
    destruct (String.eqb_spec customBranchName "") as [->|Hname]; cbn [negb].
    - destruct (String.eqb_spec (currentTitle m) "") as [Hnone|Htitle].
      + by intros m' [= <-] _ ?.
      + by intros m' [= <-] _ _ _.
    - destruct (isValidGitBranchName g customBranchName); cbn [negb];
        [|by intros m' _ ?].
      destruct (resolveCollision g dir customBranchName); [|by intros m' _ ?..].
      destruct (renameBranch m (setGit w g) _ _) as [w1 err1].
      destruct (isNil err1); by intros m' _ ?. }
  revert Hstarts.
  cut (let '(w', err, started) := TriggerBranchRename s w dir customBranchName in
       (checkpointManagers s !! dir = None →
        w' = w ∧ started = None
        ∧ err = Some ("no checkpoint manager found for worktree: " +:+ dir))
       ∧ (∀ title, started = Some title →
            customBranchName = "" ∧ err = noError ∧ title ≠ ""
            ∧ ∃ m, checkpointManagers s !! dir = Some m ∧ currentTitle m = title)
       ∧ (customBranchName ≠ "" → err = noError →
            ∃ m g out finalBranch,
              checkpointManagers s !! dir = Some m
              ∧ ExecuteGit (git w) dir ["rev-parse"; "--symbolic-full-name"; "HEAD"]
                = (g, (out, noError))
              ∧ isValidGitBranchName g customBranchName = true
              ∧ resolveCollision g dir customBranchName = Resolved finalBranch
              ∧ (ExecuteGit g (workDir m) ["checkout"; "-b"; finalBranch]).2.2
                = noError)).
  { destruct (TriggerBranchRename s w dir customBranchName) as [[w' err] started].
    by intros (? & ? & ?) ?. }
  unfold TriggerBranchRename.
  destruct (checkpointManagers s !! dir) as [m|] eqn:Hm.
  2:{ split; [done|]. split; [done|]. done. }
  destruct (ExecuteGit (git w) dir _) as [g [out err]] eqn:Hrev.
  destruct err as [e|]; cbn [isNil negb].
  { split; [done|]. split; [done | by intros _ ?]. }
  destruct (String.eqb_spec customBranchName "") as [->|Hname]; cbn [negb].
  - destruct (String.eqb_spec (currentTitle m) "") as [Hnone|Htitle].
    + split; [done|]. split; [done | by intros ?].
    + split; [done|]. split; [|by intros ?].
      intros title [= <-]. repeat split; [done|]. by exists m.
  - destruct (isValidGitBranchName g customBranchName) eqn:Hvalid; cbn [negb].
    2:{ split; [done|]. split; [done | by intros _ ?]. }
    destruct (resolveCollision g dir customBranchName) as [finalBranch| |] eqn:Hloop.
    2,3: (split; [done|]; split; [done | by intros _ ?]).
    unfold renameBranch.
    destruct (ExecuteGit (git (setGit w g)) (workDir m) _)
      as [g1 [out1 err1]] eqn:Hcheckout.
    cbn [git setGit] in Hcheckout.
    destruct err1 as [e1|]; cbn [isNil negb].
    { split; [done|]. split; [done | by intros _ ?]. }
    destruct (DeleteBranch g1 _ _ _) as [g2 e2].
    destruct (UpdateWorktreeBranchName g2 _ _ _) as [r e3].
    cbn [isNil negb]. split; [done|]. split; [done|]. intros _ _.
    exists m, g, out, finalBranch. rewrite Hcheckout. done.
Qed.

End ManualRename.

(** ** Session files *)

Lemma replaceFrom_byte_free (a b : ascii) (s : string) :
  a ≠ b →
  strings.Contains (strings.replaceFrom 0 s (String a "") (String b "")) (String a "")
  = false.
Proof.
  intros Hne. induction s as [|c s IH]; [done|].
  rewrite replaceFrom_byte, Contains_byte_cons, IH, orb_false_r.
  destruct (Ascii.eqb_spec c a) as [->|Hca].
  - by apply Ascii.eqb_neq.
  - by apply Ascii.eqb_neq.
Qed.

(** X11.  The path [getWorktreePathFromSessionFile] returns never
    contains a [-], whatever the session file: a worktree whose path has
    one is never what it returns. *)
Theorem getWorktreePathFromSessionFile_no_hyphen (sessionFilePath : string) :
  strings.Contains (getWorktreePathFromSessionFile sessionFilePath) "-" = false.
Proof.
  unfold getWorktreePathFromSessionFile.
  destruct (strings.HasPrefix _ "-"); [|done].
  unfold strings.ReplaceAll. by apply (replaceFrom_byte_free "-" "/").
Qed.

Lemma prefix_empty (s : string) : String.prefix "" s = true.
Proof. by destruct s. Qed.

(** The elements of a path hold no separator. *)
Lemma elements_no_separator (cur path e : string) :
  strings.Contains cur "/" = false →
  e ∈ filepath.elements cur path →
  strings.Contains e "/" = false.
Proof.
  revert cur. induction path as [|c path IH]; intros cur Hcur; cbn [filepath.elements].
  - by intros ->%list_elem_of_singleton.
  - destruct (Ascii.eqb_spec c filepath.Separator) as [->|Hc].
    + intros [->|Hin]%elem_of_cons; [done|]. by apply (IH "").
    + apply IH. destruct (strings.Contains (cur +:+ String c "") "/") eqn:Hhas; [|done].
      apply Contains_spec in Hhas as (x & y & Hxy).
      assert (strings.Contains cur "/" = true ∨ c = "/"%char) as [Hin|Heq].
      { clear -Hxy. revert x Hxy. induction cur as [|d cur IH]; intros x Hxy.
        - rewrite append_empty_l in Hxy. destruct x as [|x0 x].
          + rewrite append_empty_l, append_byte in Hxy. injection Hxy as -> _. by right.
          + rewrite append_cons in Hxy. injection Hxy as _ Hx. by destruct x.
        - destruct x as [|x0 x].
          + rewrite append_empty_l, append_byte, append_cons in Hxy.
            injection Hxy as -> _. left. by rewrite Contains_byte_cons.
          + rewrite !append_cons in Hxy. injection Hxy as _ Hx.
            destruct (IH x Hx) as [Hin|?]; [|by right].
            left. by rewrite Contains_byte_cons, Hin, orb_true_r. }
      * congruence.
      * done.
Qed.

Lemma Base_no_separator (path : string) :
  filepath.Base path = "/" ∨ strings.Contains (filepath.Base path) "/" = false.
Proof.
  unfold filepath.Base. destruct path as [|c path]; [by right|].
  destruct (filter _ _) as [|e es] eqn:Hes; [by left|].
  destruct (last (e :: es)) as [l|] eqn:Hlast; [|by left]. cbn [default].
  right. apply (elements_no_separator "" (String c path)); [done|].
  apply last_Some in Hlast as [k Hk].
  assert (l ∈ e :: es) as Hin by (rewrite Hk; apply elem_of_app; right; by left).
  rewrite <- Hes in Hin. by apply list_elem_of_filter in Hin as [_ ?].
Qed.

(** The path returned for a session file begins with [/] exactly when
    the name of the file's directory begins with [--].  So the directory
    that stands for an absolute path, whose name begins with a single
    [-], gives a path that is not absolute. *)
Lemma getWorktreePathFromSessionFile_absolute (sessionFilePath : string) :
  strings.HasPrefix (getWorktreePathFromSessionFile sessionFilePath) "/"
  = strings.HasPrefix (filepath.Base (filepath.Dir sessionFilePath)) "--".
Proof.
  unfold getWorktreePathFromSessionFile.
  destruct (Base_no_separator (filepath.Dir sessionFilePath)) as [->|Hfree]; [done|].
  destruct (filepath.Base (filepath.Dir sessionFilePath)) as [|c0 rest]; [done|].
  rewrite Contains_byte_cons in Hfree. apply orb_false_elim in Hfree as [_ Hfree].
  unfold strings.HasPrefix at 2 3. cbn [String.prefix].
  destruct (ascii_dec "-" c0) as [<-|Hc0]; [|done].
  cbn [strings.dropString]. unfold strings.ReplaceAll.
  destruct rest as [|c1 name]; [done|].
  rewrite Contains_byte_cons in Hfree. apply orb_false_elim in Hfree as [Hc1 _].
  rewrite replaceFrom_byte. unfold strings.HasPrefix. cbn [String.prefix].
  destruct (ascii_dec "-" c1) as [<-|Hne].
  - rewrite Ascii.eqb_refl, !prefix_empty. by destruct (ascii_dec "/" "/").
  - destruct (Ascii.eqb_spec c1 "-") as [->|_]; [done|].
    by destruct (ascii_dec "/" c1) as [<-|_].
Qed.

(** A worktree is found by its path, if one has it. *)
Lemma getWorktreeIDFromPath_found (worktrees : list (string * Worktree))
    (worktreePath : string) :
  (∃ worktree, (getWorktreeIDFromPath worktrees worktreePath, worktree) ∈ worktrees
               ∧ worktree_Path worktree = worktreePath)
  ∨ (getWorktreeIDFromPath worktrees worktreePath = ""
     ∧ ∀ id worktree, (id, worktree) ∈ worktrees →
                      worktree_Path worktree ≠ worktreePath).
Proof.
  induction worktrees as [|[id wt] rest IH]; cbn [getWorktreeIDFromPath].
  - right. split; [done|]. by intros id wt ?%elem_of_nil.
  - destruct (String.eqb_spec (worktree_Path wt) worktreePath) as [Heq|Hne].
    + left. exists wt. split; [by left | done].
    + destruct IH as [(wt' & Hin & Hpath)|[Hnone Hall]].
      * left. exists wt'. split; [by right | done].
      * right. split; [done|].
        intros id' wt' [[= -> ->]|Hin]%elem_of_cons; [done | by eapply Hall].
Qed.

(** X12.  [getWorktreeIDFromPath] over the worktrees of a map, in
    whatever order the iteration takes them: when some worktree has the
    path, the result is the id of a worktree with that path; when none
    has, it is the empty string. *)
Theorem getWorktreeIDFromPath_spec (worktrees : gmap string Worktree)
    (order : list (string * Worktree)) (worktreePath : string) :
  order ≡ₚ map_to_list worktrees →
  let id := getWorktreeIDFromPath order worktreePath in
  ((∃ id' worktree, worktrees !! id' = Some worktree
                    ∧ worktree_Path worktree = worktreePath) →
   ∃ worktree, worktrees !! id = Some worktree
               ∧ worktree_Path worktree = worktreePath)
  ∧ ((∀ id' worktree, worktrees !! id' = Some worktree →
                      worktree_Path worktree ≠ worktreePath) →
     id = "").
Proof.
  intros Horder id.
  destruct (getWorktreeIDFromPath_found order worktreePath)
    as [(wt & Hin & Hpath)|[Hnone Hall]]; fold id in Hin || fold id in Hnone.
  - rewrite Horder in Hin. apply elem_of_map_to_list in Hin. split.
    + intros _. by exists wt.
    + intros Hno. by destruct (Hno _ _ Hin).
  - split; [|done]. intros (id' & wt & Hwt & Hpath).
    destruct (Hall id' wt); [|done].
    rewrite Horder. by apply elem_of_map_to_list.
Qed.

Section SessionFileProofs.

Context {W T : Type} {manager : StateManager W T} {reader : TodoReader T}.

(** X13.  A session file whose size is what it was when it was last
    handled is not handled again: the second of two calls for a file
    that [os.Stat] finds with one size changes nothing, whether or not
    the first call could read the todos. *)
Theorem handleSessionFileUpdate_once (statSize : string → option Z)
    (sessionFileStates : gmap string Z) (state : W) (sessionFilePath : string)
    (size : Z) :
  statSize sessionFilePath = Some size →
  let '(states', state') :=
    handleSessionFileUpdate statSize sessionFileStates state sessionFilePath in
  handleSessionFileUpdate statSize states' state' sessionFilePath = (states', state').
Proof.
  intros Hstat. unfold handleSessionFileUpdate. rewrite Hstat.
  destruct (String.eqb (getWorktreePathFromSessionFile sessionFilePath) "") eqn:Hpath.
  { done. }
  destruct (sessionFileStates !! sessionFilePath) as [lastSize|] eqn:Hlast.
  - destruct (Z.eqb_spec size lastSize) as [->|Hne].
    + by rewrite Hlast, Z.eqb_refl.
    + destruct (GetLatestTodos _) as [todos err].
      destruct (isNil err); cbn [negb].
      * destruct (UpdateWorktree _ _ _) as [state' e].
        by rewrite lookup_insert_eq, Z.eqb_refl.
      * by rewrite lookup_insert_eq, Z.eqb_refl.
  - destruct (GetLatestTodos _) as [todos err].
    destruct (isNil err); cbn [negb].
    + destruct (UpdateWorktree _ _ _) as [state' e].
      by rewrite lookup_insert_eq, Z.eqb_refl.
    + by rewrite lookup_insert_eq, Z.eqb_refl.
Qed.

(** X14.  The todos of a session never reach a worktree with an
    absolute path: when the paths of all worktrees begin with [/] and the
    name of the session file's directory does not begin with [--], the
    worktree id that [handleSessionFileUpdate] looks up for the update is
    the empty string. *)
Theorem session_todos_miss_absolute_worktrees
    (worktrees : list (string * Worktree)) (sessionFilePath : string) :
  (∀ id worktree, (id, worktree) ∈ worktrees →
                  strings.HasPrefix (worktree_Path worktree) "/" = true) →
  strings.HasPrefix (filepath.Base (filepath.Dir sessionFilePath)) "--" = false →
  getWorktreeIDFromPath worktrees (getWorktreePathFromSessionFile sessionFilePath)
  = "".
Proof.
  intros Habs Hname.
  destruct (getWorktreeIDFromPath_found worktrees
              (getWorktreePathFromSessionFile sessionFilePath))
    as [(wt & Hin & Hpath)|[Hnone _]]; [|done].
  apply Habs in Hin. rewrite Hpath, getWorktreePathFromSessionFile_absolute in Hin.
  congruence.
Qed.

End SessionFileProofs.

(** ** The most recently used worktree *)

Lemma mostRecentlyAccessed_spec (cur : option Worktree) (worktrees : list Worktree) :
  match mostRecentlyAccessed cur worktrees with
  | Some wt =>
    (cur = Some wt ∨ wt ∈ worktrees)
    ∧ (∀ wt', wt' ∈ worktrees →
              worktree_LastAccessed wt' ≤ worktree_LastAccessed wt)
    ∧ (∀ wt', cur = Some wt' →
              worktree_LastAccessed wt' ≤ worktree_LastAccessed wt)
  | None => cur = None ∧ worktrees = []
  end.
Proof.
  revert cur. induction worktrees as [|wt rest IH]; intros cur; cbn [mostRecentlyAccessed].
  - destruct cur as [wt|]; [|done]. split; [by left|].
    split; [by intros wt' ?%elem_of_nil | by intros wt' [= ->]].
  - set (next := match cur with
                 | None => Some wt
                 | Some recent =>
                   if time_After (worktree_LastAccessed wt) (worktree_LastAccessed recent)
                   then Some wt else Some recent
                 end).
    specialize (IH next).
    assert (∃ n, next = Some n
                 ∧ (n = wt ∨ cur = Some n)
                 ∧ worktree_LastAccessed wt ≤ worktree_LastAccessed n
                 ∧ ∀ wt', cur = Some wt' →
                          worktree_LastAccessed wt' ≤ worktree_LastAccessed n)
      as (n & Hnext & Hwhich & Hwt & Hcur).
    { subst next. destruct cur as [recent|].
      - unfold time_After.
        destruct (Z.ltb_spec (worktree_LastAccessed recent) (worktree_LastAccessed wt)).
        + exists wt. repeat split; [by left | lia |]. intros wt' [= <-]. lia.
        + exists recent. repeat split; [by right | lia |]. by intros wt' [= <-].
      - exists wt. repeat split; [by left | lia | done]. }
    destruct (mostRecentlyAccessed next rest) as [best|].
    + destruct IH as (Hfrom & Hrest & Hprev). specialize (Hprev n Hnext).
      split; [|split].
      * destruct Hfrom as [Heq|Hin]; [|right; by right].
        rewrite Hnext in Heq. injection Heq as <-.
        destruct Hwhich as [->|?]; [right; by left | by left].
      * intros wt' [->|Hin]%elem_of_cons; [lia | by apply Hrest].
      * intros wt' Hwt'. specialize (Hcur wt' Hwt'). lia.
    + destruct IH as [Hnone _]. congruence.
Qed.

(** X15.  [GetDefaultWorktreePath] returns the path of a worktree that
    none of the others was accessed after, in whatever order the
    worktrees are gone through; with no worktree it returns the
    workspace directory. *)
Theorem GetDefaultWorktreePath_most_recent (os : OS) (worktrees : list Worktree) :
  match worktrees with
  | [] => GetDefaultWorktreePath os worktrees = getWorkspaceDir os
  | _ =>
    ∃ wt, wt ∈ worktrees
          ∧ GetDefaultWorktreePath os worktrees = worktree_Path wt
          ∧ ∀ wt', wt' ∈ worktrees →
                   worktree_LastAccessed wt' ≤ worktree_LastAccessed wt
  end.
Proof.
  unfold GetDefaultWorktreePath.
  pose proof (mostRecentlyAccessed_spec None worktrees) as Hspec.
  destruct worktrees as [|wt0 rest]; [done|].
  destruct (mostRecentlyAccessed None (wt0 :: rest)) as [wt|].
  - destruct Hspec as ([Hnone|Hin] & Hmax & _); [done|]. by exists wt.
  - by destruct Hspec as [_ ?].
Qed.

(** ** Telling errors apart *)

Lemma Contains_trans (s t u : string) :
  strings.Contains s t = true → strings.Contains t u = true →
  strings.Contains s u = true.
Proof.
  rewrite !Contains_spec. intros (a & b & ->) (c & d & ->).
  exists (a +:+ c), (d +:+ b). by rewrite !append_assoc.
Qed.

(** X16.  [isUncommittedChangesError] holds of an output exactly when
    it contains [Your index contains uncommitted changes] or [Please
    commit or stash them]; the second of the three indicators it looks
    for contains the first and decides nothing. *)
Theorem isUncommittedChangesError_spec (output : string) :
  isUncommittedChangesError output
  = strings.Contains output "Your index contains uncommitted changes"
    || strings.Contains output "Please commit or stash them".
Proof.
  unfold isUncommittedChangesError, uncommittedIndicators. cbn [existsb].
  rewrite orb_false_r.
  destruct (strings.Contains output "Your index contains uncommitted changes")
    eqn:Hfirst; [done|]. cbn [orb].
  destruct (strings.Contains output
              "cannot rebase: Your index contains uncommitted changes") eqn:Hsecond;
    [|done].
  rewrite (Contains_trans output
             "cannot rebase: Your index contains uncommitted changes"
             "Your index contains uncommitted changes") in Hfirst; [done | done |].
  by vm_compute.
Qed.

(** ** Cleanup of the [refs/catnip/] namespace *)

Section RefCleanupProofs.

Context {G : Type}.
Context {ops : Operations G} {pkg : GitPackage} {mnt : Maintenance G}.

(** What holds of a pass under way: the deletions asked for were
    allowed, and [count] successful ones have been made in the current
    repository. *)
Lemma cleanupRef_deletable (P : refDeletion G → Prop) (repo : Repository)
    (listing : string) (st : G * list (refDeletion G) * nat) (line : string) :
  line ∈ strings.Split (strings.TrimSpace listing) newline →
  (∀ g ref e, refDeletable g (repo_Path repo) listing ref →
              P {| rdel_before := g; rdel_repoPath := repo_Path repo;
                   rdel_listing := listing; rdel_ref := ref; rdel_err := e |}) →
  Forall P st.1.2 → Forall P (cleanupRef repo listing st line).1.2.
Proof.
  intros Hline Hnew Hold. destruct st as [[g calls] n]. unfold cleanupRef.
  destruct (String.eqb_spec (strings.TrimSpace line) "") as [|Hne]; [done|].
  destruct (ListWorktrees g (repo_Path repo)) as [worktrees werr] eqn:Hlist.
  destruct (if isNil werr
            then existsb (λ wt, String.eqb (wt_Branch wt) (strings.TrimSpace line))
                         worktrees
            else false) eqn:Hskip; [done|].
  destruct (ExecuteGit g (repo_Path repo) _) as [g' [out err]].
  cbn [fst snd] in *. apply Forall_app. split; [done|].
  apply Forall_cons. split; [|done].
  apply Hnew. split; [done|]. split; [by exists line|].
  intros wts Hwts wt Hin Heq. rewrite Hlist in Hwts. injection Hwts as -> ->.
  change (isNil noError) with true in Hskip. cbn iota in Hskip.
  assert (existsb (λ wt, String.eqb (wt_Branch wt) (strings.TrimSpace line)) wts = true)
    as Hex; [|congruence].
  apply existsb_exists. exists wt. split; [by apply list_elem_of_In|].
  by apply String.eqb_eq.
Qed.

Lemma fold_cleanupRef_deletable (P : refDeletion G → Prop) (repo : Repository)
    (listing : string) (lines : list string) (st : G * list (refDeletion G) * nat) :
  (∀ line, line ∈ lines → line ∈ strings.Split (strings.TrimSpace listing) newline) →
  (∀ g ref e, refDeletable g (repo_Path repo) listing ref →
              P {| rdel_before := g; rdel_repoPath := repo_Path repo;
                   rdel_listing := listing; rdel_ref := ref; rdel_err := e |}) →
  Forall P st.1.2 → Forall P (fold_left (cleanupRef repo listing) lines st).1.2.
Proof.
  intros Hlines Hnew. revert st Hlines.
  induction lines as [|line lines IH]; intros st Hlines Hst; [done|].
  cbn [fold_left]. apply IH.
  - intros l Hl. apply Hlines. by right.
  - apply cleanupRef_deletable; [apply Hlines; by left | done | done].
Qed.

(** A positive count stands for a successful deletion in the
    repository. *)
Lemma cleanupRef_counted (repo : Repository) (listing : string)
    (st : G * list (refDeletion G) * nat) (line : string) :
  ((0 < st.2)%nat → ∃ d, d ∈ st.1.2 ∧ rdel_repoPath d = repo_Path repo
                         ∧ rdel_err d = noError) →
  (0 < (cleanupRef repo listing st line).2)%nat →
  ∃ d, d ∈ (cleanupRef repo listing st line).1.2
       ∧ rdel_repoPath d = repo_Path repo ∧ rdel_err d = noError.
Proof.
  destruct st as [[g calls] n]. unfold cleanupRef. cbn [fst snd]. intros Hold.
  destruct (String.eqb (strings.TrimSpace line) ""); [done|].
  destruct (ListWorktrees g (repo_Path repo)) as [worktrees werr].
  destruct (if isNil werr then _ else false); [done|].
  destruct (ExecuteGit g (repo_Path repo) _) as [g' [out err]].
  cbn [fst snd]. destruct err as [e|]; cbn [isNil].
  - intros Hn. destruct (Hold Hn) as (d & Hd & Hrest).
    exists d. split; [apply elem_of_app; by left | done].
  - intros _. eexists. split; [apply elem_of_app; right; apply list_elem_of_here|].
    done.
Qed.

Lemma fold_cleanupRef_counted (repo : Repository) (listing : string)
    (lines : list string) (st : G * list (refDeletion G) * nat) :
  ((0 < st.2)%nat → ∃ d, d ∈ st.1.2 ∧ rdel_repoPath d = repo_Path repo
                         ∧ rdel_err d = noError) →
  (0 < (fold_left (cleanupRef repo listing) lines st).2)%nat →
  ∃ d, d ∈ (fold_left (cleanupRef repo listing) lines st).1.2
       ∧ rdel_repoPath d = repo_Path repo ∧ rdel_err d = noError.
Proof.
  revert st. induction lines as [|line lines IH]; intros st Hst; [done|].
  cbn [fold_left]. apply IH. by apply cleanupRef_counted.
Qed.

Lemma cleanupRef_keeps (repo : Repository) (listing : string)
    (st : G * list (refDeletion G) * nat) (line : string) (d : refDeletion G) :
  d ∈ st.1.2 → d ∈ (cleanupRef repo listing st line).1.2.
Proof.
  destruct st as [[g calls] n]. unfold cleanupRef. cbn [fst snd]. intros Hd.
  destruct (String.eqb (strings.TrimSpace line) ""); [done|].
  destruct (ListWorktrees g (repo_Path repo)) as [worktrees werr].
  destruct (if isNil werr then _ else false); [done|].
  destruct (ExecuteGit g (repo_Path repo) _) as [g' [out err]].
  cbn [fst snd]. apply elem_of_app. by left.
Qed.

Lemma fold_cleanupRef_keeps (repo : Repository) (listing : string)
    (lines : list string) (st : G * list (refDeletion G) * nat) (d : refDeletion G) :
  d ∈ st.1.2 → d ∈ (fold_left (cleanupRef repo listing) lines st).1.2.
Proof.
  revert st. induction lines as [|line lines IH]; intros st Hd; [done|].
  cbn [fold_left]. apply IH. by apply cleanupRef_keeps.
Qed.

Lemma cleanupRepositoryRefs_invariant (P : refDeletion G → Prop)
    (st : refCleanup G) (repo : Repository) :
  (∀ g listing ref e,
     (∃ g0, (ExecuteGit g0 (repo_Path repo)
               ["for-each-ref"; "--format=%(refname)"; "refs/catnip/"]).2
            = (listing, noError)) →
     refDeletable g (repo_Path repo) listing ref →
     P {| rdel_before := g; rdel_repoPath := repo_Path repo;
          rdel_listing := listing; rdel_ref := ref; rdel_err := e |}) →
  Forall P (rc_deletions st)
  ∧ (∀ path, path ∈ rc_collected st →
       ∃ d, d ∈ rc_deletions st ∧ rdel_repoPath d = path ∧ rdel_err d = noError) →
  let st' := cleanupRepositoryRefs st repo in
  Forall P (rc_deletions st')
  ∧ (∀ path, path ∈ rc_collected st' →
       ∃ d, d ∈ rc_deletions st' ∧ rdel_repoPath d = path ∧ rdel_err d = noError).
Proof.
  intros Hnew [Hold Hcollected]. unfold cleanupRepositoryRefs.
  destruct (ExecuteGit (rc_git st) (repo_Path repo) _) as [g [output err]] eqn:Hlisting.
  destruct err as [e|]; cbn [isNil negb]; [done|].
  destruct (String.eqb (strings.TrimSpace output) ""); [done|].
  assert (∃ g0, (ExecuteGit g0 (repo_Path repo)
                   ["for-each-ref"; "--format=%(refname)"; "refs/catnip/"]).2
                = (output, noError)) as Hfrom.
  { exists (rc_git st). by rewrite Hlisting. }
  pose proof (fold_cleanupRef_deletable P repo output
                (strings.Split (strings.TrimSpace output) newline)
                (g, rc_deletions st, O) (λ _ H, H)
                (λ g ref e, Hnew g output ref e Hfrom) Hold)
    as Hsafe.
  pose proof (fold_cleanupRef_counted repo output
                (strings.Split (strings.TrimSpace output) newline)
                (g, rc_deletions st, O) ltac:(cbn; lia)) as Hcount.
  pose proof (λ d, fold_cleanupRef_keeps repo output
                (strings.Split (strings.TrimSpace output) newline)
                (g, rc_deletions st, O) d) as Hkeeps.
  destruct (fold_left _ _ _) as [[g1 calls] n]. cbn [fst snd] in *.
  assert (∀ path, path ∈ rc_collected st →
            ∃ d, d ∈ calls ∧ rdel_repoPath d = path ∧ rdel_err d = noError) as Hstill.
  { intros path Hin. destruct (Hcollected path Hin) as (d & Hd & Hrest).
    exists d. split; [by apply Hkeeps | done]. }
  destruct (Nat.ltb_spec 0 n) as [Hpos|_].
  - destruct (GarbageCollect g1 (repo_Path repo)) as [g2 e]. cbn. split; [done|].
    intros path [Hin | ->%list_elem_of_singleton]%elem_of_app; [by apply Hstill|].
    by apply Hcount.
  - done.
Qed.

(** X17.  Every [git update-ref -d] that [cleanupCatnipRefs] runs is in
    a repository of the service and for a ref that is a line, trimmed
    and not empty, of what [git for-each-ref refs/catnip/] printed for
    that repository, and that no worktree listed at that moment has
    checked out.  The garbage collection is run only in a repository in
    which one of these deletions succeeded. *)
Theorem cleanupCatnipRefs_deletes_only_deletable
    (repositories : gmap string Repository) (g : G) :
  let pass := cleanupCatnipRefs repositories g in
  (∀ d, d ∈ rc_deletions pass →
     (∃ id repo, repositories !! id = Some repo ∧ rdel_repoPath d = repo_Path repo)
     ∧ (∃ g0, (ExecuteGit g0 (rdel_repoPath d)
                 ["for-each-ref"; "--format=%(refname)"; "refs/catnip/"]).2
              = (rdel_listing d, noError))
     ∧ refDeletable (rdel_before d) (rdel_repoPath d) (rdel_listing d) (rdel_ref d))
  ∧ (∀ path, path ∈ rc_collected pass →
       ∃ d, d ∈ rc_deletions pass ∧ rdel_repoPath d = path ∧ rdel_err d = noError).
Proof.
  unfold cleanupCatnipRefs.
  set (P := λ d : refDeletion G,
         (∃ id repo, repositories !! id = Some repo ∧ rdel_repoPath d = repo_Path repo)
         ∧ (∃ g0, (ExecuteGit g0 (rdel_repoPath d)
                     ["for-each-ref"; "--format=%(refname)"; "refs/catnip/"]).2
                  = (rdel_listing d, noError))
         ∧ refDeletable (rdel_before d) (rdel_repoPath d) (rdel_listing d) (rdel_ref d)).
  assert (∀ repos st,
            (∀ repo, repo ∈ repos → ∃ id, repositories !! id = Some repo) →
            Forall P (rc_deletions st)
            ∧ (∀ path, path ∈ rc_collected st →
                 ∃ d, d ∈ rc_deletions st ∧ rdel_repoPath d = path
                      ∧ rdel_err d = noError) →
            let st' := fold_left cleanupRepositoryRefs repos st in
            Forall P (rc_deletions st')
            ∧ (∀ path, path ∈ rc_collected st' →
                 ∃ d, d ∈ rc_deletions st' ∧ rdel_repoPath d = path
                      ∧ rdel_err d = noError)) as Hfold.
  { induction repos as [|repo repos IH]; intros st Hrepos Hst; [done|].
    cbn [fold_left]. apply IH; [intros r Hr; apply Hrepos; by right|].
    apply cleanupRepositoryRefs_invariant; [|done].
    intros g' listing ref e Hfrom Hok. split; [|done].
    destruct (Hrepos repo) as [id Hid]; [by left|]. by exists id, repo. }
  specialize (Hfold (snd <$> map_to_list repositories)
                {| rc_git := g; rc_deletions := []; rc_collected := [] |}).
  cbn zeta in Hfold. destruct Hfold as [Hsafe Hgc].
  - intros repo ([id repo'] & -> & Hin)%list_elem_of_fmap.
    apply elem_of_map_to_list in Hin. by exists id.
  - split; [apply Forall_nil_2 | by intros path ?%elem_of_nil].
  - split; [|done]. intros d Hd. by apply (proj1 (Forall_forall _ _) Hsafe).
Qed.

End RefCleanupProofs.

(** ** The logo *)

Lemma dropBlankTail_spec (fuel : nat) (lines : list string) :
  (length lines ≤ fuel)%nat →
  (∃ blanks, lines = dropBlankTail fuel lines ++ blanks
             ∧ Forall (λ line, strings.TrimSpace line = "") blanks)
  ∧ ∀ line, last (dropBlankTail fuel lines) = Some line →
            strings.TrimSpace line ≠ "".
Proof.
  revert lines. induction fuel as [|fuel IH]; intros lines Hlen.
  - destruct lines; [|cbn in Hlen; lia]. cbn. split; [by exists [] | done].
  - cbn [dropBlankTail]. destruct (last lines) as [line|] eqn:Hlast.
    + destruct (String.eqb_spec (strings.TrimSpace line) "") as [Hblank|Hfull].
      * apply last_Some in Hlast as [front ->].
        rewrite length_app, Nat.add_sub. cbn [length].
        rewrite take_app_length.
        destruct (IH front) as [(blanks & Hsplit & Hblanks) Hend];
          [rewrite length_app in Hlen; cbn in Hlen; lia|].
        split; [|done]. exists (blanks ++ [line]). split.
        -- by rewrite app_assoc, <- Hsplit.
        -- apply Forall_app. split; [done|]. by apply Forall_singleton.
      * split; [exists []; by rewrite app_nil_r|].
        intros line'. rewrite Hlast. by intros [= <-].
    + split; [exists []; by rewrite app_nil_r|].
      intros line'. by rewrite Hlast.
Qed.

(** X18.  [loadLogo] returns the lines of the first of its four files
    that can be read, without the blank lines at the end: what it
    returns does not end in a blank line, and the lines it leaves out are
    all blank.  When none of the files can be read it returns no
    lines. *)
Theorem loadLogo_drops_blank_tail (ReadFile : string → option string) :
  let lines := loadLogo ReadFile in
  (∀ line, last lines = Some line → strings.TrimSpace line ≠ "")
  ∧ ((∀ path, path ∈ possiblePaths → ReadFile path = None) → lines = [])
  ∧ (∀ i path content,
       possiblePaths !! i = Some path →
       ReadFile path = Some content →
       (∀ j earlier, (j < i)%nat → possiblePaths !! j = Some earlier →
                     ReadFile earlier = None) →
       ∃ blanks, strings.Split content newline = lines ++ blanks
                 ∧ Forall (λ line, strings.TrimSpace line = "") blanks).
Proof.
  unfold loadLogo. generalize possiblePaths. intros paths. cbn zeta.
  induction paths as [|path paths IH]; cbn [loadLogoFrom].
  - split; [done|]. split; [done|]. by intros i path content ?.
  - destruct IH as (IHlast & IHnone & IHfirst).
    destruct (ReadFile path) as [content|] eqn:Hread.
    + destruct (dropBlankTail_spec (length (strings.Split content newline))
                  (strings.Split content newline)) as [Hsplit Hend]; [done|].
      split; [done|]. split.
      * intros Hnone. rewrite Hnone in Hread by (by left). done.
      * intros [|i] path' content' Hi Hread' Hearlier.
        -- cbn in Hi. injection Hi as <-. rewrite Hread in Hread'.
           injection Hread' as <-. destruct Hsplit as (blanks & Hsplit & Hblanks).
           by exists blanks.
        -- rewrite (Hearlier 0%nat path) in Hread; [done | lia | done].
    + split; [done|]. split.
      * intros Hnone. apply IHnone. intros p Hp. apply Hnone. by right.
      * intros [|i] path' content' Hi Hread' Hearlier.
        -- cbn in Hi. injection Hi as <-. congruence.
        -- apply (IHfirst i path' content'); [done | done |].
           intros j earlier Hj Hlook. apply (Hearlier (S j) earlier); [lia | done].
Qed.

(** ** Title changes and stopping, in the in-memory git *)

Section TitleChangeWorld.

Context {G St R C : Type}.
Context {ops : Operations G} {pkg : GitPackage} {store : SessionService St}
        {reg : Registry G R} {cps : CheckpointManager C}.

(** The world after [HandleTitleChange]: the one the commit of the
    previous work leaves, with the new title in the session store and
    the repositories as the query for the current branch leaves them. *)
Lemma HandleTitleChange_world (m : WorktreeCheckpointManager C)
    (w : world G St R) (newTitle : string) :
  let previousTitle := GetPreviousTitle (sessions w) (workDir m) in
  let committed :=
    if negb (String.eqb previousTitle "") && negb (String.eqb previousTitle newTitle)
    then commitPreviousWork m w previousTitle
    else (m, w) in
  let w' := (HandleTitleChange m w newTitle).1.2 in
  sessions w'
    = (UpdateSessionTitle (sessions committed.2) (workDir m) newTitle "").1
  ∧ registry w' = registry committed.2
  ∧ (git w' = git committed.2
     ∨ ∃ m2 : WorktreeCheckpointManager C,
         workDir m2 = workDir m
         ∧ git w' = (isCurrentBranchCatnip m2 (git committed.2)).1).
Proof.
  intros previousTitle committed w'. subst w' committed. unfold HandleTitleChange.
  fold previousTitle.
  assert (workDir (if negb (String.eqb previousTitle "")
                      && negb (String.eqb previousTitle newTitle)
                   then commitPreviousWork m w previousTitle
                   else (m, w)).1 = workDir m) as Hd.
  { destruct (_ && _); [|done]. apply commitPreviousWork_manager. }
  destruct (if negb (String.eqb previousTitle "")
               && negb (String.eqb previousTitle newTitle)
            then commitPreviousWork m w previousTitle
            else (m, w)) as [m1 w1]. cbn [fst snd] in *. rewrite Hd.
  destruct (UpdateSessionTitle (sessions w1) (workDir m) newTitle "") as [s1 e1].
  cbn [renamingInProgress currentTitle fst].
  destruct (negb (renamingInProgress m1) && negb (String.eqb newTitle ""));
    [|split; [done|]; split; [done | by left]].
  cbn [git].
  match goal with
  | |- context [isCurrentBranchCatnip ?m2 (git w1)] =>
    destruct (isCurrentBranchCatnip m2 (git w1)) as [g catnip] eqn:Hq;
    assert (workDir m2 = workDir m) as Hm2 by done;
    assert (g = (isCurrentBranchCatnip m2 (git w1)).1) as Hg by (by rewrite Hq);
    clear Hq; set (mq := m2) in *
  end.
  destruct catnip; (split; [done|]; split; [done|]; right; by exists mq).
Qed.

End TitleChangeWorld.

Section SimTitleChange.

Import Sim.

Context {St R C : Type}.
Context {store : SessionService St} {reg : Registry Git R}
        {cps : CheckpointManager C}.

(** A command that leaves every tree as it is leaves the repositories
    as they are. *)
Lemma executeGit_query (g : Git) (dir : string) (args : list string) :
  (∀ t, (run t args).1 = t) → (executeGit g dir args).1 = g.
Proof.
  intros Hquery. unfold executeGit.
  destruct (trees g !! dir) as [t|] eqn:Ht; [|done].
  destruct (fails g args); [done|].
  specialize (Hquery t). destruct (run t args) as [t' out]. cbn [fst] in *. subst.
  by apply setTree_same.
Qed.

Lemma currentBranchName_query (g : Git) (dir : string) :
  (currentBranchName g dir).1 = g.
Proof.
  unfold currentBranchName. cbn [ExecuteGit operations].
  pose proof (executeGit_query g dir ["rev-parse"; "--symbolic-full-name"; "HEAD"]
                (λ t, eq_refl)) as Hrev.
  destruct (executeGit g dir ["rev-parse"; "--symbolic-full-name"; "HEAD"])
    as [g1 [out err]]. cbn [fst] in Hrev. subst g1.
  destruct (isNil err); cbn [negb]; [|done].
  destruct ((String.length (strings.TrimSpace out) =? 40)%nat
            && negb (strings.Contains (strings.TrimSpace out) "/")); [|done].
  pose proof (executeGit_query g dir ["status"; "--porcelain=v1"; "-b"]
                (λ t, eq_refl)) as Hstatus.
  destruct (executeGit g dir ["status"; "--porcelain=v1"; "-b"])
    as [g2 [statusOutput statusErr]]. cbn [fst] in Hstatus. subst g2.
  repeat case_match; done.
Qed.

Lemma isCurrentBranchCatnip_query (m : WorktreeCheckpointManager C) (g : Git) :
  (isCurrentBranchCatnip m g).1 = g.
Proof.
  unfold isCurrentBranchCatnip.
  pose proof (currentBranchName_query g (workDir m)) as Hname.
  destruct (currentBranchName g (workDir m)) as [g1 [currentBranch err]].
  cbn [fst] in Hname. subst g1. by destruct (isNil err).
Qed.

(** X19.  A title change commits the work done so far under the title
    it was done under.  In a repository whose commands succeed, when the
    session store knows a previous title, the new title differs from it
    and the worktree is dirty, [HandleTitleChange] adds one commit to
    the current branch, whose message is the previous title, and the
    session store records the hash against the previous title before it
    learns the new one; in every other case the repositories stay as
    they are and the session store only learns the new title. *)
Theorem HandleTitleChange_commits_previous_title (m : WorktreeCheckpointManager C)
    (w : world Git St R) (newTitle : string) (t : Tree) :
  gitService m = true →
  failing (git w) = [] →
  trees (git w) !! workDir m = Some t →
  let previousTitle := GetPreviousTitle (sessions w) (workDir m) in
  let w' := (HandleTitleChange m w newTitle).1.2 in
  if negb (String.eqb previousTitle "") && negb (String.eqb previousTitle newTitle)
     && dirty t
  then
    let hash := objectName (length (headCommits t)) in
    let t' := commit (stageAll t) previousTitle true in
    trees (git w') = <[workDir m := t']> (trees (git w))
    ∧ headCommits t' = {| commit_hash := hash; commit_message := previousTitle;
                          commit_noVerify := true |} :: headCommits t
    ∧ sessions w'
      = (UpdateSessionTitle
           (UpdatePreviousTitleCommitHash (sessions w) (workDir m) hash).1
           (workDir m) newTitle "").1
  else
    git w' = git w
    ∧ sessions w' = (UpdateSessionTitle (sessions w) (workDir m) newTitle "").1.
Proof.
  intros Hsvc Hnone Ht previousTitle w'.
  pose proof (HandleTitleChange_world m w newTitle) as (Hsessions & _ & Hgit).
  fold previousTitle w' in Hsessions, Hgit.
  assert (git w'
          = git (if negb (String.eqb previousTitle "")
                    && negb (String.eqb previousTitle newTitle)
                 then commitPreviousWork m w previousTitle
                 else (m, w)).2) as Hgit'.
  { destruct Hgit as [?|(m2 & _ & ->)]; [done|]. apply isCurrentBranchCatnip_query. }
  clear Hgit.
  pose proof (commitPreviousWork_cases m w previousTitle Hsvc Hnone) as Hcases.
  rewrite Ht in Hcases.
  destruct (negb (String.eqb previousTitle "")
            && negb (String.eqb previousTitle newTitle)); cbn [andb]; [|done].
  destruct (dirty t).
  - cbn zeta in Hcases. rewrite Hcases in Hsessions, Hgit'. cbn [snd git sessions] in *.
    rewrite Hgit'. split; [done|]. split; [|done].
    unfold headCommits. cbn. by rewrite lookup_insert_eq.
  - rewrite Hcases in Hsessions, Hgit'. done.
Qed.

(** What [Stop] does to the trees. *)
Lemma Stop_trees (m : WorktreeCheckpointManager C) (w : world Git St R) :
  gitService m = true →
  failing (git w) = [] →
  let w' := (Stop m w).2 in
  failing (git w') = []
  ∧ trees (git w')
    = match trees (git w) !! workDir m with
      | Some t =>
        if negb (String.eqb (currentTitle m) "") && dirty t
        then <[workDir m := commit (stageAll t) (currentTitle m) true]> (trees (git w))
        else trees (git w)
      | None => trees (git w)
      end.
Proof.
  intros Hsvc Hnone. unfold Stop. cbn [currentTitle].
  set (m0 := {| workDir := workDir m;
                checkpointManager := checkpointManager m;
                gitService := gitService m;
                currentTitle := currentTitle m;
                checkpointTimer := stopTimer <$> checkpointTimer m;
                renamingInProgress := renamingInProgress m |}).
  destruct (String.eqb (currentTitle m) ""); cbn [negb andb snd].
  { split; [done|]. by destruct (trees (git w) !! workDir m). }
  pose proof (commitPreviousWork_cases m0 w (currentTitle m) Hsvc Hnone) as Hcases.
  cbn [workDir m0] in Hcases.
  destruct (trees (git w) !! workDir m) as [t|]; [|by rewrite Hcases].
  destruct (dirty t); [|by rewrite Hcases].
  cbn zeta in Hcases. by rewrite Hcases.
Qed.

(** X20.  Stopping the monitor commits the pending work of every
    worktree it manages and removes all managers.  With managers filed
    under their own directories and holding a git service, in
    repositories whose commands succeed, [Stop] leaves a dirty tree
    whose manager has a current title with one more commit, carrying
    that title, and every other tree as it was. *)
Theorem stopMonitor_commits_all (s : ClaudeMonitorService C) (w : world Git St R) :
  (∀ path m, checkpointManagers s !! path = Some m →
             workDir m = path ∧ gitService m = true) →
  failing (git w) = [] →
  let '(s', w') := stopMonitor s w in
  checkpointManagers s' = ∅
  ∧ ∀ path,
      trees (git w') !! path
      = match checkpointManagers s !! path, trees (git w) !! path with
        | Some m, Some t =>
          Some (if negb (String.eqb (currentTitle m) "") && dirty t
                then commit (stageAll t) (currentTitle m) true
                else t)
        | _, tree => tree
        end.
Proof.
  intros Hwf Hnone. unfold stopMonitor. split; [done|].
  pose proof (map_fold_weak_ind
           (λ (r : world Git St R) (managers : gmap string (WorktreeCheckpointManager C)),
              (∀ path m, managers !! path = Some m →
                         workDir m = path ∧ gitService m = true) →
              failing (git r) = []
              ∧ ∀ path,
                  trees (git r) !! path
                  = match managers !! path, trees (git w) !! path with
                    | Some m, Some t =>
                      Some (if negb (String.eqb (currentTitle m) "") && dirty t
                            then commit (stageAll t) (currentTitle m) true
                            else t)
                    | _, tree => tree
                    end)
           (λ _ m w, (Stop m w).2) w) as Hind.
  apply Hind; [| |done].
  - intros _. split; [done|]. intros path. rewrite lookup_empty. done.
  - clear Hind. intros path m managers r Hfresh IH Hwf'.
    destruct IH as [Hfail Htrees].
    { intros p m' Hm'. apply Hwf'. rewrite lookup_insert_ne; [done|]. congruence. }
    destruct (Hwf' path m) as [Hdir Hsvc]; [apply lookup_insert_eq|].
    pose proof (Stop_trees m r Hsvc Hfail) as [Hfail' Hstop]. cbn zeta in *.
    split; [done|]. intros p. rewrite Hstop, Hdir.
    pose proof (Htrees path) as Hhere. rewrite Hfresh in Hhere.
    destruct (decide (path = p)) as [<-|Hne].
    + rewrite lookup_insert_eq, Hhere.
      destruct (trees (git w) !! path) as [t|]; [|done].
      destruct (negb (String.eqb (currentTitle m) "") && dirty t);
        [by rewrite lookup_insert_eq | done].
    + rewrite (lookup_insert_ne managers) by done.
      destruct (trees (git r) !! path) as [t|]; [|apply Htrees].
      destruct (negb (String.eqb (currentTitle m) "") && dirty t); [|apply Htrees].
      rewrite lookup_insert_ne by done. apply Htrees.
Qed.

End SimTitleChange.

Section SessionFileExamples.

Import Worktrees.

(** X12 (witness). *)
Lemma getWorktreeIDFromPath_spec_witness :
  ∃ worktree,
    all !! getWorktreeIDFromPath (map_to_list all) "/workspace/catnip/ember"
      = Some worktree
    ∧ worktree_Path worktree = "/workspace/catnip/ember".
Proof.
  apply (getWorktreeIDFromPath_spec all (map_to_list all) "/workspace/catnip/ember");
    [reflexivity|].
  exists "wt-ember", ember. split; reflexivity.
Defined.

(** X13 (witness).  A session file of 2048 bytes, handled twice. *)
Lemma handleSessionFileUpdate_once_witness :
  let statSize := λ _ : string, Some 2048 in
  let file := "/home/catnip/.claude/projects/-workspace-catnip-coal/session-uuid.jsonl" in
  let '(states', state') := handleSessionFileUpdate statSize ∅ (all, ∅) file in
  handleSessionFileUpdate statSize states' state' file = (states', state').
Proof.
  intros statSize file.
  apply (handleSessionFileUpdate_once statSize ∅ (all, ∅) file 2048). reflexivity.
Defined.

(** X14 (witness).  The session directory of the worktree [coal]. *)
Lemma session_todos_miss_absolute_worktrees_witness :
  getWorktreeIDFromPath listed
    (getWorktreePathFromSessionFile
       "/home/catnip/.claude/projects/-workspace-catnip-coal/session-uuid.jsonl")
  = "".
Proof.
  apply session_todos_miss_absolute_worktrees; [|reflexivity].
  intros id worktree Hin. unfold listed in Hin.
  apply elem_of_cons in Hin as [Hin|Hin]; [by injection Hin as -> ->|].
  apply elem_of_cons in Hin as [Hin|Hin]; [by injection Hin as -> ->|].
  by apply elem_of_nil in Hin.
Defined.

End SessionFileExamples.

Section SimTitleChangeExamples.

Import Sim Scenario.

(** X19 (witness).  Scenario 1 of the specification: the worktree
    [alpha] is dirty and its session is titled [Draft docs] when the
    title [Add login flow] arrives. *)
Lemma HandleTitleChange_commits_previous_title_witness :
  let w := worldWith (gitWith ∅ true) in
  let w' := (HandleTitleChange drafting w "Add login flow").1.2 in
  (commit_message <$> default [] (headCommits <$> trees (git w') !! alpha))
    = ["Draft docs"]
  ∧ sessions w' !! alpha
    = Some [ {| entry_title := "Add login flow"; entry_hash := "" |};
             {| entry_title := "Draft docs"; entry_hash := objectName 0 |} ].
Proof.
  intros w w'.
  pose proof (HandleTitleChange_commits_previous_title drafting w "Add login flow"
                (treeWith ∅ true) eq_refl eq_refl eq_refl) as Hchange.
  cbn zeta in Hchange. fold w' in Hchange.
  change (negb (String.eqb (GetPreviousTitle (sessions w) (workDir drafting)) "")
          && negb (String.eqb (GetPreviousTitle (sessions w) (workDir drafting))
                     "Add login flow")
          && dirty (treeWith ∅ true)) with true in Hchange.
  cbn iota in Hchange. destruct Hchange as (Htrees & Hhead & Hsessions).
  split; [rewrite Htrees | rewrite Hsessions]; vm_compute; reflexivity.
Defined.

(** X20 (witness).  Scenario 7 of the specification, seen from the
    monitor. *)
Lemma stopMonitor_commits_all_witness :
  let w := worldWith (gitWith ∅ true) in
  checkpointManagers (stopMonitor monitoring w).1 = ∅
  ∧ (commit_message <$>
       default [] (headCommits <$> trees (git (stopMonitor monitoring w).2) !! alpha))
    = ["Draft docs"].
Proof.
  intros w.
  pose proof (stopMonitor_commits_all monitoring w) as Hstop.
  destruct (stopMonitor monitoring w) as [s' w'] eqn:Hrun.
  destruct Hstop as [Hnone Htrees].
  - intros path m Hm. unfold monitoring in Hm. cbn [checkpointManagers] in Hm.
    apply lookup_singleton_Some in Hm as [<- <-]. split; reflexivity.
  - reflexivity.
  - split; [done|]. cbn [snd]. rewrite (Htrees alpha). vm_compute. reflexivity.
Defined.

End SimTitleChangeExamples.

(** ** Decimal numbers *)

(** One round of the loop of [ParseUint], on a digit and without
    overflow. *)
Lemma parseUintLoop_step (c : ascii) (k n : Z) (s : string) :
  byte c = 48 + k → 0 ≤ k ≤ 9 → 0 ≤ n → 10 * n + k < 2 ^ 63 →
  strconv.parseUintLoop n (String c s) = strconv.parseUintLoop (10 * n + k) s.
Proof.
  intros Hc Hk Hn Hbound. cbn [strconv.parseUintLoop].
  change (byte "0") with 48. change (byte "9") with 57. rewrite Hc.
  change (2 ^ 63) with 9223372036854775808 in Hbound.
  destruct (Z.leb_spec 48 (48 + k)); [|lia].
  destruct (Z.leb_spec (48 + k) 57); [|lia]. cbn [andb].
  unfold strconv.cutoff, strconv.maxUint64.
  change ((2 ^ 64 - 1) / 10 + 1) with 1844674407370955162.
  change (2 ^ 64 - 1) with 18446744073709551615.
  destruct (Z.leb_spec 1844674407370955162 n); [lia|].
  destruct (Z.ltb_spec 18446744073709551615 (n * 10 + (48 + k - 48))); [lia|].
  f_equal. lia.
Qed.

Lemma of_uint_acc_le (d : Decimal.uint) (acc : positive) :
  (acc ≤ Pos.of_uint_acc d acc)%positive.
Proof.
  revert acc. induction d as [|d IH|d IH|d IH|d IH|d IH|d IH|d IH|d IH|d IH|d IH];
    intros acc; cbn [Pos.of_uint_acc]; [lia|..];
    match goal with |- (_ ≤ Pos.of_uint_acc _ ?a)%positive =>
      specialize (IH a); lia end.
Qed.

(** The value the loop of [ParseUint] accumulates over the digits of a
    decimal numeral. *)
Lemma parseUintLoop_digits (d : Decimal.uint) (acc : positive) :
  Z.pos (Pos.of_uint_acc d acc) < 2 ^ 63 →
  strconv.parseUintLoop (Z.pos acc) (NilEmpty.string_of_uint d)
  = (Z.pos (Pos.of_uint_acc d acc), None).
Proof.
  revert acc.
  induction d as [|d IH|d IH|d IH|d IH|d IH|d IH|d IH|d IH|d IH|d IH];
    intros acc Hbound; cbn [Pos.of_uint_acc NilEmpty.string_of_uint] in *; [done|..].
  - pose proof (of_uint_acc_le d (10 * acc)).
    rewrite (parseUintLoop_step "0" 0) by (done || lia).
    rewrite <- IH by done. f_equal; lia.
  - pose proof (of_uint_acc_le d (1 + 10 * acc)).
    rewrite (parseUintLoop_step "1" 1) by (done || lia).
    rewrite <- IH by done. f_equal; lia.
  - pose proof (of_uint_acc_le d (2 + 10 * acc)).
    rewrite (parseUintLoop_step "2" 2) by (done || lia).
    rewrite <- IH by done. f_equal; lia.
  - pose proof (of_uint_acc_le d (3 + 10 * acc)).
    rewrite (parseUintLoop_step "3" 3) by (done || lia).
    rewrite <- IH by done. f_equal; lia.
  - pose proof (of_uint_acc_le d (4 + 10 * acc)).
    rewrite (parseUintLoop_step "4" 4) by (done || lia).
    rewrite <- IH by done. f_equal; lia.
  - pose proof (of_uint_acc_le d (5 + 10 * acc)).
    rewrite (parseUintLoop_step "5" 5) by (done || lia).
    rewrite <- IH by done. f_equal; lia.
  - pose proof (of_uint_acc_le d (6 + 10 * acc)).
    rewrite (parseUintLoop_step "6" 6) by (done || lia).
    rewrite <- IH by done. f_equal; lia.
  - pose proof (of_uint_acc_le d (7 + 10 * acc)).
    rewrite (parseUintLoop_step "7" 7) by (done || lia).
    rewrite <- IH by done. f_equal; lia.
  - pose proof (of_uint_acc_le d (8 + 10 * acc)).
    rewrite (parseUintLoop_step "8" 8) by (done || lia).
    rewrite <- IH by done. f_equal; lia.
  - pose proof (of_uint_acc_le d (9 + 10 * acc)).
    rewrite (parseUintLoop_step "9" 9) by (done || lia).
    rewrite <- IH by done. f_equal; lia.
Qed.

Lemma parseUintLoop_zeros (d : Decimal.uint) :
  Z.of_N (Pos.of_uint d) < 2 ^ 63 →
  strconv.parseUintLoop 0 (NilEmpty.string_of_uint d) = (Z.of_N (Pos.of_uint d), None).
Proof.
  induction d as [|d IH|d IH|d IH|d IH|d IH|d IH|d IH|d IH|d IH|d IH];
    intros Hbound; cbn [Pos.of_uint NilEmpty.string_of_uint Z.of_N] in *; [done|..].
  - rewrite (parseUintLoop_step "0" 0) by (done || lia). by apply IH.
  - pose proof (of_uint_acc_le d 1).
    rewrite (parseUintLoop_step "1" 1) by (done || lia). by apply parseUintLoop_digits.
  - pose proof (of_uint_acc_le d 2).
    rewrite (parseUintLoop_step "2" 2) by (done || lia). by apply parseUintLoop_digits.
  - pose proof (of_uint_acc_le d 3).
    rewrite (parseUintLoop_step "3" 3) by (done || lia). by apply parseUintLoop_digits.
  - pose proof (of_uint_acc_le d 4).
    rewrite (parseUintLoop_step "4" 4) by (done || lia). by apply parseUintLoop_digits.
  - pose proof (of_uint_acc_le d 5).
    rewrite (parseUintLoop_step "5" 5) by (done || lia). by apply parseUintLoop_digits.
  - pose proof (of_uint_acc_le d 6).
    rewrite (parseUintLoop_step "6" 6) by (done || lia). by apply parseUintLoop_digits.
  - pose proof (of_uint_acc_le d 7).
    rewrite (parseUintLoop_step "7" 7) by (done || lia). by apply parseUintLoop_digits.
  - pose proof (of_uint_acc_le d 8).
    rewrite (parseUintLoop_step "8" 8) by (done || lia). by apply parseUintLoop_digits.
  - pose proof (of_uint_acc_le d 9).
    rewrite (parseUintLoop_step "9" 9) by (done || lia). by apply parseUintLoop_digits.
Qed.

(** [Atoi] reads back what [%d] prints. *)
Lemma Atoi_itoa {tables : strconv.PrintTables} (n : Z) :
  0 ≤ n < 2 ^ 63 → strconv.Atoi (itoa n) = (n, noError).
Proof.
  intros [Hlo Hhi]. unfold itoa. destruct n as [|p|p]; [done| |lia].
  cbn [Z.to_int NilZero.string_of_int].
  pose proof (DecimalPos.Unsigned.of_to p) as Hback.
  pose proof (DecimalPos.Unsigned.to_uint_nonnil p) as Hnonnil.
  pose proof (parseUintLoop_zeros (Pos.to_uint p)) as Hloop.
  rewrite Hback in Hloop. specialize (Hloop Hhi).
  unfold NilZero.string_of_uint.
  destruct (Pos.to_uint p) as [|d|d|d|d|d|d|d|d|d|d]; [done|..];
    cbn [NilEmpty.string_of_uint] in *; unfold strconv.Atoi;
    cbn [Ascii.eqb Bool.eqb orb]; unfold strconv.ParseUint; rewrite Hloop;
    cbn [negb andb Z.of_N];
    (destruct (Z.leb_spec (2 ^ 63) (Z.pos p)) as [|_]; [lia | done]).
Qed.

(** The digits of a number are plain bytes. *)
Lemma string_of_uint_plain (d : Decimal.uint) :
  Forall plain (list_ascii_of_string (NilEmpty.string_of_uint d)).
Proof.
  induction d; cbn [NilEmpty.string_of_uint list_ascii_of_string];
    [constructor | constructor; [by vm_compute | done] ..].
Qed.

Lemma itoa_plain (n : Z) :
  0 ≤ n → itoa n ≠ "" ∧ Forall plain (list_ascii_of_string (itoa n)).
Proof.
  intros Hn. unfold itoa. destruct n as [|p|p]; [|cbn [Z.to_int NilZero.string_of_int]|lia].
  - split; [done|]. repeat constructor.
  - pose proof (DecimalPos.Unsigned.to_uint_nonnil p) as Hnonnil.
    pose proof (string_of_uint_plain (Pos.to_uint p)) as Hplain.
    unfold NilZero.string_of_uint.
    destruct (Pos.to_uint p); [done | by split ..].
Qed.

Lemma list_ascii_of_string_app (s t : string) :
  list_ascii_of_string (s +:+ t) = list_ascii_of_string s ++ list_ascii_of_string t.
Proof.
  induction s as [|c s IH]; [done|].
  rewrite append_cons. cbn [list_ascii_of_string app]. by rewrite IH.
Qed.

(** A line of plain bytes is what [TrimSpace] leaves of it and its
    newline. *)
Lemma TrimSpace_plain_line (s : string) :
  s ≠ "" → Forall plain (list_ascii_of_string s) →
  strings.TrimSpace (s +:+ newline) = s.
Proof.
  intros Hne Hplain. unfold strings.TrimSpace. rewrite list_ascii_of_string_app.
  destruct s as [|c s]; [done|]. cbn [list_ascii_of_string] in *.
  destruct (last (c :: list_ascii_of_string s)) as [d|] eqn:Hlast.
  2:{ by apply last_None in Hlast. }
  assert (plain d) as Hd.
  { rewrite Forall_forall in Hplain. apply Hplain.
    apply last_Some in Hlast as [l' ->]. apply elem_of_app. right. by left. }
  rewrite (TrimFunc_line c _ d); [|by inversion Hplain | done | done].
  cbn [string_of_list_ascii]. by rewrite string_of_list_ascii_of_string.
Qed.

Lemma TrimSpace_itoa_line (n : Z) :
  0 ≤ n → strings.TrimSpace (itoa n +:+ newline) = itoa n.
Proof.
  intros Hn. destruct (itoa_plain n Hn) as [Hne Hplain].
  by apply TrimSpace_plain_line.
Qed.

(** ** Counting commits and pushing *)

Section PushingProofs.

Context {G : Type}.
Context {ops : Operations G} {net : Transport G} {tables : strconv.PrintTables}.

(** X21.  [checkHasCommitsAhead] counts against the ref that
    [getSourceRef] names, after a fetch when the repository is not a
    local one, and reads the count git prints: when [git rev-list
    --count] prints the number [n] on a line, the answer is whether [n]
    is positive, and there is no error. *)
Theorem checkHasCommitsAhead_reads_count (g g' : G) (worktree : Worktree) (n : Z) :
  let fetched :=
    if isLocalRepo (worktree_RepoID worktree) then g
    else (ExecuteGit g (worktree_Path worktree)
            ["fetch"; "origin"; worktree_SourceBranch worktree]).1 in
  ExecuteGit fetched (worktree_Path worktree)
    ["rev-list"; "--count"; getSourceRef worktree +:+ "..HEAD"]
  = (g', (itoa n +:+ newline, noError)) →
  0 ≤ n < 2 ^ 63 →
  checkHasCommitsAhead g worktree = (g', (0 <? n, noError)).
Proof.
  intros fetched Hcount Hn. subst fetched.
  unfold checkHasCommitsAhead, getSourceRef, runGitCommand in *.
  destruct (isLocalRepo (worktree_RepoID worktree)).
  - rewrite Hcount. cbn [isNil negb].
    rewrite TrimSpace_itoa_line, Atoi_itoa by lia. done.
  - destruct (ExecuteGit g (worktree_Path worktree) _) as [g1 [out err]].
    cbn [fst] in Hcount. rewrite Hcount. cbn [isNil negb].
    rewrite TrimSpace_itoa_line, Atoi_itoa by lia. done.
Qed.

Lemma pushBranch_no_retry (fuel : nat) (g : G) (worktree : Worktree)
    (repo : Repository) (strategy : PushStrategy) :
  push_SyncOnFail strategy = false →
  pushBranch (S fuel) g worktree repo strategy
  = let '(g', err) := PushBranch g (worktree_Path worktree)
                        (gitStrategyOf worktree strategy) in
    Pushed g' [gitStrategyOf worktree strategy] err.
Proof.
  intros Hoff. cbn [pushBranch]. rewrite Hoff.
  destruct (PushBranch g _ _) as [g' err]. by rewrite andb_false_r.
Qed.

(** X22.  [pushBranch] pushes at most twice and then returns: with two
    levels of calls it always has a result, and more levels change
    nothing.  It pushes a second time only when the first push failed,
    the strategy asked for a sync on failure, the failure was a
    rejection and the sync went through; and every push it makes is
    made with [SyncOnFail] off, on the branch and the remote of the
    strategy or, where the strategy names none, on the branch of the
    worktree and on [origin]. *)
Theorem pushBranch_pushes_at_most_twice (fuel : nat) (g : G) (worktree : Worktree)
    (repo : Repository) (strategy : PushStrategy) :
  pushBranch (S (S fuel)) g worktree repo strategy
    = pushBranch 2 g worktree repo strategy
  ∧ ∃ g' pushes err,
      pushBranch 2 g worktree repo strategy = Pushed g' pushes err
      ∧ (pushes = [gitStrategyOf worktree strategy]
         ∨ pushes = [gitStrategyOf worktree strategy; gitStrategyOf worktree strategy]
           ∧ push_SyncOnFail strategy = true
           ∧ ∃ g1 e, PushBranch g (worktree_Path worktree)
                       (gitStrategyOf worktree strategy) = (g1, Some e)
                     ∧ IsPushRejected (Some e) e = true
                     ∧ (syncBranchWithUpstream g1 worktree).2 = noError).
Proof.
  cbn [pushBranch].
  destruct (PushBranch g (worktree_Path worktree) (gitStrategyOf worktree strategy))
    as [g1 err] eqn:Hpush.
  destruct (negb (isNil err) && push_SyncOnFail strategy
            && IsPushRejected err (errText err)) eqn:Hretry.
  2:{ split; [done|]. exists g1, [gitStrategyOf worktree strategy], err.
      split; [done | by left]. }
  apply andb_prop in Hretry as [[Hfailed Hsync]%andb_prop Hrejected].
  destruct err as [e|]; [|done]. cbn [errText default from_option id] in Hrejected.
  destruct (syncBranchWithUpstream g1 worktree) as [g2 syncErr] eqn:Hsynced.
  destruct syncErr as [se|]; cbn [isNil negb].
  { split; [done|]. eexists _, _, _. split; [done | by left]. }
  set (retryStrategy := {| push_Branch := push_Branch strategy;
                           push_Remote := push_Remote strategy;
                           push_RemoteURL := push_RemoteURL strategy;
                           push_SyncOnFail := false;
                           push_SetUpstream := push_SetUpstream strategy;
                           push_ConvertHTTPS := push_ConvertHTTPS strategy |}).
  change (gitStrategyOf worktree retryStrategy) with (gitStrategyOf worktree strategy).
  destruct (PushBranch g2 (worktree_Path worktree) (gitStrategyOf worktree strategy))
    as [g3 err3] eqn:Hagain.
  cbn [push_SyncOnFail retryStrategy]. rewrite andb_false_r. cbn [andb].
  split; [done|]. eexists _, _, _. split; [done|]. right.
  split; [done|]. split; [done|]. exists g1, e. rewrite Hsynced. done.
Qed.

End PushingProofs.

(** ** Paths of plain names *)

Lemma elements_piece (cur x rest : string) :
  strings.Contains x "/" = false →
  filepath.elements cur (x +:+ String "/" rest)
  = (cur +:+ x) :: filepath.elements "" rest.
Proof.
  revert cur. induction x as [|c x IH]; intros cur Hfree.
  - by rewrite append_empty_l, append_empty_r.
  - rewrite Contains_byte_cons in Hfree. apply orb_false_elim in Hfree as [Hc Hx].
    rewrite append_cons. cbn [filepath.elements]. unfold filepath.Separator.
    rewrite Hc, IH by done. by rewrite append_assoc.
Qed.

Lemma elements_last (cur x : string) :
  strings.Contains x "/" = false →
  filepath.elements cur x = [cur +:+ x].
Proof.
  revert cur. induction x as [|c x IH]; intros cur Hfree.
  - by rewrite append_empty_r.
  - rewrite Contains_byte_cons in Hfree. apply orb_false_elim in Hfree as [Hc Hx].
    cbn [filepath.elements]. unfold filepath.Separator.
    rewrite Hc, IH by done. by rewrite append_assoc.
Qed.

Lemma cleanStep_plain (rooted : bool) (dotdots : nat) (out : list string)
    (name : string) :
  plainName name →
  filepath.cleanStep rooted (dotdots, out) name = (dotdots, name :: out).
Proof.
  intros (Hne & Hdot & Hdots & _). unfold filepath.cleanStep.
  destruct (String.eqb_spec name ""); [done|].
  destruct (String.eqb_spec name "."); [done|].
  by destruct (String.eqb_spec name "..").
Qed.

(** [Clean] leaves a rooted path of two or three plain names as it
    is, and removes a doubled separator. *)
Lemma Clean_three (a b c : string) :
  plainName a → plainName b → plainName c →
  filepath.Clean ("/" +:+ a +:+ "/" +:+ b +:+ "/" +:+ c)
  = "/" +:+ a +:+ "/" +:+ b +:+ "/" +:+ c.
Proof.
  intros Ha Hb Hc. rewrite !append_byte. unfold filepath.Clean.
  cbn [filepath.elements Ascii.eqb Bool.eqb filepath.Separator].
  unfold filepath.Separator. cbn [Ascii.eqb Bool.eqb].
  rewrite (elements_piece "" a) by apply Ha.
  rewrite (elements_piece "" b) by apply Hb.
  rewrite (elements_last "" c) by apply Hc.
  rewrite !append_empty_l. cbn [fold_left].
  change (filepath.cleanStep true (0%nat, []) "") with (0%nat, @nil string).
  rewrite !cleanStep_plain by done.
  cbn [repeat app rev filepath.joinElements fold_left].
  by rewrite ?append_assoc, ?append_byte.
Qed.

Lemma Clean_doubled (a b : string) :
  plainName a → plainName b →
  filepath.Clean ("/" +:+ a +:+ "/" +:+ "/" +:+ b) = "/" +:+ a +:+ "/" +:+ b.
Proof.
  intros Ha Hb. rewrite !append_byte. unfold filepath.Clean.
  cbn [filepath.elements]. unfold filepath.Separator. cbn [Ascii.eqb Bool.eqb].
  rewrite (elements_piece "" a) by apply Ha.
  cbn [filepath.elements]. unfold filepath.Separator. cbn [Ascii.eqb Bool.eqb].
  rewrite (elements_last "" b) by apply Hb.
  rewrite !append_empty_l. cbn [fold_left].
  change (filepath.cleanStep true (0%nat, []) "") with (0%nat, @nil string).
  rewrite (cleanStep_plain _ _ _ a) by done.
  change (filepath.cleanStep true (0%nat, [a]) "") with (0%nat, [a]).
  rewrite (cleanStep_plain _ _ _ b) by done.
  cbn [repeat app rev filepath.joinElements fold_left].
  by rewrite ?append_assoc, ?append_byte.
Qed.

Lemma workspace_plain : plainName "workspace".
Proof. by repeat split. Qed.

(** ** Deleting worktrees *)

Section DeletingWorktreesProofs.

Context {G : Type}.
Context {ops : Operations G} {env : Surroundings G}.

(** X23.  For a worktree where worktrees are by default, at
    [/workspace/<repository>/<name>], [cleanupActiveSessions] ends the
    processes of the worktree and removes no directory. *)
Theorem cleanupActiveSessions_default_layout (g : G) (repoName name : string) :
  plainName repoName → plainName name →
  let worktreePath := "/workspace/" +:+ repoName +:+ "/" +:+ name in
  cleanupActiveSessions g worktreePath
  = (RunCommand g "pkill" ["-f"; worktreePath]).1.
Proof.
  intros Hrepo Hname worktreePath. unfold cleanupActiveSessions.
  destruct (RunCommand g "pkill" ["-f"; worktreePath]) as [g1 e]. cbn [fst].
  assert (strings.TrimPrefix worktreePath "/workspace/" = repoName +:+ "/" +:+ name)
    as ->.
  { unfold strings.TrimPrefix, worktreePath.
    assert (strings.HasPrefix ("/workspace/" +:+ repoName +:+ "/" +:+ name)
              "/workspace/" = true) as -> by (apply HasPrefix_spec; by eexists).
    apply (dropString_append "/workspace/"). }
  unfold strings.Split. rewrite append_byte.
  rewrite (splitFrom_piece "/" "" repoName) by apply Hrepo.
  rewrite (splitFrom_last "/" "" name) by apply Hname.
  rewrite !append_empty_l. cbn [filepath.Join String.eqb Ascii.eqb Bool.eqb].
  cbn [filepath.joinElements fold_left].
  change ("/workspace" +:+ "/" +:+ repoName +:+ "/" +:+ name)
    with ("/" +:+ "workspace" +:+ "/" +:+ repoName +:+ "/" +:+ name).
  rewrite (Clean_three "workspace" repoName name) by (done || apply workspace_plain).
  change ("/" +:+ "workspace" +:+ "/" +:+ repoName +:+ "/" +:+ name) with worktreePath.
  by rewrite String.eqb_refl.
Qed.

(** X24.  The directory [/workspace] is written into
    [cleanupActiveSessions].  For a worktree that is not under
    [/workspace/], at [/<top>/...], the directory it takes for the
    session's is [/workspace/<top>], and when that exists it is removed
    with everything in it. *)
Theorem cleanupActiveSessions_outside_workspace (g : G) (top rest : string) :
  plainName top →
  let worktreePath := "/" +:+ top +:+ "/" +:+ rest in
  let g1 := (RunCommand g "pkill" ["-f"; worktreePath]).1 in
  strings.HasPrefix worktreePath "/workspace/" = false →
  StatPath g1 ("/workspace/" +:+ top) = noError →
  cleanupActiveSessions g worktreePath = (RemoveAll g1 ("/workspace/" +:+ top)).1.
Proof.
  intros Htop worktreePath g1 Houtside Hexists. subst g1.
  unfold cleanupActiveSessions.
  destruct (RunCommand g "pkill" ["-f"; worktreePath]) as [g1 e]. cbn [fst] in *.
  rewrite TrimPrefix_absent by done. unfold worktreePath at 1.
  unfold strings.Split. rewrite !append_byte.
  rewrite splitFrom_byte, Ascii.eqb_refl.
  assert (∃ part1 more, strings.splitFrom 0 "" (top +:+ String "/" rest) "/"
                        = top :: part1 :: more) as (part1 & more & ->).
  { rewrite (splitFrom_piece "/" "" top) by apply Htop. rewrite append_empty_l.
    destruct rest as [|c rest']; [by exists "", []|].
    rewrite splitFrom_byte. destruct (Ascii.eqb c "/").
    - by exists "", (strings.splitFrom 0 "" rest' "/").
    - destruct (strings.splitFrom 0 ("" +:+ String c "") rest' "/") as [|p l] eqn:Hs.
      + pose proof (length_splitFrom_byte "/" ("" +:+ String c "") rest') as Hlen.
        rewrite Hs in Hlen. done.
      + by exists p, l. }
  cbn [filepath.Join String.eqb Ascii.eqb Bool.eqb filepath.joinElements fold_left].
  rewrite append_empty_l.
  change ("/workspace" +:+ "/" +:+ "/" +:+ top)
    with ("/" +:+ "workspace" +:+ "/" +:+ "/" +:+ top).
  rewrite (Clean_doubled "workspace" top) by (done || apply workspace_plain).
  change ("/" +:+ "workspace" +:+ "/" +:+ top) with ("/workspace/" +:+ top).
  destruct (String.eqb_spec ("/workspace/" +:+ top) worktreePath) as [Heq|_].
  { rewrite <- Heq in Houtside.
    assert (strings.HasPrefix ("/workspace/" +:+ top) "/workspace/" = true) as Hp
      by (apply HasPrefix_spec; by eexists).
    congruence. }
  cbn [negb]. by rewrite Hexists.
Qed.

(** X25.  A worktree leaves the map of the service exactly when the
    worktree manager has deleted it: [DeleteWorktree] leaves the
    repositories of the service alone; without an error the worktree,
    which was in the map, is taken out of it and nothing else changes in
    the map; with an error the map is as it was; and when the worktree or
    its repository is not known, nothing at all is done. *)
Theorem DeleteWorktree_outcomes (os : OS)
    (marshal : gmap string Repository → gmap string Worktree → string * error)
    (s : GitService G) (worktreeID : string) :
  let '(s', err, call) := DeleteWorktree os marshal s worktreeID in
  gs_repositories s' = gs_repositories s
  ∧ (if isNil err
     then is_Some (gs_worktrees s !! worktreeID)
          ∧ gs_worktrees s' = delete worktreeID (gs_worktrees s)
     else gs_worktrees s' = gs_worktrees s)
  ∧ match call with
    | Some (repo, worktree, callErr) =>
      gs_worktrees s !! worktreeID = Some worktree
      ∧ gs_repositories s !! worktree_RepoID worktree = Some repo
      ∧ callErr = err
    | None => s' = s ∧ err ≠ noError
    end.
Proof.
  unfold DeleteWorktree.
  destruct (gs_worktrees s !! worktreeID) as [worktree|] eqn:Hwt; [|done].
  destruct (gs_repositories s !! worktree_RepoID worktree) as [repo|] eqn:Hrepo;
    [|done].
  destruct (RemoveWorktree _ repo worktree) as [g err].
  destruct err as [e|]; cbn [isNil negb]; [done|].
  unfold saveState. cbn [gs_repositories gs_worktrees gs_git].
  destruct (marshal _ _) as [data merr].
  destruct (isNil merr); cbn [negb].
  - destruct (WriteFile _ _ _) as [g' werr]. cbn. by repeat split.
  - cbn. by repeat split.
Qed.

(** The call [DeleteWorktree] makes is for the worktree of that id and
    its repository, and it adds nothing to the maps. *)
Lemma DeleteWorktree_call (os : OS)
    (marshal : gmap string Repository → gmap string Worktree → string * error)
    (s : GitService G) (worktreeID : string) :
  let '(s', err, call) := DeleteWorktree os marshal s worktreeID in
  gs_repositories s' = gs_repositories s
  ∧ gs_worktrees s' ⊆ gs_worktrees s
  ∧ ∀ repo worktree callErr, call = Some (repo, worktree, callErr) →
      gs_worktrees s !! worktreeID = Some worktree
      ∧ gs_repositories s !! worktree_RepoID worktree = Some repo.
Proof.
  unfold DeleteWorktree.
  destruct (gs_worktrees s !! worktreeID) as [worktree|] eqn:Hwt; [|done].
  destruct (gs_repositories s !! worktree_RepoID worktree) as [repo|] eqn:Hrepo;
    [|done].
  destruct (RemoveWorktree _ repo worktree) as [g err].
  destruct err as [e|]; cbn [isNil negb].
  { split; [done|]. split; [done|]. by intros ? ? ? [= <- <- _]. }
  unfold saveState. cbn [gs_repositories gs_worktrees gs_git].
  destruct (marshal _ _) as [data merr].
  destruct (isNil merr); cbn [negb]; [destruct (WriteFile _ _ _) as [g' werr]|];
    cbn [gs_repositories gs_worktrees];
    (split; [done|]; split; [apply delete_subseteq|]; by intros ? ? ? [= <- <- _]).
Qed.

(** What stays true during [CleanupMergedWorktrees]. *)
Lemma cleanupWorktree_invariant (os : OS)
    (marshal : gmap string Repository → gmap string Worktree → string * error)
    (s : GitService G) (st : worktreeCleanup G) (entry : string * Worktree) :
  gs_worktrees s !! entry.1 = Some entry.2 →
  gs_repositories (wc_service st) = gs_repositories s
  ∧ gs_worktrees (wc_service st) ⊆ gs_worktrees s
  ∧ Forall (λ d, worktreeRemovable (gs_repositories s) (wdel_checked d)
                   (wdel_repo d) (wdel_worktree d)
                 ∧ ∃ id, gs_worktrees s !! id = Some (wdel_worktree d))
           (wc_deletions st) →
  let st' := cleanupWorktree os marshal st entry in
  gs_repositories (wc_service st') = gs_repositories s
  ∧ gs_worktrees (wc_service st') ⊆ gs_worktrees s
  ∧ Forall (λ d, worktreeRemovable (gs_repositories s) (wdel_checked d)
                   (wdel_repo d) (wdel_worktree d)
                 ∧ ∃ id, gs_worktrees s !! id = Some (wdel_worktree d))
           (wc_deletions st').
Proof.
  destruct entry as [worktreeID worktree]. cbn [fst snd].
  intros Hentry (Hrepos & Hsub & Hsafe). unfold cleanupWorktree.
  destruct (worktree_IsDirty worktree) eqn:Hdirty; [done|].
  destruct (worktree_HasConflicts worktree) eqn:Hconflicts; [done|].
  destruct (Z.ltb_spec 0 (worktree_CommitCount worktree)) as [|Hcount]; [done|].
  destruct (gs_repositories (wc_service st) !! worktree_RepoID worktree)
    as [repo|] eqn:Hrepo; [|done].
  destruct (isMerged (gs_git (wc_service st)) repo worktree) as [[|]|] eqn:Hmerged;
    [|done|done].
  pose proof (DeleteWorktree_call os marshal (wc_service st) worktreeID) as Hdel.
  destruct (DeleteWorktree os marshal (wc_service st) worktreeID)
    as [[s' cleanupErr] call].
  destruct Hdel as (Hrepos' & Hmap & Hcall).
  assert (gs_worktrees s' ⊆ gs_worktrees s) as Hsub' by (by etrans).
  assert (Forall (λ d, worktreeRemovable (gs_repositories s) (wdel_checked d)
                         (wdel_repo d) (wdel_worktree d)
                       ∧ ∃ id, gs_worktrees s !! id = Some (wdel_worktree d))
            match call with
            | Some (repo, worktree, err) =>
              wc_deletions st
              ++ [{| wdel_checked := gs_git (wc_service st); wdel_repo := repo;
                     wdel_worktree := worktree; wdel_err := err |}]
            | None => wc_deletions st
            end) as Hsafe'.
  { destruct call as [[[repo' worktree'] callErr]|]; [|done].
    destruct (Hcall repo' worktree' callErr eq_refl) as [Hwt' Hrepo'].
    apply Forall_app. split; [done|]. apply Forall_singleton. cbn.
    pose proof (lookup_weaken _ _ _ _ Hwt' Hsub) as Hinitial.
    rewrite Hentry in Hinitial. injection Hinitial as <-.
    rewrite Hrepo in Hrepo'. injection Hrepo' as <-.
    split; [|by exists worktreeID].
    split; [done|]. split; [done|]. split; [done|]. split; [by rewrite <- Hrepos|].
    unfold isMerged in Hmerged.
    assert ((let '(branches, err) :=
               ListBranchesMerged (gs_git (wc_service st)) (repo_Path repo)
                 (worktree_SourceBranch worktree) in
             if negb (isNil err) then None
             else Some (existsb (λ branch, String.eqb (CleanBranchName branch)
                                                      (worktree_Branch worktree))
                                branches)) = Some true →
            ∃ branches branch,
              ListBranchesMerged (gs_git (wc_service st)) (repo_Path repo)
                (worktree_SourceBranch worktree) = (branches, noError)
              ∧ branch ∈ branches
              ∧ CleanBranchName branch = worktree_Branch worktree) as Hlisted.
    { destruct (ListBranchesMerged _ _ _) as [branches err].
      destruct err as [e|]; cbn [isNil negb]; [done|].
      intros [= Hex]. apply existsb_exists in Hex as (branch & Hin & Heq).
      exists branches, branch. split; [done|].
      split; [by apply list_elem_of_In | by apply String.eqb_eq]. }
    destruct (isLocalRepo (worktree_RepoID worktree)); [|right; by apply Hlisted].
    destruct (BranchExists _ _ _ _); cbn [negb] in Hmerged;
      [right; by apply Hlisted | by left]. }
  destruct (isNil cleanupErr); cbn [negb wc_service wc_deletions];
    (split; [by rewrite Hrepos' | done]).
Qed.

(** X26.  [CleanupMergedWorktrees] never hands over a worktree with
    work in it.  Every worktree it asks the worktree manager to delete
    is one of the service's, is recorded as clean, without conflicts and
    with no commit ahead of its source, belongs to a repository the
    service knows, and has a branch that the check found merged: listed,
    once cleaned, among the branches merged into the source branch, or,
    in a local repository, gone from it.  It adds no worktree to the
    map, and the number it returns is that of the names it returns. *)
Theorem CleanupMergedWorktrees_removes_only_merged (os : OS)
    (marshal : gmap string Repository → gmap string Worktree → string * error)
    (s : GitService G) (order : list (string * Worktree)) :
  (∀ id worktree, (id, worktree) ∈ order → gs_worktrees s !! id = Some worktree) →
  let '(count, cleanedUp, err, s', deletions) :=
    CleanupMergedWorktrees os marshal s order in
  count = Z.of_nat (length cleanedUp)
  ∧ gs_repositories s' = gs_repositories s
  ∧ gs_worktrees s' ⊆ gs_worktrees s
  ∧ ∀ d, d ∈ deletions →
      worktreeRemovable (gs_repositories s) (wdel_checked d) (wdel_repo d)
        (wdel_worktree d)
      ∧ ∃ id, gs_worktrees s !! id = Some (wdel_worktree d).
Proof.
  intros Horder. unfold CleanupMergedWorktrees.
  assert (∀ st,
            gs_repositories (wc_service st) = gs_repositories s
            ∧ gs_worktrees (wc_service st) ⊆ gs_worktrees s
            ∧ Forall (λ d, worktreeRemovable (gs_repositories s) (wdel_checked d)
                             (wdel_repo d) (wdel_worktree d)
                           ∧ ∃ id, gs_worktrees s !! id = Some (wdel_worktree d))
                     (wc_deletions st) →
            let st' := fold_left (cleanupWorktree os marshal) order st in
            gs_repositories (wc_service st') = gs_repositories s
            ∧ gs_worktrees (wc_service st') ⊆ gs_worktrees s
            ∧ Forall (λ d, worktreeRemovable (gs_repositories s) (wdel_checked d)
                             (wdel_repo d) (wdel_worktree d)
                           ∧ ∃ id, gs_worktrees s !! id = Some (wdel_worktree d))
                     (wc_deletions st')) as Hfold.
  { induction order as [|[id worktree] order IH]; intros st Hst; [done|].
    cbn [fold_left]. apply IH.
    - intros id' wt' Hin. apply Horder. by right.
    - apply (cleanupWorktree_invariant os marshal s st (id, worktree)); [|done].
      apply Horder. by left. }
  destruct (Hfold {| wc_service := s; wc_cleanedUp := []; wc_errors := [];
                     wc_deletions := [] |}) as (Hrepos & Hsub & Hsafe).
  { split; [done|]. split; [done | apply Forall_nil_2]. }
  split; [done|]. split; [done|]. split; [done|].
  intros d Hd. by apply (proj1 (Forall_forall _ _) Hsafe).
Qed.

End DeletingWorktreesProofs.

Section PushingExamples.

Import Worktrees Scripted PlainText.

(** X21 (witness).  Three commits ahead of [origin/main]. *)
Lemma checkHasCommitsAhead_reads_count_witness :
  checkHasCommitsAhead disk coal = (disk, (true, noError)).
Proof.
  apply (checkHasCommitsAhead_reads_count disk disk coal 3); [reflexivity | lia].
Defined.

(** X23 (witness). *)
Lemma cleanupActiveSessions_default_layout_witness :
  cleanupActiveSessions disk "/workspace/catnip/coal"
  = (RunCommand disk "pkill" ["-f"; "/workspace/catnip/coal"]).1.
Proof.
  apply (cleanupActiveSessions_default_layout disk "catnip" "coal");
    by repeat split.
Defined.

(** X24 (witness).  A worktree of a workspace at [/data]: deleting it
    removes the directory [/workspace/data]. *)
Lemma cleanupActiveSessions_outside_workspace_witness :
  disk_dirs (cleanupActiveSessions disk "/data/foo/alpha")
  = ["/workspace/catnip/coal"; "/workspace/catnip/ember"].
Proof.
  rewrite (cleanupActiveSessions_outside_workspace disk "data" "foo/alpha");
    [reflexivity | by repeat split | reflexivity | reflexivity].
Defined.

(** X26 (witness).  The worktree [coal] is clean and merged, and is
    handed over. *)
Lemma CleanupMergedWorktrees_removes_only_merged_witness :
  (CleanupMergedWorktrees Workspace.os marshal service [("wt-coal", coal)]).1.1.1.2
    = ["coal"]
  ∧ worktreeRemovable (gs_repositories service) disk catnip coal.
Proof.
  pose proof (CleanupMergedWorktrees_removes_only_merged Workspace.os marshal service
                [("wt-coal", coal)]) as Hsafe.
  destruct (CleanupMergedWorktrees Workspace.os marshal service [("wt-coal", coal)])
    as [[[[count cleanedUp] err] s'] deletions] eqn:Hrun.
  vm_compute in Hrun. injection Hrun as <- <- <- <- <-.
  split; [reflexivity|].
  destruct Hsafe as (_ & _ & _ & Hdeletions).
  - intros id worktree [= -> ->]%list_elem_of_singleton. reflexivity.
  - destruct (Hdeletions {| wdel_checked := disk; wdel_repo := catnip;
                            wdel_worktree := coal; wdel_err := noError |})
      as [Hok _]; [apply list_elem_of_here | exact Hok].
Defined.

End PushingExamples.

(** ** The automatic renaming *)

Section AutomaticRenaming.

Context {G St R C : Type}.
Context {ops : Operations G} {pkg : GitPackage} {store : SessionService St}
        {reg : Registry G R} {cps : CheckpointManager C} {llm : ClaudeService}.
Context {tables : strconv.PrintTables}.

(** X27.  What the automatic renaming may do.  [checkAndRenameBranch]
    leaves the session store alone, and past the first check of the
    title every way out of it clears the flag [renamingInProgress].  The
    branch name recorded for the worktree changes only when the current
    branch is a catnip branch, the completion answered the prompt made
    from the cleaned title with a text that, trimmed, passed the
    validation, the collision loop settled on a name that is not taken,
    and git created and checked out a branch of that name; the name
    recorded is then that one. *)
Theorem checkAndRenameBranch_renames_catnip_only (m : WorktreeCheckpointManager C)
    (w : world G St R) (title : string) :
  let '(m', w') := checkAndRenameBranch m w title in
  sessions w' = sessions w
  ∧ renamingInProgress m'
    = (if String.eqb (cleanTitle title) "" then renamingInProgress m else false)
  ∧ (registry w' = registry w
     ∨ ∃ g currentBranch req text finalBranch g1 out,
         currentBranchName (git w) (workDir m) = (g, (currentBranch, noError))
         ∧ IsCatnipBranch currentBranch = true
         ∧ Prompt req = branchNamePrompt (cleanTitle title)
         ∧ CreateCompletion req = (Some text, noError)
         ∧ isValidGitBranchName g (strings.TrimSpace text) = true
         ∧ resolveCollision g (workDir m) (strings.TrimSpace text)
           = Resolved finalBranch
         ∧ branchTaken g (workDir m) finalBranch = false
         ∧ ExecuteGit g (workDir m) ["checkout"; "-b"; finalBranch]
           = (g1, (out, noError))
         ∧ registry w'
           = (UpdateWorktreeBranchName
                (DeleteBranch g1 (workDir m) currentBranch true).1
                (registry w) (workDir m) finalBranch).1).
Proof.
  unfold checkAndRenameBranch.
  destruct (String.eqb (cleanTitle title) ""); [by repeat split; left|].
  destruct (currentBranchName (git w) (workDir m)) as [g [currentBranch err]]
    eqn:Hcurrent.
  destruct err as [e|]; cbn [isNil negb]; [by repeat split; left|].
  destruct (IsCatnipBranch currentBranch) eqn:Hcatnip; cbn [negb];
    [|by repeat split; left].
  match goal with
  | |- context [CreateCompletion ?r] =>
    set (req := r); destruct (CreateCompletion req) as [response cerr] eqn:Hanswer
  end.
  destruct cerr as [e|]; cbn [isNil negb]; [by repeat split; left|].
  destruct response as [text|]; [|by repeat split; left].
  destruct (String.eqb text ""); [by repeat split; left|].
  destruct (isValidGitBranchName g (strings.TrimSpace text)) eqn:Hvalid; cbn [negb];
    [|by repeat split; left].
  destruct (resolveCollision g (workDir m) (strings.TrimSpace text))
    as [finalBranch| |] eqn:Hloop; [|by repeat split; left..].
  destruct (branchTaken g (workDir m) finalBranch) eqn:Htaken;
    [by repeat split; left|].
  unfold renameBranch. cbn [git setGit sessions registry].
  destruct (ExecuteGit g (workDir m) ["checkout"; "-b"; finalBranch])
    as [g1 [out err1]] eqn:Hcheckout.
  destruct err1 as [e1|]; cbn [isNil negb]; [by repeat split; left|].
  destruct (DeleteBranch g1 (workDir m) currentBranch true) as [g2 e2] eqn:Hdelete.
  destruct (UpdateWorktreeBranchName g2 (registry w) (workDir m) finalBranch)
    as [r e3] eqn:Hupdate.
  cbn [sessions registry]. split; [done|]. split; [done|]. right.
  exists g, currentBranch, req, text, finalBranch, g1, out.
  rewrite Hdelete. cbn [fst]. rewrite Hupdate. by repeat split.
Qed.

End AutomaticRenaming.

(** ** The branch of a local repository *)

Section LocalReposProofs.

Context {G : Type}.
Context {ops : Operations G}.

(** X28.  The default branch of a local repository always has a name:
    what [getLocalRepoDefaultBranch] returns is never empty and has no
    white space around it.  It is the trimmed output of [git branch
    --show-current] when git succeeded and printed a name, and [main]
    otherwise. *)
Theorem getLocalRepoDefaultBranch_named (g : G) (repoPath : string) :
  let branch := (getLocalRepoDefaultBranch g repoPath).2 in
  branch ≠ ""
  ∧ strings.TrimSpace branch = branch
  ∧ match ExecuteGit g repoPath ["branch"; "--show-current"] with
    | (_, (output, None)) =>
      branch = if String.eqb (strings.TrimSpace output) "" then "main"
               else strings.TrimSpace output
    | (_, (_, Some _)) => branch = "main"
    end.
Proof.
  unfold getLocalRepoDefaultBranch, runGitCommand.
  destruct (ExecuteGit g repoPath ["branch"; "--show-current"]) as [g' [output err]].
  destruct err as [e|]; cbn [isNil negb]; [by repeat split|].
  destruct (String.eqb_spec (strings.TrimSpace output) "") as [Hnone|Hname];
    cbn [snd]; [by repeat split|].
  split; [done|]. split; [apply TrimSpace_idempotent | done].
Qed.

End LocalReposProofs.
